(** * ShootingStar: the email-to-task pipeline, embedded and verified

    A shallow embedding of the label taxonomy ([src/lib/labels/types.ts],
    [src/lib/labels/validator.ts]), the SQLite ledger ([src/lib/db/schema.ts],
    [src/lib/db/client.ts]), the extraction gateway
    ([src/lib/services/claude-cli.service.ts]), the processor service
    ([src/lib/services/processor.service.ts]), the background worker
    script, the reviews route and the Gmail service
    ([src/lib/services/gmail.service.ts]), followed by the theorems that
    settle the specification's claims against that code and by further
    properties of the same code.

    The ledger is the SQLite build that [better-sqlite3] bundles.  Two of
    its traits decide what the code does and are modelled as they are:
    double-quoted string literals are switched off ([SQLITE_DQS=0]), so the
    statement of [isPendingReview], which writes [status = ] followed by
    the word pending in double quotes, names a column that does not exist
    and is rejected when it is prepared; and an [INSERT OR IGNORE] that is
    ignored still takes a number from the [AUTOINCREMENT] sequence. *)

From Stdlib Require Import String Ascii List Bool Arith Lia PeanoNat.
From Stdlib Require Import DecimalString ZArith.
Import ListNotations.
Local Open Scope list_scope.
Local Open Scope string_scope.

Set Implicit Arguments.

(* ===================================================================== *)
(** * JavaScript helpers *)
(* ===================================================================== *)

Module JS.

(** [Array.prototype.join]. *)
Fixpoint join (sep : string) (xs : list string) : string :=
  match xs with
  | [] => ""
  | [x] => x
  | x :: rest => x ++ sep ++ join sep rest
  end.

(** [Array.prototype.includes] on strings. *)
Definition includes (xs : list string) (x : string) : bool :=
  existsb (String.eqb x) xs.

(** [Set.prototype.add]: insertion order is kept, a value already in the
    set is not added again. *)
Definition Set_add (s : list string) (x : string) : list string :=
  if includes s x then s else (s ++ [x])%list.

(** [[...new Set(xs)]]: the elements of [xs] in order of first occurrence. *)
Definition newSet (xs : list string) : list string :=
  fold_left Set_add xs [].

(** The names every ordinary object inherits from [Object.prototype].
    [LABEL_REGISTRY] is an object literal, so the [in] operator and a
    property read on it see these names too. *)
Definition OBJECT_PROTOTYPE_KEYS : list string :=
  [ "constructor"; "__defineGetter__"; "__defineSetter__"; "hasOwnProperty";
    "__lookupGetter__"; "__lookupSetter__"; "isPrototypeOf";
    "propertyIsEnumerable"; "toString"; "valueOf"; "__proto__";
    "toLocaleString" ].

(** [String(n)] for a non-negative integer. *)
Definition numToString (n : nat) : string :=
  NilEmpty.string_of_uint (Nat.to_uint n).

(** A template-literal hole [${v}] for a nullable string. *)
Definition tmpl (v : option string) : string :=
  match v with Some s => s | None => "null" end.

(** [v || ''] for an optional string: [undefined], [null] and [''] are
    falsy. *)
Definition orEmpty (v : option string) : string :=
  match v with Some s => s | None => "" end.

(** The integer that a property key stands for when the key is an array
    index: a canonical decimal numeral below [2^32 - 1]. *)
Definition arrayIndex (key : string) : option N :=
  match NilEmpty.uint_of_string key with
  | Some digits =>
      let n := N.of_uint digits in
      if String.eqb (NilEmpty.string_of_uint (N.to_uint n)) key
         && N.ltb n 4294967295
      then Some n else None
  | None => None
  end.

Fixpoint insertByIndex {V} (n : N) (entry : string * V)
         (sorted : list (N * (string * V))) : list (N * (string * V)) :=
  match sorted with
  | [] => [(n, entry)]
  | (m, other) :: rest =>
      if N.ltb n m then (n, entry) :: sorted
      else (m, other) :: insertByIndex n entry rest
  end.

(** The own properties of an object literal in the order in which
    [Object.keys], [Object.values] and [for-in] enumerate them: the
    array-index keys in ascending numeric order, then the other keys in the
    order of the literal.  The literal is given as its (key, value) pairs
    in source order, each key occurring once. *)
Definition ownEntries {V} (literal : list (string * V)) : list (string * V) :=
  let indexed :=
    fold_left (fun sorted entry =>
                 match arrayIndex (fst entry) with
                 | Some n => insertByIndex n entry sorted
                 | None => sorted
                 end) literal [] in
  let named :=
    filter (fun entry => match arrayIndex (fst entry) with
                         | Some _ => false
                         | None => true
                         end) literal in
  (map snd indexed ++ named)%list.

(** [Object.values(o)]. *)
Definition objectValues {V} (literal : list (string * V)) : list V :=
  map snd (ownEntries literal).

(** [Object.keys(o)]. *)
Definition objectKeys {V} (literal : list (string * V)) : list string :=
  map fst (ownEntries literal).

End JS.

(* ===================================================================== *)
(** * Label taxonomy: [src/lib/labels/types.ts] *)
(* ===================================================================== *)

Inductive LabelCategory : Type :=
| Duration | Context | Theme | Horizon | Performance.

Definition LabelCategory_eqb (a b : LabelCategory) : bool :=
  match a, b with
  | Duration, Duration | Context, Context | Theme, Theme
  | Horizon, Horizon | Performance, Performance => true
  | _, _ => false
  end.

(** [LabelInfo]; the display-only fields [emoji] and [description] are left
    out, no function below reads them. *)
Record LabelInfo : Type := mkLabel {
  label_id : string;
  label_name : string;
  label_category : LabelCategory
}.

(** [LABEL_REGISTRY], as the (key, value) pairs of the object literal in
    source order.  Its keys are array indices, so [Object.values] lists the
    entries by ascending id ([JS.ownEntries]), not in this order. *)
Definition LABEL_REGISTRY : list (string * LabelInfo) :=
  [ ("2170911418", mkLabel "2170911418" "5 min" Duration);
    ("2170911443", mkLabel "2170911443" "15 min" Duration);
    ("2170911462", mkLabel "2170911462" "30 min" Duration);
    ("2170911483", mkLabel "2170911483" "1 hr" Duration);
    ("2170910796", mkLabel "2170910796" "Computer" Context);
    ("2171144986", mkLabel "2171144986" "Calls" Context);
    ("2171144969", mkLabel "2171144969" "Errands" Context);
    ("2170910787", mkLabel "2170910787" "Mobile" Context);
    ("2170867398", mkLabel "2170867398" "Home" Context);
    ("2175329080", mkLabel "2175329080" "Amazon" Context);
    ("2174409639", mkLabel "2174409639" "ChatGPT" Context);
    ("2170910997", mkLabel "2170910997" "SHD" Context);
    ("2174556945", mkLabel "2174556945" "Workshop" Context);
    ("2170911275", mkLabel "2170911275" "Low energy" Context);
    ("2170867369", mkLabel "2170867369" "Fun Depot" Context);
    ("2170911059", mkLabel "2170911059" "FLUP" Context);
    ("2171145727", mkLabel "2171145727" "Accountant" Context);
    ("2171145711", mkLabel "2171145711" "Brittany" Context);
    ("2175489111", mkLabel "2175489111" "Youtube" Context);
    ("2179977775", mkLabel "2179977775" "Amy" Context);
    ("2168964591", mkLabel "2168964591" "Next Action" Context);
    ("2170793536", mkLabel "2170793536" "Challenge" Theme);
    ("2170793538", mkLabel "2170793538" "Care" Theme);
    ("2170793551", mkLabel "2170793551" "Wealth" Theme);
    ("2170793566", mkLabel "2170793566" "Joy" Theme);
    ("2170793532", mkLabel "2170793532" "Lead" Theme);
    ("2174349262", mkLabel "2174349262" "Vision [3-5y]" Horizon);
    ("2174349277", mkLabel "2174349277" "Goals [1-2y]" Horizon);
    ("2174556383", mkLabel "2174556383" "Milestones" Horizon);
    ("2174846814", mkLabel "2174846814" "Above Average" Performance);
    ("2174846815", mkLabel "2174846815" "World Class" Performance) ].

(** The own property of a registry-shaped object stored under [key]. *)
Fixpoint ownProperty (reg : list (string * LabelInfo)) (key : string)
  : option LabelInfo :=
  match reg with
  | [] => None
  | (k, l) :: rest => if String.eqb key k then Some l else ownProperty rest key
  end.

(** What a property read [LABEL_REGISTRY[key]] evaluates to: the own entry,
    else a member inherited from [Object.prototype] (a function or object
    that is no [LabelInfo]), else [undefined]. *)
Inductive PropertyValue : Type :=
| OwnEntry (l : LabelInfo)
| InheritedMember
| Undefined.

Definition readProperty (key : string) : PropertyValue :=
  match ownProperty LABEL_REGISTRY key with
  | Some l => OwnEntry l
  | None => if JS.includes JS.OBJECT_PROTOTYPE_KEYS key
            then InheritedMember else Undefined
  end.

(** [getLabelsByCategory]: [Object.values(LABEL_REGISTRY).filter(...)]. *)
Definition getLabelsByCategory (category : LabelCategory) : list LabelInfo :=
  filter (fun label => LabelCategory_eqb (label_category label) category)
         (JS.objectValues LABEL_REGISTRY).

(** [getLabelInfo]: [LABEL_REGISTRY[labelId]]. *)
Definition getLabelInfo (labelId : string) : PropertyValue :=
  readProperty labelId.

(** [v?.category], [None] standing for [undefined]. *)
Definition categoryOf (v : PropertyValue) : option LabelCategory :=
  match v with
  | OwnEntry l => Some (label_category l)
  | InheritedMember => None
  | Undefined => None
  end.

(** [isApprovedLabel]: [labelId in LABEL_REGISTRY]. *)
Definition isApprovedLabel (labelId : string) : bool :=
  match readProperty labelId with
  | Undefined => false
  | _ => true
  end.

(** Membership of the registry proper: [labelId] is one of the 31 keys. *)
Definition isRegistryMember (labelId : string) : bool :=
  match ownProperty LABEL_REGISTRY labelId with
  | Some _ => true
  | None => false
  end.

(* ===================================================================== *)
(** * Validation and normalization: [src/lib/labels/validator.ts] *)
(* ===================================================================== *)

Record ValidationResult : Type := mkValidation {
  valid : bool;
  errors : list string;
  warnings : option (list string)
}.

Definition isEmpty {A} (xs : list A) : bool :=
  match xs with [] => true | _ => false end.

(** [getLabelInfo(id)?.category === c]. *)
Definition hasCategory (c : LabelCategory) (id : string) : bool :=
  match categoryOf (getLabelInfo id) with
  | Some c' => LabelCategory_eqb c' c
  | None => false
  end.

(** [validateLabels]. *)
Definition validateLabels (labels : list string) : ValidationResult :=
  let errors :=
    flat_map (fun labelId =>
                if isApprovedLabel labelId then []
                else ["Invalid label ID: " ++ labelId ++ " - not in approved list"])
             labels in
  let uniqueLabels := JS.newSet labels in
  let warnings :=
    if Nat.eqb (length uniqueLabels) (length labels) then []
    else ["Duplicate labels detected"] in
  mkValidation (isEmpty errors) errors
               (if isEmpty warnings then None else Some warnings).

(** [validateDuration]. *)
Definition validateDuration (labels : list string) : ValidationResult :=
  let durationLabels := getLabelsByCategory Duration in
  let durationIds := JS.newSet (map label_id durationLabels) in
  let durationCount := length (filter (JS.includes durationIds) labels) in
  let errors :=
    if Nat.eqb durationCount 0 then
      ["Missing duration label - exactly one is required"]
    else if Nat.ltb 1 durationCount then
      ["Too many duration labels (" ++ JS.numToString durationCount
         ++ ") - exactly one is required"]
    else [] in
  mkValidation (isEmpty errors) errors None.

(** [normalizeLabels]. *)
Definition normalizeLabels (labelIds : list string) : list string :=
  let normalized := filter isApprovedLabel labelIds in
  let normalized := JS.newSet normalized in
  let durationLabels := filter (hasCategory Duration) normalized in
  let normalized :=
    match durationLabels with
    | [] => (normalized ++ ["2170911443"])%list
    | [_] => normalized
    | firstDuration :: _ :: _ =>
        filter (fun id => negb (hasCategory Duration id)
                          || String.eqb id firstDuration) normalized
    end in
  let contextLabels := filter (hasCategory Context) normalized in
  if isEmpty contextLabels then (normalized ++ ["2170910796"])%list else normalized.

(** [isValidLabelSet]. *)
Definition isValidLabelSet (labels : list string) : bool :=
  let labelsResult := validateLabels labels in
  let durationResult := validateDuration labels in
  valid labelsResult && valid durationResult.

(* ===================================================================== *)
(** * The ledger: [src/lib/db/schema.ts] and [src/lib/db/client.ts] *)
(* ===================================================================== *)

(** The [status] column of [pending_reviews]: its default and the two values
    [updatePendingReviewStatus] accepts. *)
Inductive ReviewStatus : Type := pending | completed | skipped.

Definition ReviewStatus_eqb (a b : ReviewStatus) : bool :=
  match a, b with
  | pending, pending | completed, completed | skipped, skipped => true
  | _, _ => false
  end.

(** Rows of the four tables.  The timestamp columns ([processed_at],
    [created_at], [completed_at], [updated_at]) and [stack] are left out:
    nothing in the pipeline reads them back.  [labels] holds the array that
    the code stores as [JSON.stringify(labels)]. *)
Record ProcessedEmail : Type := mkProcessedEmail {
  pe_id : nat;
  pe_gmail_id : string;
  pe_thread_id : option string;
  pe_sender : option string;
  pe_subject : option string;
  pe_task_title : option string;
  pe_todoist_task_id : option string;
  pe_labels : option (list string);
  pe_processing_mode : string
}.

Record ErrorLogEntry : Type := mkErrorLogEntry {
  el_id : nat;
  el_error_type : string;
  el_message : string;
  el_email_id : option string
}.

Record PendingReview : Type := mkPendingReview {
  pr_id : nat;
  pr_gmail_id : string;
  pr_thread_id : option string;
  pr_sender : option string;
  pr_subject : option string;
  pr_body : option string;
  pr_gmail_link : option string;
  pr_status : ReviewStatus
}.

(** The [sqlite_sequence] table: for each [AUTOINCREMENT] table the largest
    id that was ever taken for it, 0 when none was. *)
Record Sequences : Type := mkSequences {
  seq_processed_emails : nat;
  seq_error_log : nat;
  seq_pending_reviews : nat
}.

Record Database : Type := mkDatabase {
  automation_state : list (string * string);
  processed_emails : list ProcessedEmail;
  error_log : list ErrorLogEntry;
  pending_reviews : list PendingReview;
  sqlite_sequence : Sequences
}.

(** A database file on which no table holds a row. *)
Definition emptyDatabase : Database :=
  mkDatabase [] [] [] [] (mkSequences 0 0 0).

(** [INTEGER PRIMARY KEY AUTOINCREMENT]: the id that an [INSERT] takes is
    one above the largest id ever taken and above every id in the table. *)
Definition nextId (seq : nat) (ids : list nat) : nat :=
  S (Nat.max seq (fold_right Nat.max 0 ids)).

Definition lookupState (st : list (string * string)) (key : string)
  : option string :=
  match find (fun kv => String.eqb (fst kv) key) st with
  | Some kv => Some (snd kv)
  | None => None
  end.

(** [INSERT OR REPLACE INTO automation_state]: [key] is the primary key. *)
Definition replaceState (st : list (string * string)) (key value : string)
  : list (string * string) :=
  (filter (fun kv => negb (String.eqb (fst kv) key)) st ++ [(key, value)])%list.

Definition deleteState (st : list (string * string)) (key : string)
  : list (string * string) :=
  filter (fun kv => negb (String.eqb (fst kv) key)) st.

(** [initializeDatabase]: the tables exist afterwards, and [running] gets its
    default ['false'] when the key has no row yet. *)
Definition initializeDatabase (file : Database) : Database :=
  match lookupState (automation_state file) "running" with
  | Some _ => file
  | None =>
      mkDatabase (automation_state file ++ [("running", "false")])%list
                 (processed_emails file) (error_log file) (pending_reviews file)
                 (sqlite_sequence file)
  end.

Definition getAutomationState (d : Database) (key : string) : option string :=
  lookupState (automation_state d) key.

Definition setAutomationState (d : Database) (key value : string) : Database :=
  mkDatabase (replaceState (automation_state d) key value)
             (processed_emails d) (error_log d) (pending_reviews d)
             (sqlite_sequence d).

Definition deleteAutomationState (d : Database) (key : string) : Database :=
  mkDatabase (deleteState (automation_state d) key)
             (processed_emails d) (error_log d) (pending_reviews d)
             (sqlite_sequence d).

Definition isAutomationRunning (d : Database) : bool :=
  match getAutomationState d "running" with
  | Some v => String.eqb v "true"
  | None => false
  end.

Definition setLastRunTime (d : Database) (time : string) : Database :=
  setAutomationState d "last_run" time.

(** [isEmailProcessed]. *)
Definition isEmailProcessed (d : Database) (gmailId : string) : bool :=
  existsb (fun row => String.eqb (pe_gmail_id row) gmailId) (processed_emails d).

(** The argument object of [addProcessedEmail]. *)
Record ProcessedEmailData : Type := mkProcessedEmailData {
  ped_gmail_id : string;
  ped_thread_id : option string;
  ped_sender : option string;
  ped_subject : option string;
  ped_task_title : option string;
  ped_todoist_task_id : option string;
  ped_labels : option (list string);
  ped_processing_mode : option string
}.

(** [addProcessedEmail]: a plain [INSERT]; [gmail_id] is [UNIQUE], so the
    statement fails ([None]) when a row with that [gmail_id] exists, and a
    failed statement changes nothing. *)
Definition addProcessedEmail (d : Database) (data : ProcessedEmailData)
  : option Database :=
  if isEmailProcessed d (ped_gmail_id data) then None
  else
    let id := nextId (seq_processed_emails (sqlite_sequence d))
                     (map pe_id (processed_emails d)) in
    let row :=
      mkProcessedEmail id
        (ped_gmail_id data) (ped_thread_id data) (ped_sender data)
        (ped_subject data) (ped_task_title data) (ped_todoist_task_id data)
        (ped_labels data)
        (match ped_processing_mode data with Some m => m | None => "auto" end) in
    Some (mkDatabase (automation_state d) (processed_emails d ++ [row])%list
                     (error_log d) (pending_reviews d)
                     (mkSequences id (seq_error_log (sqlite_sequence d))
                                  (seq_pending_reviews (sqlite_sequence d)))).

(** [addErrorLog]. *)
Definition addErrorLog (d : Database) (error_type : option string)
           (message : string) (email_id : option string) : Database :=
  let id := nextId (seq_error_log (sqlite_sequence d))
                   (map el_id (error_log d)) in
  let row :=
    mkErrorLogEntry id
      (match error_type with Some t => t | None => "UNKNOWN" end)
      message email_id in
  mkDatabase (automation_state d) (processed_emails d)
             (error_log d ++ [row])%list (pending_reviews d)
             (mkSequences (seq_processed_emails (sqlite_sequence d)) id
                          (seq_pending_reviews (sqlite_sequence d))).

(** [getPendingReviewById]. *)
Definition getPendingReviewById (d : Database) (id : nat) : option PendingReview :=
  find (fun row => Nat.eqb (pr_id row) id) (pending_reviews d).

(** Some row of [pending_reviews] carries this [gmail_id], whatever its
    status. *)
Definition hasPendingRow (d : Database) (gmailId : string) : bool :=
  existsb (fun row => String.eqb (pr_gmail_id row) gmailId) (pending_reviews d).

(** The argument object of [addPendingReview]. *)
Record PendingReviewData : Type := mkPendingReviewData {
  prd_gmail_id : string;
  prd_thread_id : option string;
  prd_sender : option string;
  prd_subject : option string;
  prd_body : option string;
  prd_gmail_link : option string
}.

(** [addPendingReview]: [INSERT OR IGNORE]; [gmail_id] is [UNIQUE], so no
    row is inserted when a row with that [gmail_id] exists.  The id is taken
    from the sequence before the conflict is found, and the statement
    completes, so the sequence moves on in either case. *)
Definition addPendingReview (d : Database) (data : PendingReviewData) : Database :=
  let id := nextId (seq_pending_reviews (sqlite_sequence d))
                   (map pr_id (pending_reviews d)) in
  let sequences :=
    mkSequences (seq_processed_emails (sqlite_sequence d))
                (seq_error_log (sqlite_sequence d)) id in
  if hasPendingRow d (prd_gmail_id data)
  then mkDatabase (automation_state d) (processed_emails d) (error_log d)
                  (pending_reviews d) sequences
  else
    let row :=
      mkPendingReview id
        (prd_gmail_id data) (prd_thread_id data) (prd_sender data)
        (prd_subject data) (prd_body data) (prd_gmail_link data) pending in
    mkDatabase (automation_state d) (processed_emails d) (error_log d)
               (pending_reviews d ++ [row])%list sequences.

Definition setStatus (status : ReviewStatus) (row : PendingReview) : PendingReview :=
  mkPendingReview (pr_id row) (pr_gmail_id row) (pr_thread_id row) (pr_sender row)
                  (pr_subject row) (pr_body row) (pr_gmail_link row) status.

(** [updatePendingReviewStatus]: [UPDATE ... SET status = ? WHERE id = ?]. *)
Definition updatePendingReviewStatus (d : Database) (id : nat)
           (status : ReviewStatus) : Database :=
  mkDatabase (automation_state d) (processed_emails d) (error_log d)
    (map (fun row => if Nat.eqb (pr_id row) id then setStatus status row else row)
         (pending_reviews d))
    (sqlite_sequence d).

(** A row with this [gmail_id] and the status ['pending'] exists: the
    PendingReview of the specification.  (The function [isPendingReview] of
    the code is written to look this up, but its statement is rejected; see
    [isPendingReview] below.) *)
Definition awaitsReview (d : Database) (gmailId : string) : bool :=
  existsb (fun row => String.eqb (pr_gmail_id row) gmailId
                      && ReviewStatus_eqb (pr_status row) pending)
          (pending_reviews d).

(** The [pendingReviewCount] of [getStats]:
    [SELECT COUNT( * ) FROM pending_reviews WHERE status = 'pending']. *)
Definition pendingReviewCount (d : Database) : nat :=
  length (filter (fun row => ReviewStatus_eqb (pr_status row) pending)
                 (pending_reviews d)).

(** [setAutomationRunning]. *)
Definition setAutomationRunning (d : Database) (running : bool) : Database :=
  setAutomationState d "running" (if running then "true" else "false").

(** [getLastRunTime]. *)
Definition getLastRunTime (d : Database) : option string :=
  getAutomationState d "last_run".

(* ===================================================================== *)
(** * The outside world: Gmail, the Claude CLI, Todoist *)
(* ===================================================================== *)

(** [GmailEmail], [src/lib/services/gmail.service.ts]. *)
Record GmailEmail : Type := mkEmail {
  email_id : string;
  email_threadId : string;
  email_sender : string;
  email_subject : string;
  email_body : string;
  email_labels : list string
}.

(** A thrown JavaScript value: an [Error] with its message, or the
    [GmailAuthError] subclass with its [authUrl]. *)
Inductive Exn : Type :=
| JsError (message : string)
| GmailAuthError (authUrl : string).

Definition exn_message (e : Exn) : string :=
  match e with
  | JsError m => m
  | GmailAuthError _ => "Gmail authentication required"
  end.

(** [TaskExtraction], [src/lib/services/claude-cli.service.ts]. *)
Record TaskExtraction : Type := mkTaskExtraction {
  te_task : string;
  te_labels : list string;
  te_notes : option string;
  te_dueString : option string
}.

(** [ClaudeCliResult]. *)
Record ClaudeCliResult : Type := mkCliResult {
  cr_success : bool;
  cr_data : option TaskExtraction;
  cr_error : option string;
  cr_fallbackRequired : bool
}.

(** The object that [JSON.parse] yields from the CLI answer: [task] absent or
    empty is falsy, [labels] is [None] when it is no array. *)
Record ParsedAnswer : Type := mkParsed {
  pa_task : option string;
  pa_labels : option (list string);
  pa_notes : option string;
  pa_dueString : option string
}.

(** How the [claude -p] subprocess ends. *)
Inductive CliRun : Type :=
| CliTimedOut
| CliExecFailed (message : option string)
| CliUnparseable (message : string)
| CliAnswered (parsed : ParsedAnswer).

(** What one extraction call finds: whether [process.env.ANTHROPIC_API_KEY]
    is set, whether the credentials file passes [isAuthenticated], and how
    the subprocess ends. *)
Record CliEnvironment : Type := mkCliEnv {
  apiKeyPresent : bool;
  authenticated : bool;
  run : CliRun
}.

(** [CreateTaskInput], [src/lib/services/todoist.service.ts]. *)
Record CreateTaskInput : Type := mkCreateTask {
  ct_content : string;
  ct_description : option string;
  ct_labels : option (list string);
  ct_dueString : option string
}.

(** The behaviour of the external collaborators during one operation. *)
Record Services : Type := mkServices {
  (** [new Date().toISOString()] *)
  now : string;
  (** [process.env.ANTHROPIC_API_KEY] when a cycle or the worker starts *)
  apiKeyAtStart : bool;
  (** a service constructor throws on a missing environment variable *)
  constructorError : option string;
  (** the CLI as found by [extractTaskFromEmail(body, subject, sender)] *)
  claude : string -> string -> string -> CliEnvironment;
  (** [gmail.getStarredEmails()] *)
  starred : Exn + list GmailEmail;
  (** [gmail.labelEmail(id, name)]: [Some e] when it throws [e] *)
  labelFails : string -> string -> option Exn;
  (** [gmail.unstarEmail(id)] *)
  unstarFails : string -> option Exn;
  (** the Todoist API answer to [createTask]: the new task's id, or a throw *)
  todoistApi : CreateTaskInput -> Exn + string;
  (** the message of the [SqliteError] with which [prepare] rejects the
      statement of [isPendingReview] *)
  pendingQueryError : string
}.

(** The calls made to the collaborators. *)
Inductive ExternalCall : Type :=
| CallGetStarredEmails
| CallExtract (body subject sender : string)
| CallCreateTask (input : CreateTaskInput)
| CallLabelEmail (emailId labelName : string)
| CallUnstarEmail (emailId : string).

(** The state an operation runs in: the database and the calls made so far,
    most recent first. *)
Record World : Type := mkWorld {
  db : Database;
  calls : list ExternalCall
}.

(* ===================================================================== *)
(** * Computations that read and write the world and may throw *)
(* ===================================================================== *)

Inductive Outcome (A : Type) : Type :=
| Returned (a : A)
| Thrown (e : Exn).
Arguments Returned {A} a.
Arguments Thrown {A} e.

(** A program: the statements that an operation executes one after the
    other.  [Sql] is one statement on the database, which yields a value
    and the database after it; [Await] is one awaited call to a
    collaborator.  Between two of its statements other operations may run
    theirs. *)
Inductive Prog (A : Type) : Type :=
| Ret (a : A)
| Throw (e : Exn)
| Sql {X : Type} (statement : Database -> X * Database) (k : X -> Prog A)
| Await (c : ExternalCall) (k : Prog A).
Arguments Ret {A} a.
Arguments Throw {A} e.
Arguments Sql {A X} statement k.
Arguments Await {A} c k.

Definition ret {A} (a : A) : Prog A := Ret a.

Definition throw {A} (e : Exn) : Prog A := Throw e.

Fixpoint bind {A B} (m : Prog A) (k : A -> Prog B) : Prog B :=
  match m with
  | Ret a => k a
  | Throw e => Throw e
  | Sql statement k' => Sql statement (fun x => bind (k' x) k)
  | Await c k' => Await c (bind k' k)
  end.

(** [try { m } catch (error) { handler(error) }]. *)
Fixpoint tryCatch {A} (m : Prog A) (handler : Exn -> Prog A) : Prog A :=
  match m with
  | Ret a => Ret a
  | Throw e => handler e
  | Sql statement k => Sql statement (fun x => tryCatch (k x) handler)
  | Await c k => Await c (tryCatch k handler)
  end.

Declare Scope js_scope.
Delimit Scope js_scope with js.
Notation "x <- m ;; k" := (bind m (fun x => k))
  (at level 61, m at next level, right associativity) : js_scope.
Notation "m ;;; k" := (bind m (fun _ => k))
  (at level 61, right associativity) : js_scope.
Local Open Scope js_scope.

Definition readDb {A} (f : Database -> A) : Prog A :=
  Sql (fun d => (f d, d)) Ret.

Definition writeDb (f : Database -> Database) : Prog unit :=
  Sql (fun d => (tt, f d)) Ret.

(** A statement of [better-sqlite3] that throws a [SqliteError] on a
    constraint violation. *)
Definition writeDbOrThrow (f : Database -> option Database) (message : string)
  : Prog unit :=
  Sql (fun d => match f d with
                | Some d' => (true, d')
                | None => (false, d)
                end)
      (fun done => if done then Ret tt else Throw (JsError message)).

Definition call (c : ExternalCall) : Prog unit := Await c (Ret tt).

Definition when (b : bool) (m : Prog unit) : Prog unit :=
  if b then m else ret tt.

(** An operation run on its own, from its first statement to its last:
    writes made before a throw stay made. *)
Definition M (A : Type) : Type := World -> Outcome A * World.

Fixpoint exec {A} (p : Prog A) : M A :=
  fun w =>
    match p with
    | Ret a => (Returned a, w)
    | Throw e => (Thrown e, w)
    | Sql statement k =>
        exec (k (fst (statement (db w))))
             (mkWorld (snd (statement (db w))) (calls w))
    | Await c k => exec k (mkWorld (db w) (c :: calls w))
    end.

Definition DQUOTE : string := String (Ascii.ascii_of_nat 34) EmptyString.

(** [ProcessingResult], [src/lib/services/processor.service.ts]. *)
Record ProcessingResult : Type := mkResult {
  processed : nat;
  errors_count : nat;
  pendingReviews : nat;
  authRequired : bool;
  authUrl : option string
}.

(** The result object of [processManualTask]. *)
Record ManualResult : Type := mkManualResult {
  mr_success : bool;
  mr_taskId : option string;
  mr_error : option string
}.

Section Pipeline.

Variable svc : Services.

(* =================================================================== *)
(** * Collaborator calls *)
(* =================================================================== *)

(** [gmail.getStarredEmails()]. *)
Definition getStarredEmails : Prog (list GmailEmail) :=
  call CallGetStarredEmails ;;;
  match starred svc with
  | inl e => throw e
  | inr emails => ret emails
  end.

(** [gmail.labelEmail(emailId, labelName)]. *)
Definition labelEmail (emailId labelName : string) : Prog unit :=
  call (CallLabelEmail emailId labelName) ;;;
  match labelFails svc emailId labelName with
  | Some e => throw e
  | None => ret tt
  end.

(** [gmail.unstarEmail(emailId)]. *)
Definition unstarEmail (emailId : string) : Prog unit :=
  call (CallUnstarEmail emailId) ;;;
  match unstarFails svc emailId with
  | Some e => throw e
  | None => ret tt
  end.

(** [todoist.createTask(input)], up to the HTTP request; returns [task.id]. *)
Definition createTask (input : CreateTaskInput) : Prog string :=
  call (CallCreateTask input) ;;;
  match todoistApi svc input with
  | inl e => throw e
  | inr taskId => ret taskId
  end.

(* =================================================================== *)
(** * Extraction gateway: [ClaudeCliService] *)
(* =================================================================== *)

Definition ENV_MESSAGE : string :=
  "ANTHROPIC_API_KEY detected! This app uses Claude CLI, not the API. "
  ++ "Remove ANTHROPIC_API_KEY from environment to continue.".

(** [ClaudeCliService.validateEnvironment()]. *)
Definition validateEnvironment (keyPresent : bool) : Prog unit :=
  if keyPresent then throw (JsError ENV_MESSAGE) else ret tt.

Definition fallback (message : string) : ClaudeCliResult :=
  mkCliResult false None (Some message) true.

Definition truthy (v : option string) : bool :=
  match v with
  | Some s => negb (String.eqb s "")
  | None => false
  end.

(** [ClaudeCliService.extractTaskFromEmail(emailBody, subject, sender)]. *)
Definition extractTaskFromEmail (emailBody subject sender : string)
  : Prog ClaudeCliResult :=
  call (CallExtract emailBody subject sender) ;;;
  let env := claude svc emailBody subject sender in
  validateEnvironment (apiKeyPresent env) ;;;
  if negb (authenticated env) then
    ret (fallback ("Claude CLI not authenticated. Run " ++ DQUOTE
                     ++ "claude /login" ++ DQUOTE ++ " on the host machine."))
  else
    match run env with
    | CliTimedOut => ret (fallback "Claude CLI timed out")
    | CliExecFailed message =>
        ret (fallback (if truthy message then JS.orEmpty message
                       else "Unknown error calling Claude CLI"))
    | CliUnparseable message =>
        ret (fallback ("Failed to parse Claude response: " ++ message))
    | CliAnswered parsed =>
        match truthy (pa_task parsed), pa_labels parsed with
        | true, Some labels =>
            let validLabels := filter isApprovedLabel labels in
            let validLabels :=
              if isEmpty validLabels then ["2170911443"; "2170910796"]
              else validLabels in
            ret (mkCliResult true
                   (Some (mkTaskExtraction (JS.orEmpty (pa_task parsed))
                            validLabels (pa_notes parsed) (pa_dueString parsed)))
                   None false)
        | _, _ =>
            ret (fallback "Claude response missing required fields (task, labels)")
        end
    end.

(* =================================================================== *)
(** * Processor service: [src/lib/services/processor.service.ts] *)
(* =================================================================== *)

(** The description array joined with a newline. *)
Definition NEWLINE : string := String (Ascii.ascii_of_nat 10) EmptyString.

Definition buildDescription (sender subject : string) (notes : option string)
           (link : string) : string :=
  JS.join NEWLINE
    [ "From: " ++ sender;
      "Subject: " ++ subject;
      "";
      (if truthy notes then JS.orEmpty notes else "");
      "";
      "Original email: " ++ link ].

Definition UNIQUE_PROCESSED : string :=
  "UNIQUE constraint failed: processed_emails.gmail_id".

(** The [TypeError] of [cliResult.data!.labels] on an absent [data]. *)
Definition READ_OF_UNDEFINED : string :=
  "Cannot read properties of undefined (reading 'labels')".

(** [processEmail(email)]. *)
Definition processEmail (email : GmailEmail) : Prog unit :=
  let gmailLink :=
    "https://mail.google.com/mail/u/0/#inbox/" ++ email_threadId email in
  cliResult <- extractTaskFromEmail (email_body email) (email_subject email)
                                    (email_sender email) ;;
  if negb (cr_success cliResult) then
    writeDb (fun d => addPendingReview d
      (mkPendingReviewData (email_id email) (Some (email_threadId email))
         (Some (email_sender email)) (Some (email_subject email))
         (Some (email_body email)) (Some gmailLink)))
  else
  match cr_data cliResult with
  | None => throw (JsError READ_OF_UNDEFINED)
  | Some data =>
      let normalizedLabels := normalizeLabels (te_labels data) in
      let description :=
        buildDescription (email_sender email) (email_subject email)
                         (te_notes data) gmailLink in
      taskId <- createTask (mkCreateTask (te_task data) (Some description)
                              (Some normalizedLabels) (te_dueString data)) ;;
      labelEmail (email_id email) "Processed" ;;;
      unstarEmail (email_id email) ;;;
      writeDbOrThrow
        (fun d => addProcessedEmail d
           (mkProcessedEmailData (email_id email) (Some (email_threadId email))
              (Some (email_sender email)) (Some (email_subject email))
              (Some (te_task data)) (Some taskId) (Some normalizedLabels)
              (Some "auto")))
        UNIQUE_PROCESSED
  end.

Definition bumpProcessed (r : ProcessingResult) : ProcessingResult :=
  mkResult (S (processed r)) (errors_count r) (pendingReviews r)
           (authRequired r) (authUrl r).

Definition bumpErrors (r : ProcessingResult) : ProcessingResult :=
  mkResult (processed r) (S (errors_count r)) (pendingReviews r)
           (authRequired r) (authUrl r).

(** [isPendingReview(gmailId)], in [src/lib/db/client.ts] and again in the
    worker script.  Its statement compares [status] with the word pending
    in double quotes.  SQLite reads a double-quoted word as a column name
    where a column can stand, and the build that [better-sqlite3] bundles
    does not fall back to a string literal when no such column exists: the
    statement is rejected when it is prepared, so the call throws before
    any row is read, whatever the database holds. *)
Definition isPendingReview (gmailId : string) : Prog bool :=
  throw (JsError (pendingQueryError svc)).

(** The [try { ... } catch (error) { ... }] of one loop iteration of
    [processStarredEmails]. *)
Definition attemptEmail (email : GmailEmail) (result : ProcessingResult)
  : Prog ProcessingResult :=
  tryCatch
    (processEmail email ;;; ret (bumpProcessed result))
    (fun err =>
       writeDb (fun d => addErrorLog d (Some "PROCESSING_ERROR")
                           (exn_message err) (Some (email_id email))) ;;;
       ret (bumpErrors result)).

(** One iteration of the [for (const email of emails)] loop of
    [processStarredEmails]. *)
Definition processOne (email : GmailEmail) (result : ProcessingResult)
  : Prog ProcessingResult :=
  isProcessed <- readDb (fun d => isEmailProcessed d (email_id email)) ;;
  if isProcessed then ret result
  else
    isPending <- isPendingReview (email_id email) ;;
    if isPending then ret result
    else attemptEmail email result.

(** The loop itself. *)
Fixpoint processAll (emails : list GmailEmail) (result : ProcessingResult)
  : Prog ProcessingResult :=
  match emails with
  | [] => ret result
  | email :: rest =>
      result' <- processOne email result ;;
      processAll rest result'
  end.

(** [ProcessorService.processStarredEmails()]. *)
Definition processStarredEmails : Prog ProcessingResult :=
  let result := mkResult 0 0 0 false None in
  writeDb (fun d => setLastRunTime d (now svc)) ;;;
  tryCatch
    (validateEnvironment (apiKeyAtStart svc))
    (fun error =>
       writeDb (fun d => addErrorLog d (Some "ENV_ERROR") (exn_message error) None) ;;;
       throw error) ;;;
  fetched <- tryCatch
    (emails <- getStarredEmails ;; ret (inr emails))
    (fun error =>
       match error with
       | GmailAuthError url =>
           ret (inl (mkResult 0 0 0 true (Some url)))
       | _ => throw error
       end) ;;
  match fetched with
  | inl early => ret early
  | inr emails => processAll emails result
  end.

(** The block [if (pending.gmail_id) { try { label; unstar } catch { } }]
    of [processManualTask]: a failure of either Gmail update is logged to
    the console and swallowed. *)
Definition markHandledQuietly (gmailId : string) : Prog unit :=
  when (negb (String.eqb gmailId ""))
    (tryCatch
       (labelEmail gmailId "Processed" ;;;
        unstarEmail gmailId)
       (fun gmailError => ret tt)).

(** [processManualTask(pendingReviewId, taskData)]. *)
Definition processManualTask (pendingReviewId : nat) (taskData : TaskExtraction)
  : Prog ManualResult :=
  found <- readDb (fun d => getPendingReviewById d pendingReviewId) ;;
  match found with
  | None => ret (mkManualResult false None (Some "Pending review not found"))
  | Some row =>
      tryCatch
        (let normalizedLabels := normalizeLabels (te_labels taskData) in
         let description :=
           buildDescription (JS.tmpl (pr_sender row)) (JS.tmpl (pr_subject row))
                            (te_notes taskData) (JS.tmpl (pr_gmail_link row)) in
         taskId <- createTask (mkCreateTask (te_task taskData) (Some description)
                                 (Some normalizedLabels) (te_dueString taskData)) ;;
         markHandledQuietly (pr_gmail_id row) ;;;
         writeDb (fun d => updatePendingReviewStatus d pendingReviewId completed) ;;;
         writeDbOrThrow
           (fun d => addProcessedEmail d
              (mkProcessedEmailData (pr_gmail_id row)
                 (if truthy (pr_thread_id row) then pr_thread_id row else None)
                 (if truthy (pr_sender row) then pr_sender row else None)
                 (if truthy (pr_subject row) then pr_subject row else None)
                 (Some (te_task taskData)) (Some taskId) (Some normalizedLabels)
                 (Some "manual")))
           UNIQUE_PROCESSED ;;;
         ret (mkManualResult true (Some taskId) None))
        (fun err =>
           writeDb (fun d => addErrorLog d (Some "MANUAL_PROCESSING_ERROR")
                               (exn_message err) (Some (pr_gmail_id row))) ;;;
           ret (mkManualResult false None (Some (exn_message err))))
  end.

(** [skipPendingReview(pendingReviewId)]. *)
Definition skipPendingReview (pendingReviewId : nat) : Prog unit :=
  writeDb (fun d => updatePendingReviewStatus d pendingReviewId skipped).

(* =================================================================== *)
(** * Background worker: the worker script *)
(* =================================================================== *)

(** The [try { ... } catch (error) { ... }] of one iteration of the worker's
    loop.  The worker carries its own copies of the ledger helpers, with the
    SQL statements of [src/lib/db/client.ts]; its [INSERT INTO
    processed_emails] writes the mode ['auto'] itself. *)
Definition workerAttempt (email : GmailEmail) : Prog unit :=
  tryCatch
    (let gmailLink :=
       "https://mail.google.com/mail/u/0/#inbox/" ++ email_threadId email in
     cliResult <- extractTaskFromEmail (email_body email) (email_subject email)
                                       (email_sender email) ;;
     if negb (cr_success cliResult) || cr_fallbackRequired cliResult then
       writeDb (fun d => addPendingReview d
         (mkPendingReviewData (email_id email) (Some (email_threadId email))
            (Some (email_sender email)) (Some (email_subject email))
            (Some (email_body email)) (Some gmailLink)))
     else
     match cr_data cliResult with
     | None => throw (JsError READ_OF_UNDEFINED)
     | Some data =>
         let normalizedLabels := normalizeLabels (te_labels data) in
         let description :=
           buildDescription (email_sender email) (email_subject email)
                            (te_notes data) gmailLink in
         taskId <- createTask (mkCreateTask (te_task data) (Some description)
                                 (Some normalizedLabels) (te_dueString data)) ;;
         labelEmail (email_id email) "Processed" ;;;
         unstarEmail (email_id email) ;;;
         writeDbOrThrow
           (fun d => addProcessedEmail d
              (mkProcessedEmailData (email_id email)
                 (Some (email_threadId email)) (Some (email_sender email))
                 (Some (email_subject email)) (Some (te_task data))
                 (Some taskId) (Some normalizedLabels) None))
           UNIQUE_PROCESSED
     end)
    (fun err =>
       writeDb (fun d => addErrorLog d (Some "PROCESSING_ERROR")
                           (exn_message err) (Some (email_id email)))).

(** The body of the worker's [for (const email of emails)] loop. *)
Definition workerOne (email : GmailEmail) : Prog unit :=
  isProcessed <- readDb (fun d => isEmailProcessed d (email_id email)) ;;
  if isProcessed then ret tt
  else
    isPending <- isPendingReview (email_id email) ;;
    if isPending then ret tt
    else workerAttempt email.

Fixpoint workerAll (emails : list GmailEmail) : Prog unit :=
  match emails with
  | [] => ret tt
  | email :: rest => workerOne email ;;; workerAll rest
  end.

(** The worker's [processStarredEmails()]. *)
Definition workerProcessStarredEmails : Prog unit :=
  writeDb (fun d => setAutomationState d "last_run" (now svc)) ;;;
  tryCatch
    (running <- readDb (fun d => getAutomationState d "running") ;;
     if negb (match running with
              | Some v => String.eqb v "true"
              | None => false
              end)
     then ret tt
     else
       match constructorError svc with
       | Some message => throw (JsError message)
       | None =>
           fetched <- tryCatch
             (emails <- getStarredEmails ;; ret (Some emails))
             (fun error =>
                match error with
                | GmailAuthError _ => ret None
                | _ => throw error
                end) ;;
           match fetched with
           | None => ret tt
           | Some emails => workerAll emails
           end
       end)
    (fun err =>
       writeDb (fun d => addErrorLog d (Some "CYCLE_ERROR") (exn_message err) None)).

(** [checkForTrigger()]: a truthy [trigger_run] value is consumed. *)
Definition checkForTrigger : Prog bool :=
  trigger <- readDb (fun d => getAutomationState d "trigger_run") ;;
  if truthy trigger then
    writeDb (fun d => deleteAutomationState d "trigger_run") ;;; ret true
  else ret false.



(** The [cron.schedule] callback. *)
Definition cronCycle : Prog unit := workerProcessStarredEmails.

(** The [setInterval] callback. *)
Definition triggerPoll : Prog unit :=
  triggered <- checkForTrigger ;;
  if triggered then workerProcessStarredEmails else ret tt.

End Pipeline.

(* ===================================================================== *)
(** * The pending-reviews route: [POST] of the reviews API *)
(* ===================================================================== *)

(** The fields that the handler reads from the JSON body.  [pb_id] is the
    review id as a number ([None] when the field is absent or [null]). *)
Record PendingPostBody : Type := mkPostBody {
  pb_id : option nat;
  pb_action : option string;
  pb_taskData : option TaskExtraction
}.

(** A [NextResponse.json(body, { status })]. *)
Record JsonResponse : Type := mkResponse {
  http_status : nat;
  rs_success : bool;
  rs_message : string;
  rs_taskId : option string
}.

Section Route.

Variable svc : Services.

(** [POST(request)]: [body] is [None] when [request.json()] rejects. *)
Definition pendingPOST (body : option PendingPostBody) : Prog JsonResponse :=
  match body with
  | None => ret (mkResponse 500 false "Internal server error" None)
  | Some b =>
      match pb_id b with
      | None | Some 0 => ret (mkResponse 400 false "Missing review ID" None)
      | Some id =>
          match constructorError svc with
          | Some _ => ret (mkResponse 500 false "Internal server error" None)
          | None =>
              match pb_action b, pb_taskData b with
              | Some action, taskData =>
                  if String.eqb action "skip" then
                    skipPendingReview id ;;;
                    ret (mkResponse 200 true "Review skipped" None)
                  else
                    match String.eqb action "submit", taskData with
                    | true, Some data =>
                        result <- processManualTask svc id data ;;
                        if negb (mr_success result) then
                          ret (mkResponse 200 false
                                 (if truthy (mr_error result)
                                  then JS.orEmpty (mr_error result)
                                  else "Failed to create task") None)
                        else
                          ret (mkResponse 200 true "Task created successfully"
                                          (mr_taskId result))
                    | _, _ => ret (mkResponse 400 false "Invalid action" None)
                    end
              | None, _ => ret (mkResponse 400 false "Invalid action" None)
              end
          end
      end
  end.

End Route.

(* ===================================================================== *)
(** * Operations that run at the same time *)
(* ===================================================================== *)

(** The web server and the worker are two processes on one database file,
    and every [await] lets another request in: between two statements of
    one operation, other operations may execute theirs. *)

(** An operation in flight, as far as the database is concerned: what is
    left of its program, the value it returns dropped. *)
Definition inFlight {A} (p : Prog A) : Prog unit := bind p (fun _ => Ret tt).

(** The operations of the core, with any arguments and any behaviour of the
    collaborators: the cycle of the service and of the worker, the worker's
    trigger poll, manual completion and skipping a review, called directly
    or through the reviews route, and a write of the control surface to
    [automation_state]. *)
Inductive Operation : Prog unit -> Prop :=
| op_cycle svc : Operation (inFlight (processStarredEmails svc))
| op_worker svc : Operation (workerProcessStarredEmails svc)
| op_poll svc : Operation (triggerPoll svc)
| op_manual svc pendingReviewId taskData :
    Operation (inFlight (processManualTask svc pendingReviewId taskData))
| op_skip pendingReviewId : Operation (skipPendingReview pendingReviewId)
| op_post svc body : Operation (inFlight (pendingPOST svc body))
| op_control key value :
    Operation (writeDb (fun d => setAutomationState d key value)).

(** The database and the operations in flight. *)
Definition System : Type := (Database * list (Prog unit))%type.

(** One step: an operation starts, or an operation in flight executes its
    next statement or gets the answer of the call it awaits. *)
Inductive step : System -> System -> Prop :=
| step_start d pool p :
    Operation p ->
    step (d, pool) (d, p :: pool)
| step_sql d before after X (statement : Database -> X * Database) k :
    step (d, (before ++ Sql statement k :: after)%list)
         (snd (statement d), (before ++ k (fst (statement d)) :: after)%list)
| step_await d before after c k :
    step (d, (before ++ Await c k :: after)%list)
         (d, (before ++ k :: after)%list).

Inductive steps : System -> System -> Prop :=
| steps_none s : steps s s
| steps_more s s' s'' : steps s s' -> step s' s'' -> steps s s''.

(* ===================================================================== *)
(** * The Gmail service: [src/lib/services/gmail.service.ts] *)
(* ===================================================================== *)

(** A part of a Gmail message resource: [mimeType], [body.data] ([None]
    when [body] or [data] is absent) and [parts] ([None] when absent). *)
#[warnings="-register-all"]
Inductive MessagePart : Type :=
| mkPart (mimeType : option string) (bodyData : option string)
         (parts : option (list MessagePart)).

Definition part_mimeType (p : MessagePart) : option string :=
  match p with mkPart m _ _ => m end.

Definition part_bodyData (p : MessagePart) : option string :=
  match p with mkPart _ d _ => d end.

Definition part_parts (p : MessagePart) : option (list MessagePart) :=
  match p with mkPart _ _ ps => ps end.

(** A non-empty string is truthy. *)
Definition nonEmpty (v : option string) : bool :=
  match v with
  | Some s => negb (String.eqb s "")
  | None => false
  end.

Definition isPlainText (p : MessagePart) : bool :=
  match part_mimeType p with
  | Some m => String.eqb m "text/plain"
  | None => false
  end.

Section EmailBody.

(** [Buffer.from(data, 'base64').toString('utf-8')]. *)
Variable decode : string -> string.

(** One turn of the [for (const part of parts)] loop of [extractFromParts]:
    [Some text] when the loop returns [text] at this part, [None] when it
    goes on to the next part. *)
Fixpoint visitPart (part : MessagePart) : option string :=
  match part with
  | mkPart mime data sub =>
      if (match mime with Some m => String.eqb m "text/plain" | None => false end)
         && nonEmpty data
      then Some (decode (JS.orEmpty data))
      else
        match sub with
        | Some ps =>
            let nested :=
              (fix loop (ps : list MessagePart) : string :=
                 match ps with
                 | [] => ""
                 | p :: rest =>
                     match visitPart p with
                     | Some text => text
                     | None => loop rest
                     end
                 end) ps in
            if String.eqb nested "" then None else Some nested
        | None => None
        end
  end.

(** [extractFromParts(parts)]. *)
Fixpoint extractFromParts (ps : list MessagePart) : string :=
  match ps with
  | [] => ""
  | p :: rest =>
      match visitPart p with
      | Some text => text
      | None => extractFromParts rest
      end
  end.

(** [extractEmailBody(message)], on [message.payload]. *)
Definition extractEmailBody (payload : option MessagePart) : string :=
  match payload with
  | None => ""
  | Some p =>
      match part_parts p with
      | Some ps => extractFromParts ps
      | None =>
          if nonEmpty (part_bodyData p) then decode (JS.orEmpty (part_bodyData p))
          else ""
      end
  end.

(** The decoded texts of the [text/plain] parts with data, below and
    including a part, in document order. *)
Fixpoint plainTexts (part : MessagePart) : list string :=
  match part with
  | mkPart mime data sub =>
      ((if (match mime with Some m => String.eqb m "text/plain" | None => false end)
           && nonEmpty data
        then [decode (JS.orEmpty data)] else [])
       ++ match sub with
          | Some ps => flat_map plainTexts ps
          | None => []
          end)%list
  end.

End EmailBody.

(** Induction over the MIME tree. *)
Section MessagePartInduction.

Variable P : MessagePart -> Prop.
Hypothesis leaf : forall mime data, P (mkPart mime data None).
Hypothesis node :
  forall mime data ps, Forall P ps -> P (mkPart mime data (Some ps)).

Fixpoint MessagePart_tree_ind (part : MessagePart) : P part :=
  match part with
  | mkPart mime data None => leaf mime data
  | mkPart mime data (Some ps) =>
      node mime data
        ((fix all (ps : list MessagePart) : Forall P ps :=
            match ps with
            | [] => Forall_nil P
            | p :: rest => Forall_cons p (MessagePart_tree_ind p) (all rest)
            end) ps)
  end.

End MessagePartInduction.

(** ** The stored OAuth token: [oauth_tokens] of [src/lib/db/schema.ts] and
    its accessors of [src/lib/db/client.ts] *)

(** A row of [oauth_tokens] without its key; the three columns are
    nullable TEXT. *)
Record OAuthToken : Type := mkOAuthToken {
  access_token : option string;
  refresh_token : option string;
  expiry : option string
}.

(** The table, keyed by [provider] (PRIMARY KEY). *)
Definition TokenTable : Type := list (string * OAuthToken).

Definition getOAuthToken (provider : string) (t : TokenTable) : option OAuthToken :=
  match find (fun row => String.eqb (fst row) provider) t with
  | Some row => Some (snd row)
  | None => None
  end.

(** [DELETE FROM oauth_tokens WHERE provider = ?]. *)
Definition deleteOAuthToken (provider : string) (t : TokenTable) : TokenTable :=
  filter (fun row => negb (String.eqb (fst row) provider)) t.

(** [INSERT OR REPLACE]: the row in conflict is deleted, the new one
    inserted. *)
Definition setOAuthToken (provider accessToken refreshToken expiryText : string)
  (t : TokenTable) : TokenTable :=
  (deleteOAuthToken provider t
   ++ [(provider, mkOAuthToken (Some accessToken) (Some refreshToken) (Some expiryText))])%list.

(** ** Google's side *)

(** The [credentials] of [refreshAccessToken()]; [cred_expiry] is
    [credentials.expiry_date?.toString()]. *)
Record Credentials : Type := mkCredentials {
  cred_access_token : option string;
  cred_refresh_token : option string;
  cred_expiry : option string
}.

Record Header : Type := mkHeader {
  h_name : option string;
  h_value : option string
}.

(** [message.payload]: its headers and its MIME tree. *)
Record Payload : Type := mkPayload {
  pl_headers : option (list Header);
  pl_part : MessagePart
}.

(** [msg.data] of [users.messages.get]. *)
Record Message : Type := mkMessage {
  msg_threadId : option string;
  msg_labelIds : option (list string);
  msg_payload : option Payload
}.

(** What the Google client library and the runtime answer. [parseInt]
    gives [None] for [NaN]. The credentials that [setCredentials] keeps in
    the client object are the library's own state and are not modelled. *)
Record Google : Type := mkGoogle {
  generateAuthUrl : string;
  parseInt : string -> option Z;
  dateNow : Z;
  refreshAccessToken : Exn + Credentials;
  getToken : string -> Exn + Credentials;
  listMessages : Exn + option (list (option string));
  getMessage : string -> Exn + Message;
  toLowerCase : string -> string;
  base64Decode : string -> string
}.

Inductive GoogleRequest : Type :=
| RefreshRequest
| TokenRequest (code : string)
| ListRequest
| GetRequest (id : string).

(** The token table and the requests sent to Google, most recent first. *)
Record GmailWorld : Type := mkGmailWorld {
  tokens : TokenTable;
  requests : list GoogleRequest
}.

Definition G (A : Type) : Type := GmailWorld -> (Exn + A) * GmailWorld.

Definition gret {A : Type} (a : A) : G A := fun w => (inr a, w).

Definition gthrow {A : Type} (e : Exn) : G A := fun w => (inl e, w).

Definition gbind {A B : Type} (m : G A) (k : A -> G B) : G B :=
  fun w =>
    match m w with
    | (inr a, w') => k a w'
    | (inl e, w') => (inl e, w')
    end.

Definition request {A : Type} (r : GoogleRequest) (answer : Exn + A) : G A :=
  fun w => (answer, mkGmailWorld (tokens w) (r :: requests w)).

Definition writeTokens (f : TokenTable -> TokenTable) : G unit :=
  fun w => (inr tt, mkGmailWorld (f (tokens w)) (requests w)).

Section GmailService.

Variable g : Google.

(** [stored.expiry ? parseInt(stored.expiry) : 0], then [expiry < Date.now()];
    a comparison with [NaN] is false. *)
Definition needsRefresh (stored : OAuthToken) : bool :=
  if nonEmpty (expiry stored)
  then match parseInt g (JS.orEmpty (expiry stored)) with
       | Some e => Z.ltb e (dateNow g)
       | None => false
       end
  else Z.ltb 0 (dateNow g).

Definition orElse (v : option string) (fallback : string) : string :=
  if nonEmpty v then JS.orEmpty v else fallback.

Definition ensureAuthenticated : G unit :=
  fun w =>
    match getOAuthToken "gmail" (tokens w) with
    | None => (inl (GmailAuthError (generateAuthUrl g)), w)
    | Some stored =>
        if negb (nonEmpty (refresh_token stored))
        then (inl (GmailAuthError (generateAuthUrl g)), w)
        else if needsRefresh stored
        then
          match request RefreshRequest (refreshAccessToken g) w with
          | (inr credentials, w') =>
              writeTokens
                (setOAuthToken "gmail"
                   (orElse (cred_access_token credentials) "")
                   (orElse (cred_refresh_token credentials)
                           (JS.orEmpty (refresh_token stored)))
                   (orElse (cred_expiry credentials) "")) w'
          | (inl _, w') =>
              gbind (writeTokens (deleteOAuthToken "gmail"))
                    (fun _ => gthrow (GmailAuthError (generateAuthUrl g))) w'
          end
        else (inr tt, w)
    end.

Definition exchangeCode (code : string) : G unit :=
  gbind (request (TokenRequest code) (getToken g code)) (fun issued =>
    if negb (nonEmpty (cred_access_token issued))
       || negb (nonEmpty (cred_refresh_token issued))
    then gthrow (JsError "Failed to get tokens from Google")
    else writeTokens
           (setOAuthToken "gmail"
              (JS.orEmpty (cred_access_token issued))
              (JS.orEmpty (cred_refresh_token issued))
              (orElse (cred_expiry issued) ""))).

Definition gmailIsAuthenticated : G bool :=
  fun w =>
    match ensureAuthenticated w with
    | (inr _, w') => (inr true, w')
    | (inl _, w') => (inr false, w')
    end.

(** [headers.find((h) => h.name?.toLowerCase() === name)?.value || fallback]. *)
Definition headerOr (headers : list Header) (name fallback : string) : string :=
  match find (fun h => match h_name h with
                       | Some n => String.eqb (toLowerCase g n) name
                       | None => false
                       end) headers with
  | Some h => orElse (h_value h) fallback
  | None => fallback
  end.

Definition emailOf (id : string) (m : Message) : GmailEmail :=
  let headers := match msg_payload m with
                 | Some p => match pl_headers p with Some hs => hs | None => [] end
                 | None => []
                 end in
  {| email_id := id;
     email_threadId := JS.orEmpty (msg_threadId m);
     email_sender := headerOr headers "from" "Unknown";
     email_subject := headerOr headers "subject" "No Subject";
     email_body := extractEmailBody (base64Decode g)
                     (match msg_payload m with
                      | Some p => Some (pl_part p)
                      | None => None
                      end);
     email_labels := match msg_labelIds m with Some ls => ls | None => [] end |}.

(** The [for (const message of messages)] loop of [getStarredEmails];
    [emails] is the array built so far. *)
Fixpoint fetchMessages (messages : list (option string)) (emails : list GmailEmail)
  : G (list GmailEmail) :=
  match messages with
  | [] => gret emails
  | message :: rest =>
      if negb (nonEmpty message) then fetchMessages rest emails
      else
        gbind (request (GetRequest (JS.orEmpty message))
                       (getMessage g (JS.orEmpty message)))
              (fun m => fetchMessages rest
                          (emails ++ [emailOf (JS.orEmpty message) m])%list)
  end.

Definition gmailGetStarredEmails : G (list GmailEmail) :=
  gbind ensureAuthenticated (fun _ =>
  gbind (request ListRequest (listMessages g)) (fun messages =>
  fetchMessages (match messages with Some ms => ms | None => [] end) [])).

End GmailService.

(** The first of a list of texts. *)
Definition firstText (texts : list string) : option string :=
  match texts with
  | [] => None
  | text :: _ => Some text
  end.

(** [e] is built from the answer of [messages.get] for its id. *)
Definition fetchedFrom (g : Google) (e : GmailEmail) : Prop :=
  exists m, getMessage g (email_id e) = inr m /\ e = emailOf g (email_id e) m.

(** [response.data.messages || []]. *)
Definition listedIds (g : Google) : list (option string) :=
  match listMessages g with
  | inr (Some messages) => messages
  | _ => []
  end.

(* ===================================================================== *)
(** * Vocabulary of the statements *)
(* ===================================================================== *)

(** The duration step of [normalizeLabels], on its own. *)
Definition durationStep (normalized : list string) : list string :=
  match filter (hasCategory Duration) normalized with
  | [] => (normalized ++ ["2170911443"])%list
  | [_] => normalized
  | firstDuration :: _ :: _ =>
      filter (fun id => negb (hasCategory Duration id)
                        || String.eqb id firstDuration) normalized
  end.

(** The context step of [normalizeLabels], on its own. *)
Definition contextStep (normalized : list string) : list string :=
  if isEmpty (filter (hasCategory Context) normalized)
  then (normalized ++ ["2170910796"])%list else normalized.

(** The id set that [validateDuration] builds from the registry. *)
Definition durationIds : list string :=
  JS.newSet (map label_id (getLabelsByCategory Duration)).

(** The ids of [getLabelsByCategory(category)], as [getDurationLabelIds]
    takes them for the Duration category. *)
Definition labelIdsOf (category : LabelCategory) : list string :=
  map label_id (getLabelsByCategory category).

(** [getDurationLabelIds]. *)
Definition getDurationLabelIds : list string := labelIdsOf Duration.

(** The first Duration id of a list, or the default the normalizer appends. *)
Definition firstDurationOr15 (labelIds : list string) : string :=
  match filter (hasCategory Duration) labelIds with
  | [] => "2170911443"
  | d :: _ => d
  end.

(** The [UNIQUE] constraints on [gmail_id] hold. *)
Definition uniqueKeys (d : Database) : Prop :=
  NoDup (map pe_gmail_id (processed_emails d))
  /\ NoDup (map pr_gmail_id (pending_reviews d)).

(** Every [AUTOINCREMENT] id occurs once in its table. *)
Definition uniqueIds (d : Database) : Prop :=
  NoDup (map pe_id (processed_emails d))
  /\ NoDup (map pr_id (pending_reviews d))
  /\ NoDup (map el_id (error_log d)).

(** [automation_state] holds one row per key. *)
Definition uniqueStateKeys (d : Database) : Prop :=
  NoDup (map fst (automation_state d)).

(** No item has both a ProcessedRecord and a PendingReview with the status
    ['pending']. *)
Definition exclusive (d : Database) : Prop :=
  forall id, isEmailProcessed d id = true -> awaitsReview d id = true -> False.

(** The invariant of the ledger: the [UNIQUE] constraints hold and no item is
    both processed and pending. *)
Definition ledgerInvariant (d : Database) : Prop :=
  uniqueKeys d /\ exclusive d.

(** The result of [extractTaskFromEmail] for an email.  The function reads
    the CLI environment only, so any world gives the same result. *)
Definition extraction (svc : Services) (email : GmailEmail)
  : Outcome ClaudeCliResult :=
  fst (exec (extractTaskFromEmail svc (email_body email) (email_subject email)
               (email_sender email)) (mkWorld emptyDatabase [])).

(** The CLI environment that the extraction of an email meets. *)
Definition environmentOf (svc : Services) (email : GmailEmail) : CliEnvironment :=
  claude svc (email_body email) (email_subject email) (email_sender email).

(** The pair of defaults that [extractTaskFromEmail] substitutes. *)
Definition DEFAULT_PAIR : list string := ["2170911443"; "2170910796"].

Definition gmailLinkOf (email : GmailEmail) : string :=
  "https://mail.google.com/mail/u/0/#inbox/" ++ email_threadId email.

(** The argument that the automatic pipeline passes to [createTask]. *)
Definition taskInputOf (email : GmailEmail) (data : TaskExtraction)
  : CreateTaskInput :=
  mkCreateTask (te_task data)
    (Some (buildDescription (email_sender email) (email_subject email)
             (te_notes data) (gmailLinkOf email)))
    (Some (normalizeLabels (te_labels data))) (te_dueString data).

(** The argument that the automatic pipeline passes to [addPendingReview]. *)
Definition pendingDataOf (email : GmailEmail) : PendingReviewData :=
  mkPendingReviewData (email_id email) (Some (email_threadId email))
    (Some (email_sender email)) (Some (email_subject email))
    (Some (email_body email)) (Some (gmailLinkOf email)).

(** The argument that the automatic pipeline passes to [addProcessedEmail]. *)
Definition processedDataOf (email : GmailEmail) (data : TaskExtraction)
           (taskId : string) (mode : option string) : ProcessedEmailData :=
  mkProcessedEmailData (email_id email) (Some (email_threadId email))
    (Some (email_sender email)) (Some (email_subject email))
    (Some (te_task data)) (Some taskId) (Some (normalizeLabels (te_labels data)))
    mode.

(** The extraction of an email returns a fallback. *)
Definition fallsBack (svc : Services) (email : GmailEmail) : Prop :=
  exists r, extraction svc email = Returned r /\ cr_success r = false.

(** The extraction of an email returns the task [data]. *)
Definition extracts (svc : Services) (email : GmailEmail) (data : TaskExtraction)
  : Prop :=
  exists r, extraction svc email = Returned r
            /\ cr_success r = true /\ cr_data r = Some data.

(** The six description lines of the specification, joined by newlines. *)
Definition sixLines (sender subject notes link : string) : string :=
  "From: " ++ sender ++ NEWLINE
  ++ "Subject: " ++ subject ++ NEWLINE
  ++ "" ++ NEWLINE
  ++ notes ++ NEWLINE
  ++ "" ++ NEWLINE
  ++ "Original email: " ++ link.

(** The argument that manual completion passes to [createTask]. *)
Definition manualInputOf (row : PendingReview) (taskData : TaskExtraction)
  : CreateTaskInput :=
  mkCreateTask (te_task taskData)
    (Some (buildDescription (JS.tmpl (pr_sender row)) (JS.tmpl (pr_subject row))
             (te_notes taskData) (JS.tmpl (pr_gmail_link row))))
    (Some (normalizeLabels (te_labels taskData))) (te_dueString taskData).

(** The argument that manual completion passes to [addProcessedEmail]. *)
Definition manualDataOf (row : PendingReview) (taskData : TaskExtraction)
           (taskId : string) : ProcessedEmailData :=
  mkProcessedEmailData (pr_gmail_id row)
    (if truthy (pr_thread_id row) then pr_thread_id row else None)
    (if truthy (pr_sender row) then pr_sender row else None)
    (if truthy (pr_subject row) then pr_subject row else None)
    (Some (te_task taskData)) (Some taskId)
    (Some (normalizeLabels (te_labels taskData))) (Some "manual").

(** What [processManualTask], run on its own, does to the database. *)
Definition manualDb (svc : Services) (pendingReviewId : nat)
           (taskData : TaskExtraction) (d : Database) : Database :=
  match getPendingReviewById d pendingReviewId with
  | None => d
  | Some row =>
      match todoistApi svc (manualInputOf row taskData) with
      | inl e =>
          addErrorLog d (Some "MANUAL_PROCESSING_ERROR") (exn_message e)
                      (Some (pr_gmail_id row))
      | inr taskId =>
          let d1 := updatePendingReviewStatus d pendingReviewId completed in
          match addProcessedEmail d1 (manualDataOf row taskData taskId) with
          | Some d2 => d2
          | None =>
              addErrorLog d1 (Some "MANUAL_PROCESSING_ERROR") UNIQUE_PROCESSED
                          (Some (pr_gmail_id row))
          end
      end
  end.

(** The result object of [processManualTask], read off the database and the
    answer of Todoist. *)
Definition manualResult (svc : Services) (pendingReviewId : nat)
           (taskData : TaskExtraction) (d : Database) : ManualResult :=
  match getPendingReviewById d pendingReviewId with
  | None => mkManualResult false None (Some "Pending review not found")
  | Some row =>
      match todoistApi svc (manualInputOf row taskData) with
      | inl e => mkManualResult false None (Some (exn_message e))
      | inr taskId =>
          match addProcessedEmail
                  (updatePendingReviewStatus d pendingReviewId completed)
                  (manualDataOf row taskData taskId) with
          | Some _ => mkManualResult true (Some taskId) None
          | None => mkManualResult false None (Some UNIQUE_PROCESSED)
          end
      end
  end.

(** The emails that a cycle gets from Gmail: none when the fetch throws. *)
Definition fetched (svc : Services) : list GmailEmail :=
  match starred svc with
  | inr emails => emails
  | inl _ => []
  end.

(** Every one of the emails has a ProcessedRecord. *)
Definition allProcessed (d : Database) (emails : list GmailEmail) : bool :=
  forallb (fun email => isEmailProcessed d (email_id email)) emails.

(** How [ProcessorService.processStarredEmails], run on its own, ends. *)
Definition cycleOutcome (svc : Services) (d : Database)
  : Outcome ProcessingResult :=
  if apiKeyAtStart svc then Thrown (JsError ENV_MESSAGE)
  else
    match starred svc with
    | inl (GmailAuthError url) => Returned (mkResult 0 0 0 true (Some url))
    | inl e => Thrown e
    | inr emails =>
        if allProcessed d emails then Returned (mkResult 0 0 0 false None)
        else Thrown (JsError (pendingQueryError svc))
    end.

(** What it does to the database. *)
Definition cycleDb (svc : Services) (d : Database) : Database :=
  let d1 := setLastRunTime d (now svc) in
  if apiKeyAtStart svc then addErrorLog d1 (Some "ENV_ERROR") ENV_MESSAGE None
  else d1.

(** What the worker's [processStarredEmails], run on its own, does to the
    database. *)
Definition workerCycleDb (svc : Services) (d : Database) : Database :=
  let d1 := setAutomationState d "last_run" (now svc) in
  if isAutomationRunning d1 then
    match constructorError svc with
    | Some message => addErrorLog d1 (Some "CYCLE_ERROR") message None
    | None =>
        match starred svc with
        | inl (GmailAuthError _) => d1
        | inl e => addErrorLog d1 (Some "CYCLE_ERROR") (exn_message e) None
        | inr emails =>
            if allProcessed d emails then d1
            else addErrorLog d1 (Some "CYCLE_ERROR") (pendingQueryError svc) None
        end
    end
  else d1.

(** The stored Gmail token has a non-empty refresh token. *)
Definition hasRefreshToken (t : TokenTable) : bool :=
  match getOAuthToken "gmail" t with
  | Some stored => nonEmpty (refresh_token stored)
  | None => false
  end.

(* ===================================================================== *)
(** * A concrete inbox *)
(* ===================================================================== *)

Module Scenario.

Definition a1 : GmailEmail :=
  mkEmail "a1" "t1" "gov@example.com" "Renew passport" "...due Friday..."
          ["STARRED"].

Definition a2 : GmailEmail :=
  mkEmail "a2" "t2" "bank@example.com" "Pay invoice" "Invoice 42 attached"
          ["STARRED"; "INBOX"].

(** The CLI is logged in and answers with a task for the subject, the
    Errands label and a due date. *)
Definition answering (body subject sender : string) : CliEnvironment :=
  mkCliEnv false true
    (CliAnswered (mkParsed (Some ("Handle " ++ subject)) (Some ["2171144969"])
                           (Some ("Sent by " ++ sender)) (Some "Friday"))).

(** The CLI is not logged in. *)
Definition loggedOut (body subject sender : string) : CliEnvironment :=
  mkCliEnv false false CliTimedOut.

Definition accepting (input : CreateTaskInput) : Exn + string :=
  inr ("task:" ++ ct_content input).

(** Todoist rejects the task of the first email and accepts the others. *)
Definition rejectingPassport (input : CreateTaskInput) : Exn + string :=
  if String.eqb (ct_content input) "Handle Renew passport"
  then inl (JsError "Todoist API error: 500 - down")
  else accepting input.

Definition labelling (emailId labelName : string) : option Exn := None.


(** A message for the [SqliteError] with which the statement of
    [isPendingReview] is rejected; its wording varies with the SQLite
    version. *)
Definition NO_SUCH_COLUMN : string := "no such column: pending".

Definition services (keyAtStart : bool)
           (cli : string -> string -> string -> CliEnvironment)
           (inbox : list GmailEmail)
           (label : string -> string -> option Exn)
           (api : CreateTaskInput -> Exn + string) : Services :=
  mkServices "2026-01-01T00:00:00.000Z" keyAtStart None cli (inr inbox)
             label (fun _ => None) api NO_SUCH_COLUMN.

Definition healthy : Services :=
  services false answering [a1; a2] labelling accepting.

Definition keyAtStartup : Services :=
  services true answering [a1; a2] labelling accepting.



Definition trackerDown : Services :=
  services false answering [a1; a2] labelling rejectingPassport.

Definition cliLoggedOut : Services :=
  services false loggedOut [a1] labelling accepting.

(** The world of a fresh installation. *)
Definition fresh : World := mkWorld (initializeDatabase emptyDatabase) [].

(** The same with the automation switched on. *)
Definition switchedOn : Database :=
  setAutomationState (initializeDatabase emptyDatabase) "running" "true".

(** What the human reviewer submits for a pending review. *)
Definition reviewed : TaskExtraction :=
  mkTaskExtraction "Renew passport at the consulate" ["2171144969"]
                   None (Some "Friday").

(** Gmail asks for a new authentication. *)
Definition gmailLoggedOut : Services :=
  mkServices "2026-01-01T00:00:00.000Z" false None answering
             (inl (GmailAuthError "https://accounts.google.com/o/oauth2/v2/auth"))
             labelling (fun _ => None) accepting NO_SUCH_COLUMN.

(** The Gmail API is down. *)
Definition gmailDown : Services :=
  mkServices "2026-01-01T00:00:00.000Z" false None answering
             (inl (JsError "Gmail API error: 503"))
             labelling (fun _ => None) accepting NO_SUCH_COLUMN.

(** A database with the automation switched on. *)
Definition running : World := mkWorld switchedOn [].

(** A fresh database to which [addPendingReview] has added email [a1]: it is
    review 1, with the status ['pending']. *)
Definition queued : Database :=
  addPendingReview (initializeDatabase emptyDatabase) (pendingDataOf a1).

End Scenario.

(* ===================================================================== *)
(** * The calls that an operation makes *)
(* ===================================================================== *)

(** The call of the extraction gateway for an email. *)
Definition extractCall (email : GmailEmail) : ExternalCall :=
  CallExtract (email_body email) (email_subject email) (email_sender email).

(** The calls that a cycle of the service makes: the fetch, unless the
    credential stops it first. *)
Definition cycleCalls (svc : Services) (before : list ExternalCall)
  : list ExternalCall :=
  if apiKeyAtStart svc then before else CallGetStarredEmails :: before.

(** The calls that a cycle of the worker makes. *)
Definition workerCalls (svc : Services) (d : Database)
           (before : list ExternalCall) : list ExternalCall :=
  if isAutomationRunning d then
    match constructorError svc with
    | Some _ => before
    | None => CallGetStarredEmails :: before
    end
  else before.

(** The calls of [markHandledQuietly]. *)
Definition quietCalls (svc : Services) (gmailId : string)
           (before : list ExternalCall) : list ExternalCall :=
  if negb (String.eqb gmailId "") then
    match labelFails svc gmailId "Processed" with
    | Some _ => CallLabelEmail gmailId "Processed" :: before
    | None => CallUnstarEmail gmailId
              :: CallLabelEmail gmailId "Processed" :: before
    end
  else before.

(** The calls of [processManualTask]. *)
Definition manualCalls (svc : Services) (pendingReviewId : nat)
           (taskData : TaskExtraction) (d : Database)
           (before : list ExternalCall) : list ExternalCall :=
  match getPendingReviewById d pendingReviewId with
  | None => before
  | Some row =>
      match todoistApi svc (manualInputOf row taskData) with
      | inl _ => CallCreateTask (manualInputOf row taskData) :: before
      | inr _ =>
          quietCalls svc (pr_gmail_id row)
            (CallCreateTask (manualInputOf row taskData) :: before)
      end
  end.

(* ===================================================================== *)
(** * What a statement may do to the ledger while others run *)
(* ===================================================================== *)

(** The identity of a review: its id and the email it belongs to. *)
Definition reviewKey (row : PendingReview) : nat * string :=
  (pr_id row, pr_gmail_id row).

(** One statement took the database from [d] to [d']: the reviews are the
    same reviews, none has become pending, an email that got its
    ProcessedRecord was not awaiting review when it got it, and the [UNIQUE]
    constraints still hold. *)
Definition settles (d d' : Database) : Prop :=
  map reviewKey (pending_reviews d') = map reviewKey (pending_reviews d)
  /\ (forall gmailId, awaitsReview d' gmailId = true ->
                      awaitsReview d gmailId = true)
  /\ (forall gmailId, isEmailProcessed d gmailId = false ->
                      isEmailProcessed d' gmailId = true ->
                      awaitsReview d gmailId = false)
  /\ (uniqueKeys d -> uniqueKeys d').

(** What an operation in flight knows about the database stays true while
    the statements of other operations run. *)
Definition stable (P : Database -> Prop) : Prop :=
  forall d d', settles d d' -> P d -> P d'.

(** Every statement of the program settles, whatever the database is when
    it runs. *)
Fixpoint quiet {A} (p : Prog A) : Prop :=
  match p with
  | Ret _ | Throw _ => True
  | Sql statement k =>
      (forall d, settles d (snd (statement d))) /\ forall x, quiet (k x)
  | Await _ k => quiet k
  end.

(** Every statement of the program settles when it runs in a database of
    which [P] holds, and leaves the program with some knowledge that is
    again stable. *)
Fixpoint safe {A} (p : Prog A) (P : Database -> Prop) : Prop :=
  match p with
  | Ret _ | Throw _ => True
  | Sql statement k =>
      forall d, uniqueKeys d -> P d ->
        settles d (snd (statement d))
        /\ exists P', stable P' /\ P' (snd (statement d))
                      /\ safe (k (fst (statement d))) P'
  | Await _ k => safe k P
  end.

(** Every operation in flight is safe for what it knows. *)
Definition poolSafe (d : Database) (pool : list (Prog unit)) : Prop :=
  Forall (fun p => exists P, stable P /\ P d /\ safe p P) pool.

Definition systemInvariant (s : System) : Prop :=
  ledgerInvariant (fst s) /\ poolSafe (fst s) (snd s).

(** What is left of a program that has run to its end. *)
Definition finished {A} (o : Outcome A) : Prog A :=
  match o with
  | Returned a => Ret a
  | Thrown e => Throw e
  end.

(* ===================================================================== *)
(** * Properties of the label normalizer *)
(* ===================================================================== *)

Lemma LabelCategory_eqb_eq a b : LabelCategory_eqb a b = true <-> a = b.
Proof. destruct a, b; simpl; split; intro H; try reflexivity; discriminate H. Qed.

Lemma includes_In xs x : JS.includes xs x = true <-> In x xs.
Proof.
  unfold JS.includes. rewrite existsb_exists. split.
  - intros [y [Hy Heq]]. apply String.eqb_eq in Heq. now subst.
  - intro H. exists x. split; [assumption | apply String.eqb_refl].
Qed.

Lemma includes_not_In xs x : JS.includes xs x = false <-> ~ In x xs.
Proof.
  rewrite <- includes_In. destruct (JS.includes xs x); split; intro H;
    try reflexivity; try discriminate; congruence.
Qed.

Lemma Set_add_In s x y : In y (JS.Set_add s x) <-> In y s \/ y = x.
Proof.
  unfold JS.Set_add. destruct (JS.includes s x) eqn:E.
  - apply includes_In in E. split; [now left | intros [H | ->]; assumption].
  - rewrite in_app_iff. simpl. intuition congruence.
Qed.

Lemma Set_add_NoDup s x : NoDup s -> NoDup (JS.Set_add s x).
Proof.
  intro H. unfold JS.Set_add. destruct (JS.includes s x) eqn:E; [assumption |].
  apply includes_not_In in E.
  apply NoDup_app; [assumption | constructor; [intros [] | constructor] |].
  intros a Ha [<- | []]. contradiction.
Qed.

Lemma fold_Set_add_In xs : forall s y,
  In y (fold_left JS.Set_add xs s) <-> In y s \/ In y xs.
Proof.
  induction xs as [| x xs IH]; intros s y; simpl.
  - tauto.
  - rewrite IH, Set_add_In. intuition congruence.
Qed.

Lemma fold_Set_add_NoDup xs : forall s, NoDup s -> NoDup (fold_left JS.Set_add xs s).
Proof.
  induction xs as [| x xs IH]; intros s H; simpl; [assumption |].
  apply IH. now apply Set_add_NoDup.
Qed.

Lemma newSet_In xs y : In y (JS.newSet xs) <-> In y xs.
Proof. unfold JS.newSet. rewrite fold_Set_add_In. simpl. tauto. Qed.

Lemma newSet_NoDup xs : NoDup (JS.newSet xs).
Proof. apply fold_Set_add_NoDup. constructor. Qed.

Lemma filter_nil_not_In {A} (p : A -> bool) l x :
  filter p l = [] -> p x = true -> ~ In x l.
Proof.
  intros Hnil Hp Hin.
  assert (Hx : In x (filter p l)) by (apply filter_In; auto).
  rewrite Hnil in Hx. destruct Hx.
Qed.

Lemma filter_eqb_NoDup l f :
  NoDup l -> In f l -> filter (fun id => String.eqb id f) l = [f].
Proof.
  induction 1 as [| a l Hnotin Hnd IH]; intros Hin; [destruct Hin |].
  simpl. destruct (String.eqb a f) eqn:E.
  - apply String.eqb_eq in E. subst a. f_equal.
    clear IH Hin. induction l as [| b l IHl]; [reflexivity |].
    simpl. destruct (String.eqb b f) eqn:E'.
    + apply String.eqb_eq in E'. subst b. exfalso. apply Hnotin. now left.
    + apply IHl.
      * intro H. apply Hnotin. now right.
      * now inversion Hnd.
  - destruct Hin as [-> | Hin]; [rewrite String.eqb_refl in E; discriminate |].
    now apply IH.
Qed.

Lemma filter_filter {A} (p q : A -> bool) l :
  filter p (filter q l) = filter (fun x => q x && p x) l.
Proof.
  induction l as [| a l IH]; [reflexivity |].
  simpl. destruct (q a); simpl; [destruct (p a) |]; now rewrite IH.
Qed.

Lemma NoDup_filter_str (p : string -> bool) l : NoDup l -> NoDup (filter p l).
Proof.
  induction 1 as [| a l Hnotin Hnd IH]; simpl; [constructor |].
  destruct (p a); [constructor |]; auto.
  intro H. apply filter_In in H. tauto.
Qed.

Lemma NoDup_snoc (l : list string) x : NoDup l -> ~ In x l -> NoDup (l ++ [x]).
Proof.
  intros Hnd Hx. apply NoDup_app; [assumption | constructor; [intros [] | constructor] |].
  intros a Ha [<- | []]. contradiction.
Qed.


Lemma normalizeLabels_steps labelIds :
  normalizeLabels labelIds
  = contextStep (durationStep (JS.newSet (filter isApprovedLabel labelIds))).
Proof. reflexivity. Qed.

Lemma durationStep_spec l :
  NoDup l ->
  NoDup (durationStep l)
  /\ length (filter (hasCategory Duration) (durationStep l)) = 1
  /\ (forall x, In x (durationStep l) -> In x l \/ x = "2170911443").
Proof.
  intro Hnd. unfold durationStep.
  destruct (filter (hasCategory Duration) l) as [| f [| g r]] eqn:E.
  - repeat split.
    + apply NoDup_snoc; [assumption |].
      eapply filter_nil_not_In; [exact E | reflexivity].
    + rewrite filter_app, E. reflexivity.
    + intros x Hx. apply in_app_iff in Hx. destruct Hx as [Hx | [<- | []]]; auto.
  - repeat split; auto. now rewrite E.
  - assert (Hf : In f l /\ hasCategory Duration f = true).
    { apply filter_In. rewrite E. now left. }
    destruct Hf as [Hfin Hfd].
    repeat split.
    + now apply NoDup_filter_str.
    + rewrite filter_filter.
      rewrite (filter_ext _ (fun x => String.eqb x f && hasCategory Duration x)).
      * rewrite <- filter_filter, (@filter_eqb_NoDup l f Hnd Hfin). simpl.
        now rewrite Hfd.
      * intro a. destruct (hasCategory Duration a) eqn:Ha; simpl;
          destruct (String.eqb a f); reflexivity.
    + intros x Hx. apply filter_In in Hx. tauto.
Qed.

Lemma contextStep_spec l :
  NoDup l ->
  NoDup (contextStep l)
  /\ filter (hasCategory Duration) (contextStep l) = filter (hasCategory Duration) l
  /\ 1 <= length (filter (hasCategory Context) (contextStep l))
  /\ (forall x, In x (contextStep l) -> In x l \/ x = "2170910796").
Proof.
  intro Hnd. unfold contextStep.
  destruct (filter (hasCategory Context) l) as [| c r] eqn:E; simpl.
  - repeat split.
    + apply NoDup_snoc; [assumption |].
      eapply filter_nil_not_In; [exact E | reflexivity].
    + rewrite filter_app. simpl. apply app_nil_r.
    + rewrite filter_app, E. simpl. lia.
    + intros x Hx. apply in_app_iff in Hx. destruct Hx as [Hx | [<- | []]]; auto.
  - repeat split; auto. rewrite E. simpl. lia.
Qed.

(** What [normalizeLabels] guarantees on every input: approved ids only (in
    the sense of [isApprovedLabel]), no duplicates, exactly one Duration id
    and at least one Context id. *)
Lemma normalizeLabels_shape labelIds :
  (forall id, In id (normalizeLabels labelIds) -> isApprovedLabel id = true)
  /\ NoDup (normalizeLabels labelIds)
  /\ length (filter (hasCategory Duration) (normalizeLabels labelIds)) = 1
  /\ 1 <= length (filter (hasCategory Context) (normalizeLabels labelIds)).
Proof.
  rewrite normalizeLabels_steps.
  set (l0 := JS.newSet (filter isApprovedLabel labelIds)).
  assert (H0 : NoDup l0) by apply newSet_NoDup.
  destruct (@durationStep_spec _ H0) as (H1 & Hd & Hin1).
  destruct (@contextStep_spec _ H1) as (H2 & Hd2 & Hc & Hin2).
  repeat split; auto.
  - intros id Hid. destruct (Hin2 _ Hid) as [Hid1 | ->]; [| reflexivity].
    destruct (Hin1 _ Hid1) as [Hid0 | ->]; [| reflexivity].
    unfold l0 in Hid0. apply newSet_In, filter_In in Hid0. tauto.
  - now rewrite Hd2.
Qed.

(** Every id of the output comes from the input or is one of the two
    defaults. *)
Lemma normalizeLabels_origin labelIds id :
  In id (normalizeLabels labelIds) ->
  In id labelIds \/ id = "2170911443" \/ id = "2170910796".
Proof.
  rewrite normalizeLabels_steps.
  set (l0 := JS.newSet (filter isApprovedLabel labelIds)).
  assert (H0 : NoDup l0) by apply newSet_NoDup.
  destruct (@durationStep_spec _ H0) as (H1 & _ & Hin1).
  destruct (@contextStep_spec _ H1) as (_ & _ & _ & Hin2).
  intro Hid. destruct (Hin2 _ Hid) as [Hid1 | ->]; [| auto].
  destruct (Hin1 _ Hid1) as [Hid0 | ->]; [| auto].
  unfold l0 in Hid0. apply newSet_In, filter_In in Hid0. tauto.
Qed.

Lemma approved_not_inherited_is_member id :
  isApprovedLabel id = true ->
  JS.includes JS.OBJECT_PROTOTYPE_KEYS id = false ->
  isRegistryMember id = true.
Proof.
  unfold isApprovedLabel, isRegistryMember, readProperty.
  destruct (ownProperty LABEL_REGISTRY id); [reflexivity |].
  intros H1 H2. rewrite H2 in H1. discriminate.
Qed.

(** On inputs without a name inherited from [Object.prototype], the output
    of [normalizeLabels] is a taxonomy-valid set of registry members. *)
Lemma normalizeLabels_registry_valid labelIds :
  (forall id, In id labelIds -> JS.includes JS.OBJECT_PROTOTYPE_KEYS id = false) ->
  (forall id, In id (normalizeLabels labelIds) -> isRegistryMember id = true)
  /\ NoDup (normalizeLabels labelIds)
  /\ length (filter (hasCategory Duration) (normalizeLabels labelIds)) = 1
  /\ 1 <= length (filter (hasCategory Context) (normalizeLabels labelIds)).
Proof.
  intro Hin. destruct (normalizeLabels_shape labelIds) as (Ha & Hn & Hd & Hc).
  repeat split; auto.
  intros id Hid.
  destruct (normalizeLabels_origin _ _ Hid) as [H | [-> | ->]];
    [| reflexivity | reflexivity].
  apply approved_not_inherited_is_member; auto.
Qed.

Lemma inherited_name_facts id :
  JS.includes JS.OBJECT_PROTOTYPE_KEYS id = true ->
  isApprovedLabel id = true
  /\ isRegistryMember id = false
  /\ forall c, hasCategory c id = false.
Proof.
  intro H. apply includes_In in H.
  repeat (destruct H as [<- | H]; [repeat split |]); destruct H.
Qed.

Lemma durationStep_keeps l x :
  In x l -> hasCategory Duration x = false -> In x (durationStep l).
Proof.
  intros Hin Hx. unfold durationStep.
  destruct (filter (hasCategory Duration) l) as [| f [| g r]].
  - apply in_app_iff. now left.
  - exact Hin.
  - apply filter_In. split; [exact Hin |]. now rewrite Hx.
Qed.

Lemma contextStep_keeps l x : In x l -> In x (contextStep l).
Proof.
  intro Hin. unfold contextStep.
  destruct (isEmpty _); [apply in_app_iff; now left | exact Hin].
Qed.

(** Every name inherited from [Object.prototype] that occurs in the input
    is returned by [normalizeLabels], and none of them is a registry key. *)
Lemma inherited_name_survives labelIds id :
  In id labelIds ->
  JS.includes JS.OBJECT_PROTOTYPE_KEYS id = true ->
  In id (normalizeLabels labelIds) /\ isRegistryMember id = false.
Proof.
  intros Hin Hproto.
  destruct (inherited_name_facts id Hproto) as (Ha & Hm & Hc).
  split; [| exact Hm].
  rewrite normalizeLabels_steps.
  apply contextStep_keeps, durationStep_keeps; [| apply Hc].
  apply newSet_In, filter_In. now split.
Qed.

(** C1. [normalizeLabels] run on the one-element input [["toString"]]: the
    inherited name passes [isApprovedLabel], survives every step and is
    returned next to the two defaults, although it is no key of the label
    registry and has no category. *)
Theorem C1_normalizeLabels_keeps_inherited_name :
  normalizeLabels ["toString"] = ["toString"; "2170911443"; "2170910796"]
  /\ isApprovedLabel "toString" = true
  /\ isRegistryMember "toString" = false
  /\ categoryOf (getLabelInfo "toString") = None.
Proof. repeat split; reflexivity. Qed.

(* ===================================================================== *)
(** * Normalization followed by validation *)
(* ===================================================================== *)


Lemma durationIds_value :
  durationIds = ["2170911418"; "2170911443"; "2170911462"; "2170911483"].
Proof. reflexivity. Qed.

Ltac split_on_key id :=
  repeat match goal with
         | |- context [String.eqb id ?k] =>
             destruct (String.eqb id k); cbn [orb negb]; try reflexivity
         end.

(** [durationIds.has(id)] and [getLabelInfo(id)?.category === Duration]
    agree on every string. *)
Lemma durationIds_hasCategory id :
  JS.includes durationIds id = hasCategory Duration id.
Proof.
  rewrite durationIds_value.
  unfold hasCategory, getLabelInfo, readProperty, JS.includes, LABEL_REGISTRY.
  cbn [existsb ownProperty].
  split_on_key id.
  destruct (existsb _ _); reflexivity.
Qed.

Lemma validateLabels_no_errors labels :
  (forall id, In id labels -> isApprovedLabel id = true) ->
  errors (validateLabels labels) = [] /\ valid (validateLabels labels) = true.
Proof.
  intro H. unfold validateLabels. cbn [errors valid].
  assert (E : flat_map
                (fun labelId =>
                   if isApprovedLabel labelId then []
                   else ["Invalid label ID: " ++ labelId ++ " - not in approved list"])
                labels = []).
  { induction labels as [| a l IH]; [reflexivity |].
    simpl. rewrite (H a (or_introl eq_refl)). simpl.
    apply IH. intros id Hid. apply H. now right. }
  rewrite E. split; reflexivity.
Qed.

Lemma validateDuration_one labels :
  length (filter (hasCategory Duration) labels) = 1 ->
  errors (validateDuration labels) = [] /\ valid (validateDuration labels) = true.
Proof.
  intro H. unfold validateDuration. fold durationIds.
  rewrite (filter_ext _ _ durationIds_hasCategory), H. split; reflexivity.
Qed.

(** For every input, the output of [normalizeLabels] passes
    [isValidLabelSet]: [validateLabels] reports no error on it (every id
    passes [isApprovedLabel]) and [validateDuration] reports none either
    (exactly one id is in the Duration id set). *)
Lemma normalize_then_validate (xs : list string) :
  isValidLabelSet (normalizeLabels xs) = true
  /\ errors (validateLabels (normalizeLabels xs)) = []
  /\ errors (validateDuration (normalizeLabels xs)) = []
  /\ length (filter (JS.includes durationIds) (normalizeLabels xs)) = 1.
Proof.
  destruct (normalizeLabels_shape xs) as (Ha & _ & Hd & _).
  destruct (validateLabels_no_errors _ Ha) as [El Vl].
  destruct (validateDuration_one _ Hd) as [Ed Vd].
  repeat split; auto.
  - unfold isValidLabelSet. now rewrite Vl, Vd.
  - now rewrite (filter_ext _ _ durationIds_hasCategory).
Qed.

(** C10. Normalization followed by validation succeeds on every input, as
    the claim says, but not for the reason it gives: on the input
    [["toString"]] the output holds the inherited name, [validateLabels]
    reports no error for it and [isValidLabelSet] is true, although that id
    is no member of the label registry.  Both functions test membership
    with [in], which follows the prototype chain. *)
Theorem C10_validation_accepts_inherited_name :
  (forall xs, isValidLabelSet (normalizeLabels xs) = true)
  /\ In "toString" (normalizeLabels ["toString"])
  /\ errors (validateLabels (normalizeLabels ["toString"])) = []
  /\ isValidLabelSet (normalizeLabels ["toString"]) = true
  /\ isRegistryMember "toString" = false.
Proof.
  split; [intros xs; apply normalize_then_validate |].
  repeat split; try reflexivity. left. reflexivity.
Qed.


(* ===================================================================== *)
(** * Further properties of the taxonomy and of the normalizer *)
(* ===================================================================== *)

Lemma labelIdsOf_hasCategory (c : LabelCategory) (id : string) :
  JS.includes (labelIdsOf c) id = hasCategory c id.
Proof.
  destruct c;
    match goal with
    | |- context [labelIdsOf ?c] =>
        let v := eval vm_compute in (labelIdsOf c) in
        change (labelIdsOf c) with v
    end;
    unfold hasCategory, getLabelInfo, readProperty, JS.includes,
      LABEL_REGISTRY;
    cbn [existsb ownProperty];
    repeat match goal with
           | |- context [String.eqb id ?k] =>
               let E := fresh "E" in
               destruct (String.eqb id k) eqn:E;
               [apply String.eqb_eq in E; subst id; reflexivity
               | clear E; cbn [orb] ]
           end;
    destruct (existsb _ _); reflexivity.
Qed.

Lemma category_member c id :
  hasCategory c id = true -> isRegistryMember id = true.
Proof.
  unfold hasCategory, getLabelInfo, readProperty, isRegistryMember.
  destruct (ownProperty LABEL_REGISTRY id); [reflexivity |].
  destruct (JS.includes _ _); discriminate.
Qed.

Lemma member_approved id :
  isRegistryMember id = true -> isApprovedLabel id = true.
Proof.
  unfold isRegistryMember, isApprovedLabel, readProperty.
  destruct (ownProperty LABEL_REGISTRY id); [reflexivity | discriminate].
Qed.

Lemma category_approved c id :
  hasCategory c id = true -> isApprovedLabel id = true.
Proof. intro H. eapply member_approved, category_member, H. Qed.

(** X1.  The two views of the registry agree: an id is among the ids of
    [getLabelsByCategory(c)] exactly when [getLabelInfo(id)?.category] is
    [c], for every string and every category; an id with a category is a key
    of the registry, and every key passes [isApprovedLabel]. *)
Theorem X1_category_views_agree (c : LabelCategory) (id : string) :
  JS.includes (labelIdsOf c) id = hasCategory c id
  /\ (hasCategory c id = true -> isRegistryMember id = true)
  /\ (isRegistryMember id = true -> isApprovedLabel id = true).
Proof.
  repeat split.
  - apply labelIdsOf_hasCategory.
  - apply category_member.
  - apply member_approved.
Qed.

Lemma fold_Set_add_fresh l : forall s,
  NoDup (s ++ l) -> fold_left JS.Set_add l s = (s ++ l)%list.
Proof.
  induction l as [| x l IH]; intros s H; cbn [fold_left].
  - now rewrite app_nil_r.
  - assert (Hx : JS.includes s x = false).
    { apply includes_not_In. intro Hin.
      apply NoDup_remove_2 in H. apply H. apply in_app_iff. now left. }
    unfold JS.Set_add at 2. rewrite Hx.
    rewrite IH; rewrite <- app_assoc; cbn [app]; [reflexivity | exact H].
Qed.

(** [[...new Set(l)]] of a list without duplicates is the list. *)
Lemma newSet_NoDup_id l : NoDup l -> JS.newSet l = l.
Proof. intro H. unfold JS.newSet. now rewrite fold_Set_add_fresh. Qed.

Lemma filter_all {A} (p : A -> bool) l :
  (forall x, In x l -> p x = true) -> filter p l = l.
Proof.
  induction l as [| a l IH]; intro H; [reflexivity |].
  cbn [filter]. rewrite (H a (or_introl eq_refl)). f_equal.
  apply IH. intros x Hx. apply H. now right.
Qed.

(** A set that meets the normalizer's guarantees is left as it is. *)
Lemma normalizeLabels_fixpoint l :
  (forall id, In id l -> isApprovedLabel id = true) ->
  NoDup l ->
  length (filter (hasCategory Duration) l) = 1 ->
  1 <= length (filter (hasCategory Context) l) ->
  normalizeLabels l = l.
Proof.
  intros Ha Hn Hd Hc. rewrite normalizeLabels_steps.
  rewrite (filter_all _ _ Ha), (newSet_NoDup_id Hn).
  assert (Hds : durationStep l = l).
  { unfold durationStep.
    destruct (filter (hasCategory Duration) l) as [| f [| g r]];
      [discriminate | reflexivity | discriminate]. }
  rewrite Hds. unfold contextStep.
  destruct (filter (hasCategory Context) l); [cbn in Hc; lia | reflexivity].
Qed.

(** X2.  [normalizeLabels] is idempotent: normalizing its own output changes
    nothing, on every input. *)
Theorem X2_normalizeLabels_idempotent (labelIds : list string) :
  normalizeLabels (normalizeLabels labelIds) = normalizeLabels labelIds.
Proof.
  destruct (normalizeLabels_shape labelIds) as (Ha & Hn & Hd & Hc).
  now apply normalizeLabels_fixpoint.
Qed.

Lemma includes_filter (p : string -> bool) s x :
  p x = true -> JS.includes (filter p s) x = JS.includes s x.
Proof.
  intro Hp. unfold JS.includes.
  induction s as [| a s IH]; [reflexivity |].
  cbn [filter existsb]. destruct (p a) eqn:Ea; cbn [existsb].
  - now rewrite IH.
  - rewrite IH. destruct (String.eqb x a) eqn:E; [| reflexivity].
    apply String.eqb_eq in E. congruence.
Qed.

Lemma filter_fold_Set_add (p : string -> bool) l : forall s,
  filter p (fold_left JS.Set_add l s)
  = fold_left JS.Set_add (filter p l) (filter p s).
Proof.
  induction l as [| x l IH]; intro s; [reflexivity |].
  cbn [fold_left filter]. rewrite IH.
  destruct (p x) eqn:Hp; cbn [fold_left]; f_equal.
  - unfold JS.Set_add. rewrite (includes_filter _ _ _ Hp).
    destruct (JS.includes s x); [reflexivity |].
    rewrite filter_app. cbn [filter]. now rewrite Hp.
  - unfold JS.Set_add. destruct (JS.includes s x); [reflexivity |].
    rewrite filter_app. cbn [filter]. rewrite Hp. apply app_nil_r.
Qed.

Lemma filter_newSet (p : string -> bool) l :
  filter p (JS.newSet l) = JS.newSet (filter p l).
Proof. unfold JS.newSet. now rewrite filter_fold_Set_add. Qed.

Lemma fold_Set_add_head l : forall a s,
  exists t, fold_left JS.Set_add l (a :: s) = a :: t.
Proof.
  induction l as [| x l IH]; intros a s; [now exists s |].
  cbn [fold_left]. unfold JS.Set_add at 2.
  destruct (JS.includes (a :: s) x); [apply IH |].
  cbn [app]. apply IH.
Qed.

Lemma newSet_head a l : exists t, JS.newSet (a :: l) = a :: t.
Proof. unfold JS.newSet. cbn [fold_left]. apply fold_Set_add_head. Qed.


Lemma X1_category_views_agree_witness :
  JS.includes (labelIdsOf Context) "2171144969" = true
  /\ isApprovedLabel "2171144969" = true.
Proof.
  destruct (X1_category_views_agree Context "2171144969") as (H1 & H2 & H3).
  split; [rewrite H1; reflexivity |].
  apply H3, H2. reflexivity.
Defined.

Lemma duration_of_approved l :
  filter (hasCategory Duration) (filter isApprovedLabel l)
  = filter (hasCategory Duration) l.
Proof.
  rewrite filter_filter. apply filter_ext. intro id.
  destruct (hasCategory Duration id) eqn:E;
    [rewrite (category_approved _ _ E); reflexivity | apply andb_false_r].
Qed.

Lemma durationStep_durations l :
  NoDup l ->
  filter (hasCategory Duration) (durationStep l)
  = [match filter (hasCategory Duration) l with
     | [] => "2170911443"
     | d :: _ => d
     end].
Proof.
  intro Hnd. unfold durationStep.
  destruct (filter (hasCategory Duration) l) as [| f [| g r]] eqn:E.
  - rewrite filter_app, E. reflexivity.
  - exact E.
  - assert (Hf : In f l /\ hasCategory Duration f = true).
    { apply filter_In. rewrite E. now left. }
    destruct Hf as [Hfin Hfd].
    rewrite filter_filter.
    rewrite (filter_ext _ (fun x => String.eqb x f && hasCategory Duration x)).
    + rewrite <- filter_filter, (@filter_eqb_NoDup l f Hnd Hfin). cbn [filter].
      now rewrite Hfd.
    + intro a. destruct (hasCategory Duration a); cbn;
        destruct (String.eqb a f); reflexivity.
Qed.

(** X3.  The one Duration id of the output is the first Duration id of the
    input, and the default 15-minute id when the input has none. *)
Theorem X3_first_duration_wins (labelIds : list string) :
  filter (hasCategory Duration) (normalizeLabels labelIds)
  = [firstDurationOr15 labelIds].
Proof.
  rewrite normalizeLabels_steps.
  set (l0 := JS.newSet (filter isApprovedLabel labelIds)).
  assert (H0 : NoDup l0) by apply newSet_NoDup.
  destruct (@durationStep_spec _ H0) as (H1 & _ & _).
  destruct (@contextStep_spec _ H1) as (_ & Hsame & _ & _).
  rewrite Hsame, (durationStep_durations H0). f_equal.
  unfold l0, firstDurationOr15.
  rewrite filter_newSet, duration_of_approved.
  destruct (filter (hasCategory Duration) labelIds) as [| d r]; [reflexivity |].
  destruct (newSet_head d r) as [t ->]. reflexivity.
Qed.

(** X4.  The normalizer drops nothing but unapproved ids, repeated ids and
    Duration ids after the first: every approved id of the input that is no
    Duration id is in the output; and the default Context id is appended only
    when the input has no approved Context id. *)
Theorem X4_normalizer_keeps_the_rest (labelIds : list string) (id : string)
        (Hin : In id labelIds)
        (Happroved : isApprovedLabel id = true)
        (Hother : hasCategory Duration id = false) :
  In id (normalizeLabels labelIds)
  /\ (hasCategory Context id = true ->
      filter (hasCategory Context) (normalizeLabels labelIds)
      = filter (hasCategory Context)
               (JS.newSet (filter isApprovedLabel labelIds))).
Proof.
  assert (H0 : In id (JS.newSet (filter isApprovedLabel labelIds))).
  { apply newSet_In, filter_In. now split. }
  split.
  - rewrite normalizeLabels_steps.
    now apply contextStep_keeps, durationStep_keeps.
  - intro Hctx. rewrite normalizeLabels_steps.
    set (l0 := JS.newSet (filter isApprovedLabel labelIds)) in *.
    assert (Hd : filter (hasCategory Context) (durationStep l0)
                 = filter (hasCategory Context) l0).
    { unfold durationStep.
      destruct (filter (hasCategory Duration) l0) as [| f [| g r]].
      - rewrite filter_app. cbn. apply app_nil_r.
      - reflexivity.
      - rewrite filter_filter. apply filter_ext_in. intros a Ha.
        destruct (hasCategory Context a) eqn:Ea; [| apply andb_false_r].
        rewrite andb_true_r.
        assert (Hna : hasCategory Duration a = false).
        { unfold hasCategory in *.
          destruct (categoryOf (getLabelInfo a)) as [c |]; [| reflexivity].
          destruct c; try discriminate; reflexivity. }
        now rewrite Hna. }
    unfold contextStep. rewrite Hd.
    destruct (filter (hasCategory Context) l0) eqn:E; cbn [isEmpty];
      [| rewrite Hd; reflexivity].
    exfalso.
    exact (@filter_nil_not_In string (hasCategory Context) l0 id E Hctx H0).
Qed.

Lemma X4_normalizer_keeps_the_rest_witness :
  In "2170793536" (normalizeLabels ["2170793536"; "2170911483"; "nope"]).
Proof.
  apply (@X4_normalizer_keeps_the_rest ["2170793536"; "2170911483"; "nope"]
           "2170793536" (or_introl eq_refl) eq_refl eq_refl).
Defined.

(* ===================================================================== *)
(** * What the validators accept *)
(* ===================================================================== *)

Lemma errors_of_unapproved labels :
  length (errors (validateLabels labels))
  = length (filter (fun id => negb (isApprovedLabel id)) labels).
Proof.
  unfold validateLabels. cbn [errors].
  induction labels as [| a l IH]; [reflexivity |].
  cbn [flat_map filter]. destruct (isApprovedLabel a); cbn [negb app length];
    now rewrite IH.
Qed.

Lemma valid_iff_all_approved labels :
  valid (validateLabels labels) = forallb isApprovedLabel labels.
Proof.
  unfold validateLabels. cbn [valid].
  induction labels as [| a l IH]; [reflexivity |].
  cbn [flat_map forallb]. destruct (isApprovedLabel a); [exact IH | reflexivity].
Qed.

Lemma newSet_same_length l : length (JS.newSet l) = length l <-> NoDup l.
Proof.
  split.
  - intro H. apply (@NoDup_incl_NoDup _ (JS.newSet l) l).
    + apply newSet_NoDup.
    + rewrite H. apply le_n.
    + intros x Hx. now apply newSet_In.
  - intro H. now rewrite newSet_NoDup_id.
Qed.

(** X5.  [validateLabels] is valid exactly when every id passes
    [isApprovedLabel], reports one error per unapproved occurrence, and
    warns about duplicates exactly when some id occurs twice; duplicates
    alone never make the result invalid. *)
Theorem X5_validateLabels_verdict (labels : list string) :
  valid (validateLabels labels) = forallb isApprovedLabel labels
  /\ length (errors (validateLabels labels))
     = length (filter (fun id => negb (isApprovedLabel id)) labels)
  /\ (warnings (validateLabels labels) = None <-> NoDup labels)
  /\ (warnings (validateLabels labels) = None
      \/ warnings (validateLabels labels) = Some ["Duplicate labels detected"]).
Proof.
  split; [apply valid_iff_all_approved |].
  split; [apply errors_of_unapproved |].
  unfold validateLabels. cbn [warnings].
  destruct (Nat.eqb (length (JS.newSet labels)) (length labels)) eqn:E;
    cbn [isEmpty].
  - apply Nat.eqb_eq in E. split; [| now left].
    split; [intros _; now apply newSet_same_length | reflexivity].
  - apply Nat.eqb_neq in E. split; [| now right].
    split; [discriminate |]. intro H. apply newSet_same_length in H.
    contradiction.
Qed.

Lemma X5_validateLabels_verdict_witness :
  warnings (validateLabels ["2170911443"; "2170910796"]) = None
  /\ valid (validateLabels ["2170911443"; "2170911443"]) = true.
Proof.
  split.
  - destruct (X5_validateLabels_verdict ["2170911443"; "2170910796"])
      as (_ & _ & H & _).
    apply H. repeat constructor; simpl; intuition discriminate.
  - destruct (X5_validateLabels_verdict ["2170911443"; "2170911443"])
      as (H & _). rewrite H. reflexivity.
Defined.

(** X6.  [isValidLabelSet] accepts exactly the lists whose ids all pass
    [isApprovedLabel] and that hold exactly one Duration id; it asks neither
    for a Context id nor for distinct ids. *)
Theorem X6_isValidLabelSet_accepts (labels : list string) :
  isValidLabelSet labels
  = forallb isApprovedLabel labels
    && Nat.eqb (length (filter (hasCategory Duration) labels)) 1.
Proof.
  unfold isValidLabelSet. rewrite valid_iff_all_approved. f_equal.
  unfold validateDuration. fold durationIds.
  rewrite (filter_ext _ _ durationIds_hasCategory).
  destruct (length (filter (hasCategory Duration) labels)) as [| [| n]];
    reflexivity.
Qed.

(* ===================================================================== *)
(** * The key-value table [automation_state] *)
(* ===================================================================== *)

Lemma existsb_snoc {A} (p : A -> bool) l a :
  existsb p (l ++ [a]) = existsb p l || p a.
Proof. rewrite existsb_app. simpl. now rewrite orb_false_r. Qed.

Lemma existsb_eqb_In {A} (key : A -> string) l x :
  existsb (fun row => String.eqb (key row) x) l = false -> ~ In x (map key l).
Proof.
  intros H Hin. apply in_map_iff in Hin. destruct Hin as [row [Hk Hrow]].
  assert (Ht : existsb (fun row => String.eqb (key row) x) l = true).
  { apply existsb_exists. exists row. split; [assumption |].
    rewrite Hk. apply String.eqb_refl. }
  congruence.
Qed.

Lemma NoDup_map_snoc {A} (key : A -> string) l a :
  NoDup (map key l) -> ~ In (key a) (map key l) -> NoDup (map key (l ++ [a])).
Proof.
  intros Hnd Hnotin. rewrite map_app. cbn [map]. now apply NoDup_snoc.
Qed.

Lemma lookup_replace_other st key key' value :
  key <> key' ->
  lookupState (replaceState st key value) key' = lookupState st key'.
Proof.
  intro Hne. unfold lookupState, replaceState.
  induction st as [| [k x] st IH]; cbn [filter app find fst snd negb].
  - destruct (String.eqb key key') eqn:E; [| reflexivity].
    apply String.eqb_eq in E. contradiction.
  - destruct (String.eqb k key) eqn:Ek; cbn [negb app find fst snd].
    + apply String.eqb_eq in Ek. subst k.
      destruct (String.eqb key key') eqn:E; [| exact IH].
      apply String.eqb_eq in E. contradiction.
    + destruct (String.eqb k key'); [reflexivity | exact IH].
Qed.

Lemma running_after_last_run d time :
  isAutomationRunning (setAutomationState d "last_run" time)
  = isAutomationRunning d.
Proof.
  unfold isAutomationRunning, getAutomationState, setAutomationState.
  cbn [automation_state]. rewrite lookup_replace_other; [reflexivity |].
  discriminate.
Qed.

Lemma find_app_none {A} (p : A -> bool) l1 l2 :
  find p l1 = None -> find p (l1 ++ l2) = find p l2.
Proof.
  induction l1 as [| a l IH]; [reflexivity |].
  cbn [find app]. destruct (p a); [discriminate | exact IH].
Qed.

Lemma find_app_some {A} (p : A -> bool) l1 l2 a :
  find p l1 = Some a -> find p (l1 ++ l2) = Some a.
Proof.
  induction l1 as [| b l IH]; [discriminate |].
  cbn [find app]. destruct (p b); [trivial | exact IH].
Qed.

Lemma find_filtered_out st key :
  find (fun kv : string * string => String.eqb (fst kv) key)
       (filter (fun kv => negb (String.eqb (fst kv) key)) st) = None.
Proof.
  induction st as [| [k x] st IH]; [reflexivity |].
  cbn [filter fst]. destruct (String.eqb k key) eqn:E; cbn [negb find fst];
    [exact IH | rewrite E; exact IH].
Qed.

Lemma lookup_replace_same st key value :
  lookupState (replaceState st key value) key = Some value.
Proof.
  unfold lookupState, replaceState.
  rewrite find_app_none by apply find_filtered_out.
  cbn [find fst]. now rewrite String.eqb_refl.
Qed.

Lemma lookup_delete_same st key : lookupState (deleteState st key) key = None.
Proof. unfold lookupState, deleteState. now rewrite find_filtered_out. Qed.

Lemma lookup_delete_other st key key' :
  key <> key' -> lookupState (deleteState st key) key' = lookupState st key'.
Proof.
  intro Hne. unfold lookupState, deleteState.
  induction st as [| [k x] st IH]; [reflexivity |].
  cbn [filter fst find]. destruct (String.eqb k key) eqn:Ek; cbn [negb find fst].
  - apply String.eqb_eq in Ek. subst k.
    destruct (String.eqb key key') eqn:E; [| exact IH].
    apply String.eqb_eq in E. contradiction.
  - destruct (String.eqb k key'); [reflexivity | exact IH].
Qed.

Lemma keys_after_replace st key value :
  NoDup (map fst st) -> NoDup (map fst (replaceState st key value)).
Proof.
  intro H. unfold replaceState. rewrite map_app. cbn [map fst].
  apply NoDup_snoc.
  - induction st as [| [k x] st IH]; [constructor |].
    cbn [map fst] in H. inversion H as [| a l Hnotin Hnd E]. subst.
    cbn [filter fst]. destruct (String.eqb k key); cbn [negb map fst]; auto.
    constructor; auto. intro Hin. apply Hnotin.
    apply in_map_iff in Hin. destruct Hin as [kv [Hk Hkv]].
    apply filter_In in Hkv. apply in_map_iff. exists kv. tauto.
  - intro Hin. apply in_map_iff in Hin. destruct Hin as [kv [Hk Hkv]].
    apply filter_In in Hkv. destruct Hkv as [_ Hne].
    rewrite Hk, String.eqb_refl in Hne. discriminate.
Qed.

(** X8.  [automation_state] behaves as a map: a key reads back the value
    last written to it, writing one key leaves every other key and the three
    other tables as they were, a deleted key reads as absent, the table keeps
    one row per key, and [isAutomationRunning] returns what
    [setAutomationRunning] stored. *)
Theorem X8_automation_state_is_a_map
        (d : Database) (key key' value : string) (running : bool)
        (Hother : key <> key') (Hkeys : uniqueStateKeys d) :
  getAutomationState (setAutomationState d key value) key = Some value
  /\ getAutomationState (setAutomationState d key value) key'
     = getAutomationState d key'
  /\ getAutomationState (deleteAutomationState d key) key = None
  /\ getAutomationState (deleteAutomationState d key) key'
     = getAutomationState d key'
  /\ uniqueStateKeys (setAutomationState d key value)
  /\ isAutomationRunning (setAutomationRunning d running) = running
  /\ processed_emails (setAutomationState d key value) = processed_emails d
  /\ pending_reviews (setAutomationState d key value) = pending_reviews d
  /\ error_log (setAutomationState d key value) = error_log d.
Proof.
  unfold getAutomationState, setAutomationState, deleteAutomationState,
    uniqueStateKeys, isAutomationRunning, setAutomationRunning in *.
  cbn [automation_state processed_emails pending_reviews error_log].
  repeat split.
  - apply lookup_replace_same.
  - now apply lookup_replace_other.
  - apply lookup_delete_same.
  - now apply lookup_delete_other.
  - now apply keys_after_replace.
  - unfold getAutomationState, setAutomationState. cbn [automation_state].
    rewrite lookup_replace_same. destruct running; reflexivity.
Qed.

Lemma X8_automation_state_is_a_map_witness :
  getLastRunTime (setLastRunTime (initializeDatabase emptyDatabase) "t1")
  = Some "t1"
  /\ isAutomationRunning
       (setLastRunTime (setAutomationRunning
                          (initializeDatabase emptyDatabase) true) "t1")
     = true.
Proof.
  assert (H0 : uniqueStateKeys (initializeDatabase emptyDatabase)).
  { repeat constructor. intros []. }
  destruct (@X8_automation_state_is_a_map (initializeDatabase emptyDatabase)
              "last_run" "running" "t1" true
              ltac:(discriminate) H0) as (H1 & _).
  split; [exact H1 | reflexivity].
Defined.

(** X9.  [initializeDatabase] on an existing file keeps what is persisted:
    a stored [running] value survives a restart, a missing one becomes
    ['false'], every other key and every row of the other tables is kept,
    and initializing twice equals initializing once. *)
Theorem X9_initializeDatabase_keeps_state (file : Database) (key : string)
        (Hkey : key <> "running") :
  initializeDatabase (initializeDatabase file) = initializeDatabase file
  /\ getAutomationState (initializeDatabase file) "running"
     = match getAutomationState file "running" with
       | Some v => Some v
       | None => Some "false"
       end
  /\ getAutomationState (initializeDatabase file) key
     = getAutomationState file key
  /\ processed_emails (initializeDatabase file) = processed_emails file
  /\ pending_reviews (initializeDatabase file) = pending_reviews file
  /\ error_log (initializeDatabase file) = error_log file.
Proof.
  assert (Hrun : getAutomationState (initializeDatabase file) "running"
                 = match getAutomationState file "running" with
                   | Some v => Some v
                   | None => Some "false"
                   end).
  { unfold initializeDatabase, getAutomationState.
    destruct (lookupState (automation_state file) "running") as [v |] eqn:E.
    - now rewrite E.
    - cbn [automation_state]. unfold lookupState in *.
      destruct (find _ (automation_state file)) eqn:F; [discriminate |].
      rewrite (find_app_none _ _ _ F). reflexivity. }
  repeat split.
  - unfold initializeDatabase at 1. unfold getAutomationState in Hrun.
    rewrite Hrun. destruct (lookupState (automation_state file) "running");
      reflexivity.
  - exact Hrun.
  - unfold initializeDatabase, getAutomationState.
    destruct (lookupState (automation_state file) "running"); [reflexivity |].
    cbn [automation_state]. unfold lookupState.
    destruct (find (fun kv => String.eqb (fst kv) key) (automation_state file))
      as [kv |] eqn:F.
    + now rewrite (find_app_some _ _ _ F).
    + rewrite (find_app_none _ _ _ F). cbn [find fst].
      destruct (String.eqb "running" key) eqn:E; [| reflexivity].
      apply String.eqb_eq in E. congruence.
  - unfold initializeDatabase.
    destruct (lookupState (automation_state file) "running"); reflexivity.
  - unfold initializeDatabase.
    destruct (lookupState (automation_state file) "running"); reflexivity.
  - unfold initializeDatabase.
    destruct (lookupState (automation_state file) "running"); reflexivity.
Qed.

Lemma X9_initializeDatabase_keeps_state_witness :
  getAutomationState
    (initializeDatabase
       (setLastRunTime (setAutomationRunning emptyDatabase true) "t1"))
    "last_run" = Some "t1"
  /\ isAutomationRunning
       (initializeDatabase (setAutomationRunning emptyDatabase true)) = true.
Proof.
  destruct (@X9_initializeDatabase_keeps_state
              (setLastRunTime (setAutomationRunning emptyDatabase true) "t1")
              "last_run" ltac:(discriminate)) as (_ & _ & H & _).
  split; [rewrite H; reflexivity | reflexivity].
Defined.

(* ===================================================================== *)
(** * Rows and their ids *)
(* ===================================================================== *)

Lemma le_fold_max ids x : In x ids -> x <= fold_right Nat.max 0 ids.
Proof.
  induction ids as [| a l IH]; intros H; [destruct H |].
  cbn [fold_right]. destruct H as [-> | H]; [lia |].
  specialize (IH H). lia.
Qed.

(** The id that an insert takes is not in the table yet and lies above the
    sequence. *)
Lemma nextId_fresh seq ids : ~ In (nextId seq ids) ids.
Proof.
  intro H. apply le_fold_max in H. unfold nextId in H. lia.
Qed.

Lemma nextId_above seq ids : seq < nextId seq ids.
Proof. unfold nextId. lia. Qed.

Lemma NoDup_ids_snoc {A} (key : A -> nat) seq l a :
  NoDup (map key l) -> key a = nextId seq (map key l) ->
  NoDup (map key (l ++ [a])).
Proof.
  intros Hnd Hk. rewrite map_app. cbn [map].
  apply NoDup_app; [assumption | constructor; [intros [] | constructor] |].
  intros x Hx [<- | []]. rewrite Hk in Hx. now apply nextId_fresh in Hx.
Qed.

Lemma ids_addErrorLog d t m e : uniqueIds d -> uniqueIds (addErrorLog d t m e).
Proof.
  intros (H1 & H2 & H3). repeat split; auto.
  unfold addErrorLog. cbn [error_log].
  eapply NoDup_ids_snoc; [assumption | reflexivity].
Qed.

Lemma ids_addPendingReview d data :
  uniqueIds d -> uniqueIds (addPendingReview d data).
Proof.
  intros (H1 & H2 & H3). unfold addPendingReview.
  destruct (hasPendingRow d (prd_gmail_id data)); [now repeat split |].
  repeat split; auto. cbn [pending_reviews].
  eapply NoDup_ids_snoc; [assumption | reflexivity].
Qed.

Lemma ids_addProcessedEmail d data d' :
  addProcessedEmail d data = Some d' -> uniqueIds d -> uniqueIds d'.
Proof.
  unfold addProcessedEmail.
  destruct (isEmailProcessed d (ped_gmail_id data)); [discriminate |].
  intros H (H1 & H2 & H3). injection H as <-.
  repeat split; auto. cbn [processed_emails].
  eapply NoDup_ids_snoc; [assumption | reflexivity].
Qed.

Lemma ids_update d id status :
  uniqueIds d -> uniqueIds (updatePendingReviewStatus d id status).
Proof.
  intros (H1 & H2 & H3). repeat split; auto.
  unfold updatePendingReviewStatus. cbn [pending_reviews].
  rewrite map_map.
  rewrite (map_ext _ pr_id); [assumption |].
  intro row. destruct (Nat.eqb (pr_id row) id); reflexivity.
Qed.

Lemma hasPendingRow_In d row :
  In row (pending_reviews d) -> hasPendingRow d (pr_gmail_id row) = true.
Proof.
  intro H. unfold hasPendingRow. apply existsb_exists. exists row.
  split; [assumption | apply String.eqb_refl].
Qed.

Lemma awaits_has_row d x :
  awaitsReview d x = true -> hasPendingRow d x = true.
Proof.
  unfold awaitsReview, hasPendingRow. intro H.
  apply existsb_exists in H. destruct H as [row [Hin Hrow]].
  apply andb_true_iff in Hrow. destruct Hrow as [Hrow _].
  apply existsb_exists. now exists row.
Qed.

Lemma getPendingReviewById_In d id row :
  getPendingReviewById d id = Some row ->
  In row (pending_reviews d) /\ pr_id row = id.
Proof.
  unfold getPendingReviewById. intro H. apply find_some in H.
  destruct H as [Hin Heq]. apply Nat.eqb_eq in Heq. now split.
Qed.

Lemma update_keeps_keys d id status :
  map pr_gmail_id (pending_reviews (updatePendingReviewStatus d id status))
  = map pr_gmail_id (pending_reviews d).
Proof.
  unfold updatePendingReviewStatus. cbn [pending_reviews].
  rewrite map_map. apply map_ext. intro row.
  destruct (Nat.eqb (pr_id row) id); reflexivity.
Qed.

(** Setting a status other than ['pending'] makes no item pending. *)
Lemma update_awaits d id status x :
  status <> pending ->
  awaitsReview (updatePendingReviewStatus d id status) x = true ->
  awaitsReview d x = true.
Proof.
  intros Hs H. unfold awaitsReview, updatePendingReviewStatus in *.
  cbn [pending_reviews] in H. apply existsb_exists in H.
  destruct H as [row' [Hin Hrow]]. apply in_map_iff in Hin.
  destruct Hin as [row [<- Hin]]. apply existsb_exists. exists row.
  split; [assumption |].
  destruct (Nat.eqb (pr_id row) id); [| exact Hrow].
  cbn [setStatus pr_gmail_id pr_status] in Hrow.
  destruct status; [congruence | |]; cbn in Hrow;
    rewrite andb_false_r in Hrow; discriminate.
Qed.

Lemma unique_key_row {A} (key : A -> string) l a b :
  NoDup (map key l) -> In a l -> In b l -> key a = key b -> a = b.
Proof.
  induction l as [| c l IH]; intros Hnd Ha Hb Hk; [destruct Ha |].
  cbn [map] in Hnd. inversion Hnd as [| k ks Hnotin Hnd' E]. subst.
  destruct Ha as [-> | Ha], Hb as [-> | Hb]; auto.
  - exfalso. apply Hnotin. rewrite Hk. now apply in_map.
  - exfalso. apply Hnotin. rewrite <- Hk. now apply in_map.
Qed.

(** Once the row found by id is set to ['completed'], its email is not
    pending any more: [gmail_id] is unique in [pending_reviews]. *)
Lemma completed_not_awaiting d id row :
  NoDup (map pr_gmail_id (pending_reviews d)) ->
  getPendingReviewById d id = Some row ->
  awaitsReview (updatePendingReviewStatus d id completed) (pr_gmail_id row)
  = false.
Proof.
  intros U Hfind. apply getPendingReviewById_In in Hfind.
  destruct Hfind as [Hin Hid].
  destruct (awaitsReview _ _) eqn:E; [| reflexivity]. exfalso.
  unfold awaitsReview, updatePendingReviewStatus in E.
  cbn [pending_reviews] in E. apply existsb_exists in E.
  destruct E as [row' [Hin' Hrow']]. apply in_map_iff in Hin'.
  destruct Hin' as [r [<- Hr]].
  apply andb_true_iff in Hrow'. destruct Hrow' as [Hk Hst].
  assert (Hkey : pr_gmail_id r = pr_gmail_id row).
  { destruct (Nat.eqb (pr_id r) id); apply String.eqb_eq in Hk; exact Hk. }
  assert (r = row) by (eapply unique_key_row; eauto). subst r.
  rewrite Hid, Nat.eqb_refl in Hst. discriminate.
Qed.

Lemma inserted_is_processed d data d' :
  addProcessedEmail d data = Some d' ->
  isEmailProcessed d' (ped_gmail_id data) = true
  /\ pending_reviews d' = pending_reviews d.
Proof.
  unfold addProcessedEmail.
  destruct (isEmailProcessed d (ped_gmail_id data)); [discriminate |].
  intro H. injection H as <-. split; [| reflexivity].
  unfold isEmailProcessed. cbn [processed_emails]. rewrite existsb_snoc.
  cbn [pe_gmail_id]. rewrite String.eqb_refl. apply orb_true_r.
Qed.

(** X10.  [addProcessedEmail] and [isEmailProcessed] round-trip: a successful
    insert makes exactly its [gmail_id] processed, adds one row and leaves the
    other tables alone; and on a [gmail_id] that is processed already the
    insert fails on the UNIQUE constraint, before and after. *)
Theorem X10_processed_insert_then_lookup
        (d d' : Database) (data data' : ProcessedEmailData) (other : string)
        (Hinsert : addProcessedEmail d data = Some d')
        (Hsame : ped_gmail_id data' = ped_gmail_id data)
        (Hother : other <> ped_gmail_id data) :
  isEmailProcessed d (ped_gmail_id data) = false
  /\ isEmailProcessed d' (ped_gmail_id data) = true
  /\ isEmailProcessed d' other = isEmailProcessed d other
  /\ addProcessedEmail d' data' = None
  /\ length (processed_emails d') = S (length (processed_emails d))
  /\ pending_reviews d' = pending_reviews d
  /\ error_log d' = error_log d
  /\ automation_state d' = automation_state d.
Proof.
  destruct (inserted_is_processed _ _ Hinsert) as [Hnow Hpending].
  unfold addProcessedEmail in Hinsert.
  destruct (isEmailProcessed d (ped_gmail_id data)) eqn:Hp; [discriminate |].
  injection Hinsert as <-.
  repeat split.
  - exact Hnow.
  - unfold isEmailProcessed. cbn [processed_emails]. rewrite existsb_snoc.
    cbn [pe_gmail_id].
    destruct (String.eqb (ped_gmail_id data) other) eqn:E;
      [apply String.eqb_eq in E; congruence | apply orb_false_r].
  - unfold addProcessedEmail at 1. rewrite Hsame, Hnow. reflexivity.
  - cbn [processed_emails]. rewrite length_app. cbn [length]. lia.
Qed.

Lemma X10_processed_insert_then_lookup_witness :
  exists d',
    addProcessedEmail emptyDatabase
      (mkProcessedEmailData "a1" None None None None None None None) = Some d'
    /\ isEmailProcessed d' "a1" = true
    /\ isEmailProcessed d' "a2" = false.
Proof.
  eexists. split; [reflexivity |].
  destruct (@X10_processed_insert_then_lookup emptyDatabase _
              (mkProcessedEmailData "a1" None None None None None None None)
              (mkProcessedEmailData "a1" None None None None None None None)
              "a2" eq_refl eq_refl ltac:(discriminate)) as (_ & H1 & H2 & _).
  split; [exact H1 | rewrite H2; reflexivity].
Defined.

Lemma find_split_unique l id row :
  NoDup (map pr_id l) ->
  find (fun r => Nat.eqb (pr_id r) id) l = Some row ->
  exists l1 l2,
    l = (l1 ++ row :: l2)%list
    /\ (forall r, In r l1 \/ In r l2 -> Nat.eqb (pr_id r) id = false).
Proof.
  induction l as [| a l IH]; intros Hnd Hfind; [discriminate |].
  cbn [map] in Hnd. inversion Hnd as [| k ks Hnotin Hnd' E]. subst.
  cbn [find] in Hfind. destruct (Nat.eqb (pr_id a) id) eqn:Ea.
  - injection Hfind as ->. exists [], l. split; [reflexivity |].
    intros r [[] | Hr]. apply Nat.eqb_eq in Ea.
    destruct (Nat.eqb (pr_id r) id) eqn:Er; [| reflexivity].
    apply Nat.eqb_eq in Er. exfalso. apply Hnotin. rewrite Ea, <- Er.
    now apply in_map.
  - destruct (IH Hnd' Hfind) as (l1 & l2 & -> & Hrest).
    exists (a :: l1), l2. split; [reflexivity |].
    intros r [[<- | Hr] | Hr]; auto.
Qed.

Lemma map_update_outside l id status :
  (forall r, In r l -> Nat.eqb (pr_id r) id = false) ->
  map (fun row => if Nat.eqb (pr_id row) id then setStatus status row else row) l
  = l.
Proof.
  intro H. induction l as [| a l IH]; [reflexivity |].
  cbn [map]. rewrite (H a (or_introl eq_refl)). f_equal.
  apply IH. intros r Hr. apply H. now right.
Qed.

(** X11.  In a database whose review ids are distinct ([id] is the primary
    key), [updatePendingReviewStatus] on the id of an existing review
    rewrites the status of that one row and nothing else: the rows before
    and after it are kept, the review reads back with the new status, and
    the count of pending reviews goes down by one when the row was pending
    and stays as it is otherwise. *)
Theorem X11_status_update_touches_one_row
        (d : Database) (id : nat) (row : PendingReview) (status : ReviewStatus)
        (Hids : NoDup (map pr_id (pending_reviews d)))
        (Hfound : getPendingReviewById d id = Some row)
        (Hstatus : status <> pending) :
  let d' := updatePendingReviewStatus d id status in
  (exists l1 l2,
      pending_reviews d = (l1 ++ row :: l2)%list
      /\ pending_reviews d' = (l1 ++ setStatus status row :: l2)%list)
  /\ getPendingReviewById d' id = Some (setStatus status row)
  /\ pendingReviewCount d'
     = pendingReviewCount d
       - (if ReviewStatus_eqb (pr_status row) pending then 1 else 0)
  /\ processed_emails d' = processed_emails d
  /\ error_log d' = error_log d.
Proof.
  cbv zeta.
  pose proof (getPendingReviewById_In _ _ Hfound) as [_ Hid].
  unfold getPendingReviewById in *.
  destruct (find_split_unique _ _ Hids Hfound) as (l1 & l2 & Hl & Hrest).
  assert (Hnew : pending_reviews (updatePendingReviewStatus d id status)
                 = (l1 ++ setStatus status row :: l2)%list).
  { unfold updatePendingReviewStatus. cbn [pending_reviews].
    rewrite Hl, map_app. cbn [map]. rewrite Hid, Nat.eqb_refl.
    rewrite !map_update_outside; [reflexivity | |]; intros r Hr; apply Hrest;
      auto. }
  repeat split.
  - exists l1, l2. now split.
  - rewrite Hnew.
    rewrite find_app_none.
    + cbn [find setStatus pr_id]. now rewrite Hid, Nat.eqb_refl.
    + clear - Hrest. induction l1 as [| a l IH]; [reflexivity |].
      cbn [find]. rewrite (Hrest a) by (left; now left).
      apply IH. intros r [Hr | Hr]; apply Hrest; [left; now right | now right].
  - unfold pendingReviewCount. rewrite Hnew, Hl, !filter_app, !length_app.
    cbn [filter setStatus pr_status].
    destruct status; [congruence | |]; cbn [ReviewStatus_eqb];
      destruct (ReviewStatus_eqb (pr_status row) pending); cbn [length]; lia.
Qed.

Lemma X11_status_update_touches_one_row_witness :
  pendingReviewCount Scenario.queued = 1
  /\ pendingReviewCount (updatePendingReviewStatus Scenario.queued 1 skipped) = 0.
Proof.
  assert (Hids : NoDup (map pr_id (pending_reviews Scenario.queued))).
  { repeat constructor. intros []. }
  destruct (@X11_status_update_touches_one_row Scenario.queued 1 _ skipped
              Hids eq_refl ltac:(discriminate)) as (_ & _ & H & _).
  split; [reflexivity | rewrite H; reflexivity].
Defined.

(** A conflicting [addPendingReview] inserts nothing. *)
Lemma addPendingReview_existing d data :
  hasPendingRow d (prd_gmail_id data) = true ->
  pending_reviews (addPendingReview d data) = pending_reviews d
  /\ processed_emails (addPendingReview d data) = processed_emails d
  /\ error_log (addPendingReview d data) = error_log d
  /\ automation_state (addPendingReview d data) = automation_state d.
Proof.
  intro H. unfold addPendingReview. rewrite H. repeat split.
Qed.

Lemma addPendingReview_has d data :
  hasPendingRow (addPendingReview d data) (prd_gmail_id data) = true.
Proof.
  unfold addPendingReview.
  destruct (hasPendingRow d (prd_gmail_id data)) eqn:E.
  - unfold hasPendingRow in *. exact E.
  - unfold hasPendingRow. cbn [pending_reviews]. rewrite existsb_snoc.
    cbn [pr_gmail_id]. rewrite String.eqb_refl. apply orb_true_r.
Qed.

Lemma addPendingReview_keeps_rows d data other :
  hasPendingRow d other = true ->
  hasPendingRow (addPendingReview d data) other = true.
Proof.
  intro H. unfold addPendingReview.
  destruct (hasPendingRow d (prd_gmail_id data)); [exact H |].
  unfold hasPendingRow in *. cbn [pending_reviews].
  rewrite existsb_snoc, H. reflexivity.
Qed.

(** X12.  [addPendingReview] for a [gmail_id] without a row inserts one row
    that reads back by its id with the submitted fields and the status
    ['pending']; the item awaits review afterwards and the count of pending
    reviews is one higher.  The id is the next of the sequence; a repeated
    call inserts nothing and still takes an id, so that the review inserted
    after it gets the id after the next. *)
Theorem X12_pending_insert_then_lookup
        (d : Database) (data other : PendingReviewData)
        (Habsent : hasPendingRow d (prd_gmail_id data) = false)
        (Hother : prd_gmail_id other <> prd_gmail_id data)
        (Hnew : hasPendingRow d (prd_gmail_id other) = false) :
  let d' := addPendingReview d data in
  let id := nextId (seq_pending_reviews (sqlite_sequence d))
                   (map pr_id (pending_reviews d)) in
  getPendingReviewById d' id
  = Some (mkPendingReview id (prd_gmail_id data) (prd_thread_id data)
            (prd_sender data) (prd_subject data) (prd_body data)
            (prd_gmail_link data) pending)
  /\ awaitsReview d' (prd_gmail_id data) = true
  /\ pendingReviewCount d' = S (pendingReviewCount d)
  /\ processed_emails d' = processed_emails d
  /\ pending_reviews (addPendingReview d' data) = pending_reviews d'
  /\ pending_reviews (addPendingReview d' other)
     = (pending_reviews d'
        ++ [mkPendingReview (id + 1) (prd_gmail_id other) (prd_thread_id other)
              (prd_sender other) (prd_subject other) (prd_body other)
              (prd_gmail_link other) pending])%list
  /\ pending_reviews (addPendingReview (addPendingReview d' data) other)
     = (pending_reviews d'
        ++ [mkPendingReview (id + 2) (prd_gmail_id other) (prd_thread_id other)
              (prd_sender other) (prd_subject other) (prd_body other)
              (prd_gmail_link other) pending])%list.
Proof.
  cbv zeta.
  set (id := nextId (seq_pending_reviews (sqlite_sequence d))
                    (map pr_id (pending_reviews d))).
  assert (Hd' : addPendingReview d data
                = mkDatabase (automation_state d) (processed_emails d)
                    (error_log d)
                    (pending_reviews d
                     ++ [mkPendingReview id (prd_gmail_id data)
                           (prd_thread_id data) (prd_sender data)
                           (prd_subject data) (prd_body data)
                           (prd_gmail_link data) pending])%list
                    (mkSequences (seq_processed_emails (sqlite_sequence d))
                                 (seq_error_log (sqlite_sequence d)) id)).
  { unfold addPendingReview. rewrite Habsent. reflexivity. }
  assert (Hmax : forall seq,
             Nat.max seq (fold_right Nat.max 0
                            (map pr_id (pending_reviews d) ++ [id])) = Nat.max seq id).
  { intro seq. assert (Hle : fold_right Nat.max 0 (map pr_id (pending_reviews d)) < id)
      by (unfold id, nextId; lia).
    revert Hle. generalize (map pr_id (pending_reviews d)) as ids.
    induction ids as [| a ids IH]; cbn [app fold_right]; intros Hle; [lia |].
    assert (fold_right Nat.max 0 ids < id) by lia.
    specialize (IH H). lia. }
  assert (Hhas : hasPendingRow (addPendingReview d data) (prd_gmail_id data) = true)
    by apply addPendingReview_has.
  assert (Hnot : hasPendingRow (addPendingReview d data) (prd_gmail_id other) = false).
  { rewrite Hd'. unfold hasPendingRow in *. cbn [pending_reviews].
    rewrite existsb_snoc, Hnew. cbn [pr_gmail_id orb].
    apply String.eqb_neq. congruence. }
  repeat split.
  - rewrite Hd'. unfold getPendingReviewById. cbn [pending_reviews].
    rewrite find_app_none.
    + cbn [find pr_id]. now rewrite Nat.eqb_refl.
    + destruct (find _ (pending_reviews d)) as [r |] eqn:F; [| reflexivity].
      apply find_some in F. destruct F as [Hin Heq]. apply Nat.eqb_eq in Heq.
      exfalso.
      apply (@nextId_fresh (seq_pending_reviews (sqlite_sequence d))
                           (map pr_id (pending_reviews d))).
      fold id. rewrite <- Heq. now apply in_map.
  - rewrite Hd'. unfold awaitsReview. cbn [pending_reviews]. rewrite existsb_snoc.
    cbn [pr_gmail_id pr_status ReviewStatus_eqb]. rewrite String.eqb_refl.
    apply orb_true_r.
  - rewrite Hd'. unfold pendingReviewCount. cbn [pending_reviews].
    rewrite filter_app, length_app. cbn. lia.
  - rewrite Hd'. reflexivity.
  - apply addPendingReview_existing. exact Hhas.
  - unfold addPendingReview at 1. rewrite Hnot. cbn [pending_reviews].
    f_equal. f_equal. f_equal.
    rewrite Hd'. cbn [sqlite_sequence seq_pending_reviews pending_reviews].
    unfold nextId at 1. rewrite map_app. cbn [map pr_id]. rewrite Hmax. lia.
  - unfold addPendingReview at 1.
    assert (Hnot2 : hasPendingRow (addPendingReview (addPendingReview d data) data)
                                  (prd_gmail_id other) = false).
    { unfold addPendingReview at 1. rewrite Hhas.
      unfold hasPendingRow. cbn [pending_reviews]. exact Hnot. }
    rewrite Hnot2. cbn [pending_reviews].
    destruct (addPendingReview_existing _ _ Hhas) as (Hrows & _).
    rewrite Hrows. f_equal. f_equal. f_equal.
    unfold addPendingReview at 1. rewrite Hhas.
    cbn [sqlite_sequence seq_pending_reviews pending_reviews].
    rewrite Hd'. cbn [sqlite_sequence seq_pending_reviews pending_reviews].
    unfold nextId. rewrite map_app. cbn [map pr_id]. rewrite !Hmax.
    fold (nextId (seq_pending_reviews (sqlite_sequence d))
                 (map pr_id (pending_reviews d))). fold id. lia.
Qed.

Lemma X12_pending_insert_then_lookup_witness :
  awaitsReview Scenario.queued "a1" = true
  /\ map pr_id (pending_reviews
                  (addPendingReview
                     (addPendingReview Scenario.queued (pendingDataOf Scenario.a1))
                     (pendingDataOf Scenario.a2))) = [1; 3].
Proof.
  destruct (@X12_pending_insert_then_lookup (initializeDatabase emptyDatabase)
              (pendingDataOf Scenario.a1) (pendingDataOf Scenario.a2)
              eq_refl ltac:(discriminate) eq_refl) as (_ & H & _ & _ & _ & _ & H3).
  split; [exact H |]. unfold Scenario.queued. rewrite H3. reflexivity.
Defined.

(* ===================================================================== *)
(** * Programs run on their own *)
(* ===================================================================== *)

Lemma exec_bind {A B} (m : Prog A) (k : A -> Prog B) : forall w,
  exec (bind m k) w
  = match exec m w with
    | (Returned a, w') => exec (k a) w'
    | (Thrown e, w') => (Thrown e, w')
    end.
Proof.
  induction m as [a | e | X statement k' IH | c k' IH]; intro w;
    cbn [bind exec]; auto.
Qed.

Lemma exec_tryCatch {A} (m : Prog A) (handler : Exn -> Prog A) : forall w,
  exec (tryCatch m handler) w
  = match exec m w with
    | (Returned a, w') => (Returned a, w')
    | (Thrown e, w') => exec (handler e) w'
    end.
Proof.
  induction m as [a | e | X statement k' IH | c k' IH]; intro w;
    cbn [tryCatch exec]; auto.
Qed.

Ltac run_step :=
  unfold readDb, writeDb, writeDbOrThrow, ret, throw, call,
    createTask, labelEmail, unstarEmail, when, validateEnvironment;
  cbn [exec bind tryCatch db calls fst snd].

Ltac run_steps := repeat (progress run_step).

(* ===================================================================== *)
(** * What the extraction gateway returns *)
(* ===================================================================== *)

Lemma extract_world svc b s f w :
  exec (extractTaskFromEmail svc b s f) w
  = (fst (exec (extractTaskFromEmail svc b s f) (mkWorld emptyDatabase [])),
     mkWorld (db w) (CallExtract b s f :: calls w)).
Proof.
  unfold extractTaskFromEmail. run_steps.
  destruct (apiKeyPresent (claude svc b s f)); run_steps; [reflexivity |].
  destruct (authenticated (claude svc b s f)); cbn [negb]; run_steps;
    [| reflexivity].
  destruct (run (claude svc b s f)) as [| m | m | parsed]; run_steps;
    try reflexivity.
  destruct (truthy (pa_task parsed)); [| reflexivity].
  destruct (pa_labels parsed); reflexivity.
Qed.

Lemma extract_email svc email w :
  exec (extractTaskFromEmail svc (email_body email) (email_subject email)
                             (email_sender email)) w
  = (extraction svc email,
     mkWorld (db w) (CallExtract (email_body email) (email_subject email)
                                 (email_sender email) :: calls w)).
Proof. apply extract_world. Qed.

Lemma extraction_cases svc email :
  (apiKeyPresent (environmentOf svc email) = true
   /\ extraction svc email = Thrown (JsError ENV_MESSAGE))
  \/ (apiKeyPresent (environmentOf svc email) = false
      /\ exists r, extraction svc email = Returned r
                   /\ ((cr_success r = false /\ cr_data r = None
                        /\ cr_fallbackRequired r = true
                        /\ exists message, cr_error r = Some message)
                       \/ (cr_success r = true /\ cr_error r = None
                           /\ cr_fallbackRequired r = false
                           /\ exists data, cr_data r = Some data))).
Proof.
  unfold extraction, environmentOf, extractTaskFromEmail, fallback. run_steps.
  destruct (apiKeyPresent _); run_steps;
    [left; now split | right; split; [reflexivity |]].
  destruct (authenticated _); cbn [negb fst]; run_steps.
  - destruct (run _) as [| m | m | parsed]; run_steps;
      try (eexists; split; [reflexivity |]; left; repeat split; eexists;
           reflexivity).
    destruct (truthy (pa_task parsed)); [destruct (pa_labels parsed) |];
      run_steps; eexists; (split; [reflexivity |]);
      try (left; repeat split; eexists; reflexivity).
    right. repeat split. eexists. reflexivity.
  - eexists. split; [reflexivity |]. left. repeat split. eexists. reflexivity.
Qed.

(** A successful extraction never asks for a fallback. *)
Lemma extraction_flags svc email r :
  extraction svc email = Returned r ->
  cr_fallbackRequired r = negb (cr_success r).
Proof.
  intro H.
  destruct (extraction_cases svc email) as [[_ He] | [_ (r' & Hr & Hcase)]];
    [congruence |].
  rewrite Hr in H. injection H as <-.
  destruct Hcase as [(Hs & _ & Hf & _) | (Hs & _ & Hf & _)];
    rewrite Hs, Hf; reflexivity.
Qed.

(** X13.  [extractTaskFromEmail] throws in one case only, the prohibited
    credential; every other failure (CLI not logged in, timeout, failed
    subprocess, unparseable answer, missing fields) is returned as a result
    with [success = false], [fallbackRequired = true], an error message and
    no data, and a success carries data and no error. *)
Theorem X13_only_the_credential_throws (svc : Services) (email : GmailEmail) :
  match extraction svc email with
  | Thrown e =>
      e = JsError ENV_MESSAGE
      /\ apiKeyPresent (environmentOf svc email) = true
  | Returned r =>
      apiKeyPresent (environmentOf svc email) = false
      /\ cr_fallbackRequired r = negb (cr_success r)
      /\ (if cr_success r
          then cr_error r = None /\ cr_data r <> None
          else cr_error r <> None /\ cr_data r = None)
  end.
Proof.
  destruct (extraction_cases svc email) as [[Hk He] | [Hk (r & Hr & Hcase)]].
  - rewrite He. now split.
  - rewrite Hr. split; [exact Hk |].
    destruct Hcase as [(Hs & Hd & Hf & m & Hm) | (Hs & Hm & Hf & data & Hd)];
      rewrite Hs, Hf; cbn [negb]; (split; [reflexivity |]); split; congruence.
Qed.

Lemma answered_extraction svc email parsed labels :
  environmentOf svc email = mkCliEnv false true (CliAnswered parsed) ->
  truthy (pa_task parsed) = true ->
  pa_labels parsed = Some labels ->
  extraction svc email
  = Returned (mkCliResult true
                (Some (mkTaskExtraction (JS.orEmpty (pa_task parsed))
                         (if isEmpty (filter isApprovedLabel labels)
                          then DEFAULT_PAIR
                          else filter isApprovedLabel labels)
                         (pa_notes parsed) (pa_dueString parsed)))
                None false).
Proof.
  intros Henv Ht Hl.
  unfold extraction, extractTaskFromEmail. unfold environmentOf in Henv.
  run_steps. rewrite Henv. cbn [apiKeyPresent authenticated run negb].
  run_steps. rewrite Ht, Hl. reflexivity.
Qed.



(** X15.  When the CLI answers with a task and a label array that holds no
    approved id (an empty array included), the extraction succeeds with the
    default pair, and the task is created with exactly the labels 15 min and
    Computer; title, notes and due date are passed through. *)
Theorem X15_no_approved_label_gives_defaults
        (svc : Services) (email : GmailEmail) (parsed : ParsedAnswer)
        (labels : list string)
        (Henv : environmentOf svc email
                = mkCliEnv false true (CliAnswered parsed))
        (Htask : truthy (pa_task parsed) = true)
        (Hlabels : pa_labels parsed = Some labels)
        (Hnone : forall id, In id labels -> isApprovedLabel id = false) :
  let data := mkTaskExtraction (JS.orEmpty (pa_task parsed)) DEFAULT_PAIR
                               (pa_notes parsed) (pa_dueString parsed) in
  extracts svc email data
  /\ ct_labels (taskInputOf email data) = Some DEFAULT_PAIR
  /\ ct_content (taskInputOf email data) = JS.orEmpty (pa_task parsed)
  /\ ct_dueString (taskInputOf email data) = pa_dueString parsed.
Proof.
  cbv zeta.
  assert (Hf : filter isApprovedLabel labels = []).
  { clear - Hnone. induction labels as [| a l IH]; [reflexivity |].
    cbn [filter]. rewrite (Hnone a (or_introl eq_refl)).
    apply IH. intros id Hid. apply Hnone. now right. }
  repeat split.
  eexists. split; [apply (answered_extraction svc email Henv Htask Hlabels) |].
  rewrite Hf. split; reflexivity.
Qed.

(* ===================================================================== *)
(** * [processEmail], path by path *)
(* ===================================================================== *)


(** The extraction falls back: the review is queued. *)
Lemma processEmail_queues svc email w :
  fallsBack svc email ->
  exec (processEmail svc email) w
  = (Returned tt,
     mkWorld (addPendingReview (db w) (pendingDataOf email))
             (extractCall email :: calls w)).
Proof.
  intros (r & Hr & Hs). unfold processEmail.
  rewrite exec_bind, extract_email, Hr, Hs. reflexivity.
Qed.

(** The extraction succeeds: the commit, step by step. *)
Lemma processEmail_commits svc email data w :
  extracts svc email data ->
  exec (processEmail svc email) w
  = let w1 := mkWorld (db w)
                (CallCreateTask (taskInputOf email data)
                 :: extractCall email :: calls w) in
    match todoistApi svc (taskInputOf email data) with
    | inl e => (Thrown e, w1)
    | inr taskId =>
        let w2 := mkWorld (db w)
                    (CallLabelEmail (email_id email) "Processed" :: calls w1) in
        match labelFails svc (email_id email) "Processed" with
        | Some e => (Thrown e, w2)
        | None =>
            let w3 := mkWorld (db w)
                        (CallUnstarEmail (email_id email) :: calls w2) in
            match unstarFails svc (email_id email) with
            | Some e => (Thrown e, w3)
            | None =>
                match addProcessedEmail (db w)
                        (processedDataOf email data taskId (Some "auto")) with
                | Some d' => (Returned tt, mkWorld d' (calls w3))
                | None => (Thrown (JsError UNIQUE_PROCESSED), w3)
                end
            end
        end
    end.
Proof.
  intros (r & Hr & Hs & Hd). unfold processEmail.
  rewrite exec_bind, extract_email, Hr, Hs, Hd. cbn [negb].
  fold (gmailLinkOf email). fold (taskInputOf email data).
  cbv zeta. run_steps.
  destruct (todoistApi svc (taskInputOf email data)) as [e | taskId];
    run_steps; [reflexivity |].
  destruct (labelFails svc (email_id email) "Processed"); run_steps;
    [reflexivity |].
  destruct (unstarFails svc (email_id email)); run_steps; [reflexivity |].
  fold (processedDataOf email data taskId (Some "auto")).
  destruct (addProcessedEmail (db w) _); reflexivity.
Qed.

(* ===================================================================== *)
(** * The loop of a cycle *)
(* ===================================================================== *)

Lemma isPendingReview_throws svc gmailId w :
  exec (isPendingReview svc gmailId) w
  = (Thrown (JsError (pendingQueryError svc)), w).
Proof. reflexivity. Qed.

(** One iteration: a processed email is skipped; for any other email the
    iteration ends at [isPendingReview]. *)
Lemma processOne_exec svc email result w :
  exec (processOne svc email result) w
  = if isEmailProcessed (db w) (email_id email)
    then (Returned result, w)
    else (Thrown (JsError (pendingQueryError svc)), w).
Proof.
  unfold processOne. run_steps.
  destruct (isEmailProcessed (db w) (email_id email)); [now destruct w |].
  unfold isPendingReview. run_steps. now destruct w.
Qed.

Lemma processAll_exec svc emails : forall result w,
  exec (processAll svc emails result) w
  = if allProcessed (db w) emails
    then (Returned result, w)
    else (Thrown (JsError (pendingQueryError svc)), w).
Proof.
  induction emails as [| email rest IH]; intros result w; [reflexivity |].
  cbn [processAll allProcessed forallb]. rewrite exec_bind, processOne_exec.
  destruct (isEmailProcessed (db w) (email_id email)); cbn [andb];
    [apply IH | reflexivity].
Qed.

Lemma workerOne_exec svc email w :
  exec (workerOne svc email) w
  = if isEmailProcessed (db w) (email_id email)
    then (Returned tt, w)
    else (Thrown (JsError (pendingQueryError svc)), w).
Proof.
  unfold workerOne. run_steps.
  destruct (isEmailProcessed (db w) (email_id email)); [now destruct w |].
  unfold isPendingReview. run_steps. now destruct w.
Qed.

Lemma workerAll_exec svc emails : forall w,
  exec (workerAll svc emails) w
  = if allProcessed (db w) emails
    then (Returned tt, w)
    else (Thrown (JsError (pendingQueryError svc)), w).
Proof.
  induction emails as [| email rest IH]; intros w; [reflexivity |].
  cbn [workerAll allProcessed forallb]. rewrite exec_bind, workerOne_exec.
  destruct (isEmailProcessed (db w) (email_id email)); cbn [andb];
    [apply IH | reflexivity].
Qed.

Lemma processed_after_state d key value id :
  isEmailProcessed (setAutomationState d key value) id = isEmailProcessed d id.
Proof. reflexivity. Qed.

Lemma allProcessed_after_state d key value emails :
  allProcessed (setAutomationState d key value) emails = allProcessed d emails.
Proof. reflexivity. Qed.

(** [ProcessorService.processStarredEmails], run on its own. *)
Lemma processStarredEmails_exec svc w :
  exec (processStarredEmails svc) w
  = (cycleOutcome svc (db w),
     mkWorld (cycleDb svc (db w)) (cycleCalls svc (calls w))).
Proof.
  unfold processStarredEmails, cycleOutcome, cycleDb, cycleCalls, getStarredEmails.
  run_steps.
  destruct (apiKeyAtStart svc); run_steps; [reflexivity |].
  destruct (starred svc) as [[m | url] | emails]; run_steps; try reflexivity.
  rewrite processAll_exec. cbn [db].
  unfold setLastRunTime. rewrite allProcessed_after_state.
  destruct (allProcessed (db w) emails); reflexivity.
Qed.

(** The worker's [processStarredEmails], run on its own: it returns. *)
Lemma workerProcessStarredEmails_exec svc w :
  exec (workerProcessStarredEmails svc) w
  = (Returned tt,
     mkWorld (workerCycleDb svc (db w)) (workerCalls svc (db w) (calls w))).
Proof.
  unfold workerProcessStarredEmails, workerCycleDb, workerCalls, getStarredEmails.
  rewrite running_after_last_run. unfold isAutomationRunning.
  run_steps.
  replace (getAutomationState (setAutomationState (db w) "last_run" (now svc))
                              "running")
    with (getAutomationState (db w) "running")
    by (unfold getAutomationState, setAutomationState; cbn [automation_state];
        rewrite lookup_replace_other; [reflexivity | discriminate]).
  destruct (getAutomationState (db w) "running") as [v |]; cbn [negb];
    [| reflexivity].
  destruct (String.eqb v "true"); cbn [negb]; [| reflexivity].
  destruct (constructorError svc); run_steps; [reflexivity |].
  destruct (starred svc) as [[m | url] | emails]; run_steps; try reflexivity.
  rewrite exec_tryCatch, workerAll_exec. cbn [db].
  rewrite allProcessed_after_state.
  destruct (allProcessed (db w) emails); reflexivity.
Qed.

(* ===================================================================== *)
(** * The prohibited credential *)
(* ===================================================================== *)






(* ===================================================================== *)
(** * Running the cycle on emails that are not processed yet *)
(* ===================================================================== *)

(** Some fetched email has no ProcessedRecord: the cycle of the service
    ends with the error of [isPendingReview], after the fetch and before
    any extraction. *)
Lemma cycle_stops_at_unprocessed svc emails w :
  apiKeyAtStart svc = false ->
  starred svc = inr emails ->
  allProcessed (db w) emails = false ->
  exec (processStarredEmails svc) w
  = (Thrown (JsError (pendingQueryError svc)),
     mkWorld (setLastRunTime (db w) (now svc))
             (CallGetStarredEmails :: calls w)).
Proof.
  intros Hkey Hfetch Hsome. rewrite processStarredEmails_exec.
  unfold cycleOutcome, cycleDb, cycleCalls. now rewrite Hkey, Hfetch, Hsome.
Qed.

(** Every fetched email has a ProcessedRecord: the cycle skips them all. *)
Lemma cycle_skips_processed svc emails w :
  apiKeyAtStart svc = false ->
  starred svc = inr emails ->
  allProcessed (db w) emails = true ->
  exec (processStarredEmails svc) w
  = (Returned (mkResult 0 0 0 false None),
     mkWorld (setLastRunTime (db w) (now svc))
             (CallGetStarredEmails :: calls w)).
Proof.
  intros Hkey Hfetch Hall. rewrite processStarredEmails_exec.
  unfold cycleOutcome, cycleDb, cycleCalls. now rewrite Hkey, Hfetch, Hall.
Qed.

(** C4.  One starred email that is not processed yet, every collaborator
    healthy, the cycle run twice on a fresh database.  Each run fetches the
    email, skips nothing, and ends with the error that [isPendingReview]
    throws, before any extraction: after the two runs the email has neither
    a ProcessedRecord nor a PendingReview.  The worker's cycle ends at the
    same call and logs the error as one [CYCLE_ERROR]. *)
Theorem C4_unprocessed_item_is_never_recorded :
  let svc := Scenario.services false Scenario.answering [Scenario.a1]
                               Scenario.labelling Scenario.accepting in
  let once := exec (processStarredEmails svc) Scenario.fresh in
  let twice := exec (processStarredEmails svc) (snd once) in
  let worker := exec (workerProcessStarredEmails svc) Scenario.running in
  fst once = Thrown (JsError (pendingQueryError svc))
  /\ fst twice = Thrown (JsError (pendingQueryError svc))
  /\ calls (snd twice) = [CallGetStarredEmails; CallGetStarredEmails]
  /\ processed_emails (db (snd twice)) = []
  /\ pending_reviews (db (snd twice)) = []
  /\ error_log (db (snd twice)) = []
  /\ fst worker = Returned tt
  /\ calls (snd worker) = [CallGetStarredEmails]
  /\ processed_emails (db (snd worker)) = []
  /\ pending_reviews (db (snd worker)) = []
  /\ map (fun row => (el_error_type row, el_message row))
         (error_log (db (snd worker)))
     = [("CYCLE_ERROR", pendingQueryError svc)].
Proof. cbv zeta. repeat split; reflexivity. Qed.

(** C5.  Two emails that are not processed yet; Todoist would reject the
    task of the first and accept that of the second.  The cycle does not
    get to either commit: it ends at [isPendingReview] for the first email,
    returns no result, makes no call but the fetch, and writes no
    ProcessedRecord, for the second email either. *)
Theorem C5_batch_stops_at_first_item :
  let svc := Scenario.trackerDown in
  let out := exec (processStarredEmails svc) Scenario.fresh in
  starred svc = inr [Scenario.a1; Scenario.a2]
  /\ fst out = Thrown (JsError (pendingQueryError svc))
  /\ calls (snd out) = [CallGetStarredEmails]
  /\ processed_emails (db (snd out)) = []
  /\ isEmailProcessed (db (snd out)) "a2" = false
  /\ error_log (db (snd out)) = [].
Proof. cbv zeta. repeat split; reflexivity. Qed.

(* ===================================================================== *)
(** * The worker's startup cycle *)
(* ===================================================================== *)




(* ===================================================================== *)
(** * What a cycle does and does not do *)
(* ===================================================================== *)

Lemma rows_cycleDb svc d :
  processed_emails (cycleDb svc d) = processed_emails d
  /\ pending_reviews (cycleDb svc d) = pending_reviews d
  /\ automation_state (cycleDb svc d)
     = replaceState (automation_state d) "last_run" (now svc).
Proof.
  unfold cycleDb. destruct (apiKeyAtStart svc); repeat split.
Qed.

Lemma rows_workerCycleDb svc d :
  processed_emails (workerCycleDb svc d) = processed_emails d
  /\ pending_reviews (workerCycleDb svc d) = pending_reviews d
  /\ automation_state (workerCycleDb svc d)
     = replaceState (automation_state d) "last_run" (now svc).
Proof.
  unfold workerCycleDb.
  destruct (isAutomationRunning _); [| now repeat split].
  destruct (constructorError svc); [now repeat split |].
  destruct (starred svc) as [[m | url] | emails]; [now repeat split .. |].
  destruct (allProcessed d emails); now repeat split.
Qed.

(** X16.  No cycle gets to an extraction or a commit: in every run of
    [processStarredEmails], of the service or of the worker, the only call
    to a collaborator is at most one [getStarredEmails], and the tables
    [processed_emails] and [pending_reviews] are left as they were.  An
    email without a ProcessedRecord ends the loop at [isPendingReview]; an
    email with one is skipped. *)
Theorem X16_cycles_write_no_ledger_row (svc : Services) (w : World) :
  let byService := snd (exec (processStarredEmails svc) w) in
  let byWorker := snd (exec (workerProcessStarredEmails svc) w) in
  processed_emails (db byService) = processed_emails (db w)
  /\ pending_reviews (db byService) = pending_reviews (db w)
  /\ (calls byService = calls w
      \/ calls byService = CallGetStarredEmails :: calls w)
  /\ processed_emails (db byWorker) = processed_emails (db w)
  /\ pending_reviews (db byWorker) = pending_reviews (db w)
  /\ (calls byWorker = calls w
      \/ calls byWorker = CallGetStarredEmails :: calls w).
Proof.
  cbv zeta.
  rewrite processStarredEmails_exec, workerProcessStarredEmails_exec.
  cbn [snd db calls].
  destruct (rows_cycleDb svc (db w)) as (P1 & Q1 & _).
  destruct (rows_workerCycleDb svc (db w)) as (P2 & Q2 & _).
  repeat split; try assumption.
  - unfold cycleCalls. destruct (apiKeyAtStart svc); [left | right]; reflexivity.
  - unfold workerCalls. destruct (isAutomationRunning (db w)); [| now left].
    destruct (constructorError svc); [left | right]; reflexivity.
Qed.

(** X19.  Every cycle stamps its start: after [processStarredEmails] of the
    service or of the worker, [last_run] holds the start time, also when the
    cycle aborted, found Gmail unauthenticated or was skipped because the
    automation is stopped; and no cycle changes any other key of
    [automation_state], the [running] flag in particular. *)
Theorem X19_cycle_stamps_last_run
        (svc : Services) (w : World) (key : string)
        (Hkey : key <> "last_run") :
  let byService := db (snd (exec (processStarredEmails svc) w)) in
  let byWorker := db (snd (exec (workerProcessStarredEmails svc) w)) in
  getLastRunTime byService = Some (now svc)
  /\ getLastRunTime byWorker = Some (now svc)
  /\ getAutomationState byService key = getAutomationState (db w) key
  /\ getAutomationState byWorker key = getAutomationState (db w) key
  /\ isAutomationRunning byService = isAutomationRunning (db w)
  /\ isAutomationRunning byWorker = isAutomationRunning (db w).
Proof.
  cbv zeta.
  rewrite processStarredEmails_exec, workerProcessStarredEmails_exec.
  cbn [snd db].
  destruct (rows_cycleDb svc (db w)) as (_ & _ & S1).
  destruct (rows_workerCycleDb svc (db w)) as (_ & _ & S2).
  unfold getLastRunTime, isAutomationRunning, getAutomationState.
  rewrite S1, S2.
  rewrite !lookup_replace_same.
  rewrite !(@lookup_replace_other _ "last_run" key) by congruence.
  rewrite !(@lookup_replace_other _ "last_run" "running") by discriminate.
  repeat split.
Qed.

Lemma X19_cycle_stamps_last_run_witness :
  getLastRunTime (db (snd (exec (processStarredEmails Scenario.keyAtStartup)
                                Scenario.fresh)))
  = Some "2026-01-01T00:00:00.000Z"
  /\ getAutomationState
       (db (snd (exec (workerProcessStarredEmails Scenario.healthy)
                      Scenario.running)))
       "running" = Some "true".
Proof.
  split.
  - destruct (@X19_cycle_stamps_last_run Scenario.keyAtStartup Scenario.fresh
                "running" ltac:(discriminate)) as (H & _).
    exact H.
  - destruct (@X19_cycle_stamps_last_run Scenario.healthy Scenario.running
                "running" ltac:(discriminate)) as (_ & _ & _ & H & _).
    rewrite H. reflexivity.
Defined.

(** X20.  How the service's [processStarredEmails] ends.  It throws in
    three cases: the credential is present when it starts, and then it
    throws the environment error after logging one [ENV_ERROR]; the fetch
    throws something other than a [GmailAuthError], and then it rethrows
    that error; or some fetched email has no ProcessedRecord, and then it
    throws the error of [isPendingReview].  The last two log nothing.  It
    returns a result in two cases: the fetch throws a [GmailAuthError], and
    the result asks for authentication with the URL; or every fetched email
    has a ProcessedRecord, and the result counts nothing. *)
Theorem X20_how_the_service_cycle_ends (svc : Services) (w : World) :
  let out := exec (processStarredEmails svc) w in
  match fst out with
  | Thrown e =>
      (apiKeyAtStart svc = true /\ e = JsError ENV_MESSAGE
       /\ map el_error_type (error_log (db (snd out)))
          = (map el_error_type (error_log (db w)) ++ ["ENV_ERROR"])%list
       /\ calls (snd out) = calls w)
      \/ (apiKeyAtStart svc = false
          /\ (exists m, starred svc = inl (JsError m) /\ e = JsError m)
          /\ error_log (db (snd out)) = error_log (db w))
      \/ (apiKeyAtStart svc = false
          /\ (exists emails, starred svc = inr emails
                             /\ allProcessed (db w) emails = false)
          /\ e = JsError (pendingQueryError svc)
          /\ error_log (db (snd out)) = error_log (db w))
  | Returned result =>
      apiKeyAtStart svc = false
      /\ error_log (db (snd out)) = error_log (db w)
      /\ ((exists url, starred svc = inl (GmailAuthError url)
                       /\ result = mkResult 0 0 0 true (Some url))
          \/ (exists emails, starred svc = inr emails
                             /\ allProcessed (db w) emails = true
                             /\ result = mkResult 0 0 0 false None))
  end.
Proof.
  cbv zeta. rewrite processStarredEmails_exec. cbn [fst snd db calls].
  unfold cycleOutcome, cycleDb, cycleCalls.
  destruct (apiKeyAtStart svc) eqn:Hkey.
  { left. repeat split. unfold addErrorLog. cbn [error_log setLastRunTime
      setAutomationState]. rewrite map_app. reflexivity. }
  destruct (starred svc) as [[m | url] | emails] eqn:Hfetch.
  - right. left. repeat split. now exists m.
  - repeat split. left. now exists url.
  - destruct (allProcessed (db w) emails) eqn:Hall.
    + repeat split. right. now exists emails.
    + right. right. repeat split. now exists emails.
Qed.

Lemma X20_how_the_service_cycle_ends_witness :
  fst (exec (processStarredEmails Scenario.gmailDown) Scenario.fresh)
  = Thrown (JsError "Gmail API error: 503")
  /\ fst (exec (processStarredEmails Scenario.gmailLoggedOut) Scenario.fresh)
     = Returned (mkResult 0 0 0 true
                   (Some "https://accounts.google.com/o/oauth2/v2/auth")).
Proof.
  split.
  - pose proof (X20_how_the_service_cycle_ends Scenario.gmailDown Scenario.fresh)
      as H. cbv zeta in H.
    destruct (fst (exec (processStarredEmails Scenario.gmailDown) Scenario.fresh))
      as [result | e] eqn:E; [discriminate E |].
    destruct H as [(Hk & _) | [(_ & (m & Hm & He) & _) | (_ & (l & Hl & _) & _)]];
      [discriminate Hk | | discriminate Hl].
    injection Hm as <-. rewrite He. reflexivity.
  - pose proof (X20_how_the_service_cycle_ends Scenario.gmailLoggedOut
                  Scenario.fresh) as H. cbv zeta in H.
    destruct (fst (exec (processStarredEmails Scenario.gmailLoggedOut)
                        Scenario.fresh)) as [result | e] eqn:E;
      [| discriminate E].
    destruct H as (_ & _ & [(url & Hu & Hr) | (l & Hl & _)]); [| discriminate Hl].
    injection Hu as <-. rewrite Hr. reflexivity.
Defined.

(** X21.  The worker's [processStarredEmails] never throws, so a failure
    cannot end the worker process: whatever the collaborators do it returns;
    and when the automation is running and the fetch fails with anything but
    a [GmailAuthError], one [CYCLE_ERROR] entry with the error's message is
    logged and no ledger row is written, while a [GmailAuthError] is not
    logged at all. *)
Theorem X21_worker_cycle_never_throws
        (svc : Services) (w : World) (e : Exn)
        (Hrunning : isAutomationRunning (db w) = true)
        (Hctor : constructorError svc = None)
        (Hfetch : starred svc = inl e) :
  fst (exec (workerProcessStarredEmails svc) w) = Returned tt
  /\ processed_emails (db (snd (exec (workerProcessStarredEmails svc) w)))
     = processed_emails (db w)
  /\ pending_reviews (db (snd (exec (workerProcessStarredEmails svc) w)))
     = pending_reviews (db w)
  /\ map (fun row => (el_error_type row, el_message row, el_email_id row))
         (error_log (db (snd (exec (workerProcessStarredEmails svc) w))))
     = (map (fun row => (el_error_type row, el_message row, el_email_id row))
            (error_log (db w))
        ++ match e with
           | GmailAuthError _ => []
           | JsError m => [("CYCLE_ERROR", m, None)]
           end)%list
  /\ forall svc' w', fst (exec (workerProcessStarredEmails svc') w') = Returned tt.
Proof.
  assert (Hall : forall svc' w',
             fst (exec (workerProcessStarredEmails svc') w') = Returned tt).
  { intros svc' w'. now rewrite workerProcessStarredEmails_exec. }
  split; [apply Hall |].
  rewrite workerProcessStarredEmails_exec. cbn [snd db].
  unfold workerCycleDb.
  rewrite running_after_last_run, Hrunning, Hctor, Hfetch.
  destruct e as [m | url]; cbn [processed_emails pending_reviews error_log
    addErrorLog setAutomationState exn_message].
  - repeat split; [| apply Hall].
    rewrite map_app. reflexivity.
  - repeat split; [| apply Hall].
    now rewrite app_nil_r.
Qed.

Lemma X21_worker_cycle_never_throws_witness :
  map el_error_type
      (error_log (db (snd (exec (workerProcessStarredEmails Scenario.gmailDown)
                                Scenario.running))))
  = ["CYCLE_ERROR"]
  /\ error_log (db (snd (exec (workerProcessStarredEmails Scenario.gmailLoggedOut)
                              Scenario.running))) = [].
Proof.
  destruct (@X21_worker_cycle_never_throws Scenario.gmailDown Scenario.running _
              eq_refl eq_refl eq_refl) as (H1 & _).
  split; reflexivity.
Defined.





Lemma X15_no_approved_label_gives_defaults_witness :
  let svc := Scenario.services false
               (fun _ _ _ => mkCliEnv false true
                  (CliAnswered (mkParsed (Some "Call the bank")
                                         (Some ["urgent"; "home"]) None None)))
               [Scenario.a1] Scenario.labelling Scenario.accepting in
  let out := exec (processEmail svc Scenario.a1) Scenario.fresh in
  fst out = Returned tt
  /\ map pe_labels (processed_emails (db (snd out)))
     = [Some ["2170911443"; "2170910796"]].
Proof.
  cbv zeta.
  destruct (@X15_no_approved_label_gives_defaults
              (Scenario.services false
                 (fun _ _ _ => mkCliEnv false true
                    (CliAnswered (mkParsed (Some "Call the bank")
                                           (Some ["urgent"; "home"]) None None)))
                 [Scenario.a1] Scenario.labelling Scenario.accepting)
              Scenario.a1 _ ["urgent"; "home"] eq_refl eq_refl eq_refl)
    as (Hx & _ & _ & _).
  - intros id [<- | [<- | []]]; reflexivity.
  - rewrite (processEmail_commits _ Hx). split; reflexivity.
Defined.

(* ===================================================================== *)
(** * What [processEmail] writes *)
(* ===================================================================== *)



(* ===================================================================== *)
(** * Queuing the same item again *)
(* ===================================================================== *)

(** C7.  [addPendingReview] for a [gmail_id] that has a row, whatever the
    status of the row, returns normally and leaves every row of every table
    as it was, the existing PendingReview included; so [addPendingReview]
    called twice adds one row, [processEmail] called twice for an email whose
    extraction falls back returns both times and the second call adds no
    row, and a second cycle over the same inbox, of the service or of the
    worker, leaves [pending_reviews] as the first left it. *)
Theorem C7_second_pending_insert_is_noop
        (svc : Services) (w : World) (email : GmailEmail)
        (row : PendingReview) (data again : PendingReviewData)
        (Hrow : In row (pending_reviews (db w)))
        (Hid : pr_gmail_id row = prd_gmail_id data)
        (Hagain : prd_gmail_id again = prd_gmail_id data)
        (Hfalls : fallsBack svc email) :
  let d := db w in
  let once := exec (processEmail svc email) w in
  let twice := exec (processEmail svc email) (snd once) in
  let cycle := exec (processStarredEmails svc) w in
  let cycle2 := exec (processStarredEmails svc) (snd cycle) in
  let worker := exec (workerProcessStarredEmails svc) w in
  let worker2 := exec (workerProcessStarredEmails svc) (snd worker) in
  (pending_reviews (addPendingReview d data) = pending_reviews d
   /\ In row (pending_reviews (addPendingReview d data))
   /\ processed_emails (addPendingReview d data) = processed_emails d
   /\ error_log (addPendingReview d data) = error_log d
   /\ automation_state (addPendingReview d data) = automation_state d)
  /\ (forall d0,
         pending_reviews (addPendingReview (addPendingReview d0 data) again)
         = pending_reviews (addPendingReview d0 data))
  /\ (fst once = Returned tt /\ fst twice = Returned tt
      /\ pending_reviews (db (snd twice)) = pending_reviews (db (snd once)))
  /\ pending_reviews (db (snd cycle2)) = pending_reviews (db (snd cycle))
  /\ pending_reviews (db (snd worker2)) = pending_reviews (db (snd worker)).
Proof.
  cbv zeta.
  assert (Hhas : hasPendingRow (db w) (prd_gmail_id data) = true).
  { unfold hasPendingRow. apply existsb_exists. exists row.
    split; [exact Hrow |]. rewrite Hid. apply String.eqb_refl. }
  destruct (addPendingReview_existing (db w) data Hhas) as (P & Q & R & S).
  split; [| split; [| split; [| split]]].
  - repeat split; try assumption. now rewrite P.
  - intro d0.
    apply (addPendingReview_existing (addPendingReview d0 data) again).
    rewrite Hagain. apply addPendingReview_has.
  - rewrite !(processEmail_queues _ Hfalls). cbn [fst snd db].
    repeat split.
    apply (addPendingReview_existing
             (addPendingReview (db w) (pendingDataOf email)) (pendingDataOf email)).
    apply addPendingReview_has.
  - rewrite !processStarredEmails_exec. cbn [snd db].
    apply rows_cycleDb.
  - rewrite !workerProcessStarredEmails_exec. cbn [snd db].
    apply rows_workerCycleDb.
Qed.

Lemma C7_second_pending_insert_is_noop_witness :
  let d := Scenario.queued in
  map (fun row => (pr_id row, pr_gmail_id row, pr_status row)) (pending_reviews d)
  = [(1, "a1", pending)]
  /\ map (fun row => (pr_id row, pr_gmail_id row, pr_status row))
         (pending_reviews (addPendingReview d (pendingDataOf Scenario.a1)))
     = [(1, "a1", pending)]
  /\ map (fun row => (pr_id row, pr_gmail_id row, pr_status row))
         (pending_reviews
            (addPendingReview (updatePendingReviewStatus d 1 skipped)
                              (pendingDataOf Scenario.a1)))
     = [(1, "a1", skipped)].
Proof.
  cbv zeta. split; [reflexivity |].
  assert (Hf : fallsBack Scenario.cliLoggedOut Scenario.a1).
  { eexists. split; reflexivity. }
  split.
  - destruct (@C7_second_pending_insert_is_noop Scenario.cliLoggedOut
                (mkWorld Scenario.queued []) Scenario.a1
                (mkPendingReview 1 "a1" (Some "t1") (Some "gov@example.com")
                   (Some "Renew passport") (Some "...due Friday...")
                   (Some "https://mail.google.com/mail/u/0/#inbox/t1") pending)
                (pendingDataOf Scenario.a1) (pendingDataOf Scenario.a1)
                ltac:(left; reflexivity) eq_refl eq_refl Hf) as ((H & _) & _).
    cbn [db] in H. rewrite H. reflexivity.
  - destruct (@C7_second_pending_insert_is_noop Scenario.cliLoggedOut
                (mkWorld (updatePendingReviewStatus Scenario.queued 1 skipped) [])
                Scenario.a1
                (mkPendingReview 1 "a1" (Some "t1") (Some "gov@example.com")
                   (Some "Renew passport") (Some "...due Friday...")
                   (Some "https://mail.google.com/mail/u/0/#inbox/t1") skipped)
                (pendingDataOf Scenario.a1) (pendingDataOf Scenario.a1)
                ltac:(left; reflexivity) eq_refl eq_refl Hf) as ((H & _) & _).
    cbn [db] in H. rewrite H. reflexivity.
Defined.

(* ===================================================================== *)
(** * Manual completion, run on its own *)
(* ===================================================================== *)

Lemma markHandledQuietly_exec svc gmailId w :
  exec (markHandledQuietly svc gmailId) w
  = (Returned tt, mkWorld (db w) (quietCalls svc gmailId (calls w))).
Proof.
  unfold markHandledQuietly, quietCalls. run_steps.
  destruct (negb (String.eqb gmailId "")); run_steps; [| now destruct w].
  destruct (labelFails svc gmailId "Processed"); run_steps; [reflexivity |].
  destruct (unstarFails svc gmailId); reflexivity.
Qed.

Lemma processManualTask_exec svc pendingReviewId taskData w :
  exec (processManualTask svc pendingReviewId taskData) w
  = (Returned (manualResult svc pendingReviewId taskData (db w)),
     mkWorld (manualDb svc pendingReviewId taskData (db w))
             (manualCalls svc pendingReviewId taskData (db w) (calls w))).
Proof.
  unfold processManualTask, manualResult, manualDb, manualCalls. run_steps.
  destruct (getPendingReviewById (db w) pendingReviewId) as [row |];
    [| now destruct w].
  fold (manualInputOf row taskData).
  destruct (todoistApi svc (manualInputOf row taskData)) as [e | taskId];
    run_steps; [reflexivity |].
  rewrite exec_tryCatch, exec_bind, markHandledQuietly_exec. run_steps.
  fold (manualDataOf row taskData taskId).
  destruct (addProcessedEmail _ (manualDataOf row taskData taskId));
    reflexivity.
Qed.

Lemma quietCalls_later svc gmailId before :
  exists later, quietCalls svc gmailId before = (later ++ before)%list.
Proof.
  unfold quietCalls. destruct (negb (String.eqb gmailId ""));
    [| exists []; reflexivity].
  destruct (labelFails svc gmailId "Processed").
  - exists [CallLabelEmail gmailId "Processed"]. reflexivity.
  - exists [CallUnstarEmail gmailId; CallLabelEmail gmailId "Processed"].
    reflexivity.
Qed.

Lemma processManualTask_calls svc pendingReviewId taskData row w :
  getPendingReviewById (db w) pendingReviewId = Some row ->
  exists later,
    calls (snd (exec (processManualTask svc pendingReviewId taskData) w))
    = (later ++ CallCreateTask (manualInputOf row taskData) :: calls w)%list.
Proof.
  intro Hrow. rewrite processManualTask_exec. cbn [snd calls].
  unfold manualCalls. rewrite Hrow.
  destruct (todoistApi svc (manualInputOf row taskData));
    [exists []; reflexivity | apply quietCalls_later].
Qed.

Lemma skipPendingReview_exec id w :
  exec (skipPendingReview id) w
  = (Returned tt, mkWorld (updatePendingReviewStatus (db w) id skipped) (calls w)).
Proof. reflexivity. Qed.


(* ===================================================================== *)
(** * The task description *)
(* ===================================================================== *)

Lemma notes_or_empty notes :
  (if truthy notes then JS.orEmpty notes else "") = JS.orEmpty notes.
Proof.
  destruct notes as [s |]; [| reflexivity]. unfold truthy. cbn [JS.orEmpty].
  destruct (String.eqb s "") eqn:E; [| reflexivity].
  apply String.eqb_eq in E. now subst.
Qed.

Lemma buildDescription_sixLines sender subject notes link :
  buildDescription sender subject notes link
  = sixLines sender subject (JS.orEmpty notes) link.
Proof.
  unfold buildDescription, sixLines. rewrite notes_or_empty. reflexivity.
Qed.

Ltac pick_later :=
  solve [ exists []; reflexivity
        | eexists (cons _ nil); reflexivity
        | eexists (cons _ (cons _ nil)); reflexivity ].

Lemma processEmail_calls svc email data w :
  extracts svc email data ->
  exists later,
    calls (snd (exec (processEmail svc email) w))
    = (later ++ CallCreateTask (taskInputOf email data)
             :: extractCall email :: calls w)%list.
Proof.
  intro Hx. rewrite (processEmail_commits w Hx). cbv zeta.
  destruct (todoistApi svc (taskInputOf email data)); [pick_later |].
  destruct (labelFails svc (email_id email) "Processed"); [pick_later |].
  destruct (unstarFails svc (email_id email)); [pick_later |].
  destruct (addProcessedEmail (db w) _); pick_later.
Qed.

Lemma workerAttempt_calls svc email data w :
  extracts svc email data ->
  exists later,
    calls (snd (exec (workerAttempt svc email) w))
    = (later ++ CallCreateTask (taskInputOf email data)
             :: extractCall email :: calls w)%list.
Proof.
  intros (r & Hr & Hs & Hd). unfold workerAttempt.
  rewrite exec_tryCatch, exec_bind, extract_email, Hr.
  rewrite (extraction_flags _ _ Hr), Hs, Hd. cbn [negb orb].
  fold (gmailLinkOf email). fold (taskInputOf email data).
  cbv zeta. run_steps.
  destruct (todoistApi svc (taskInputOf email data)) as [e | taskId];
    run_steps; [pick_later |].
  destruct (labelFails svc (email_id email) "Processed"); run_steps;
    [pick_later |].
  destruct (unstarFails svc (email_id email)); run_steps; [pick_later |].
  destruct (addProcessedEmail (db w) _); run_steps; pick_later.
Qed.

(** C9.  The description handed to [createTask] is the six lines ["From:
    sender"], ["Subject: subject"], an empty line, the notes (the empty
    string when they are absent or empty), an empty line and ["Original
    email: link"], joined by single newlines: in [processEmail], in the
    [try] block of the worker's loop, and in [processManualTask], where
    sender, subject and link are those of the pending review. *)
Theorem C9_description_six_lines
        (svc : Services) (email : GmailEmail) (data : TaskExtraction) (w : World)
        (pendingReviewId : nat) (taskData : TaskExtraction)
        (row : PendingReview) (w' : World)
        (Hextract : extracts svc email data)
        (Hrow : getPendingReviewById (db w') pendingReviewId = Some row) :
  let auto := sixLines (email_sender email) (email_subject email)
                       (JS.orEmpty (te_notes data)) (gmailLinkOf email) in
  let manual := sixLines (JS.tmpl (pr_sender row)) (JS.tmpl (pr_subject row))
                         (JS.orEmpty (te_notes taskData))
                         (JS.tmpl (pr_gmail_link row)) in
  (exists later input,
      calls (snd (exec (processEmail svc email) w))
      = (later ++ CallCreateTask input
               :: CallExtract (email_body email) (email_subject email)
                              (email_sender email)
               :: calls w)%list
      /\ ct_description input = Some auto)
  /\ (exists later input,
         calls (snd (exec (workerAttempt svc email) w))
         = (later ++ CallCreateTask input
                  :: CallExtract (email_body email) (email_subject email)
                                 (email_sender email)
                  :: calls w)%list
         /\ ct_description input = Some auto)
  /\ (exists later input,
         calls (snd (exec (processManualTask svc pendingReviewId taskData) w'))
         = (later ++ CallCreateTask input :: calls w')%list
         /\ ct_description input = Some manual)
  /\ (forall sender subject notes link,
         buildDescription sender subject notes link
         = sixLines sender subject (JS.orEmpty notes) link).
Proof.
  cbv zeta. repeat split.
  - destruct (processEmail_calls w Hextract) as [later H].
    exists later, (taskInputOf email data). split; [exact H |].
    cbn [ct_description taskInputOf]. now rewrite buildDescription_sixLines.
  - destruct (workerAttempt_calls w Hextract) as [later H].
    exists later, (taskInputOf email data). split; [exact H |].
    cbn [ct_description taskInputOf]. now rewrite buildDescription_sixLines.
  - destruct (processManualTask_calls svc pendingReviewId taskData w' Hrow)
      as [later H].
    exists later, (manualInputOf row taskData). split; [exact H |].
    cbn [ct_description manualInputOf]. now rewrite buildDescription_sixLines.
  - apply buildDescription_sixLines.
Qed.

Lemma C9_description_six_lines_witness :
  exists later input,
    calls (snd (exec (processManualTask Scenario.healthy 1 Scenario.reviewed)
                     (mkWorld (addPendingReview (db Scenario.fresh)
                                 (pendingDataOf Scenario.a1)) [])))
    = (later ++ [CallCreateTask input])%list
    /\ ct_description input
       = Some (sixLines "gov@example.com" "Renew passport" ""
                        "https://mail.google.com/mail/u/0/#inbox/t1").
Proof.
  assert (Hx : extracts Scenario.healthy Scenario.a1
                 (mkTaskExtraction "Handle Renew passport" ["2171144969"]
                    (Some "Sent by gov@example.com") (Some "Friday"))).
  { eexists. repeat split; reflexivity. }
  destruct (@C9_description_six_lines Scenario.healthy Scenario.a1 _
              Scenario.fresh 1 Scenario.reviewed _
              (mkWorld (addPendingReview (db Scenario.fresh)
                          (pendingDataOf Scenario.a1)) [])
              Hx eq_refl) as (_ & _ & H & _).
  exact H.
Defined.

Lemma update_reads_back d id row status :
  NoDup (map pr_id (pending_reviews d)) ->
  getPendingReviewById d id = Some row ->
  getPendingReviewById (updatePendingReviewStatus d id status) id
  = Some (setStatus status row).
Proof.
  intros Hids Hfound.
  pose proof (getPendingReviewById_In _ _ Hfound) as [_ Hid].
  unfold getPendingReviewById in *.
  destruct (find_split_unique _ _ Hids Hfound) as (l1 & l2 & Hl & Hrest).
  unfold updatePendingReviewStatus. cbn [pending_reviews].
  rewrite Hl, map_app. cbn [map]. rewrite Hid, Nat.eqb_refl.
  rewrite map_update_outside by (intros r Hr; apply Hrest; auto).
  rewrite find_app_none.
  - cbn [find setStatus pr_id]. now rewrite Hid, Nat.eqb_refl.
  - clear - Hrest. induction l1 as [| a l IH]; [reflexivity |].
    cbn [find]. rewrite (Hrest a) by (left; now left).
    apply IH. intros r [Hr | Hr]; apply Hrest; [left; now right | now right].
Qed.

(** X22.  [processManualTask] never throws.  In a database that meets the
    key constraints of [pending_reviews], when it reports success the review
    existed, its status is now ['completed'], its email is processed and no
    longer awaits review, and the result carries the id of the task created;
    when it reports failure, it gives an error message and has written no
    ProcessedRecord. *)
Theorem X22_manual_completion_outcome
        (svc : Services) (pendingReviewId : nat) (taskData : TaskExtraction)
        (w : World)
        (Hids : NoDup (map pr_id (pending_reviews (db w))))
        (Hkeys : NoDup (map pr_gmail_id (pending_reviews (db w)))) :
  let out := exec (processManualTask svc pendingReviewId taskData) w in
  exists result,
    fst out = Returned result
    /\ (if mr_success result
        then exists row taskId,
               getPendingReviewById (db w) pendingReviewId = Some row
               /\ todoistApi svc (manualInputOf row taskData) = inr taskId
               /\ mr_taskId result = Some taskId
               /\ getPendingReviewById (db (snd out)) pendingReviewId
                  = Some (setStatus completed row)
               /\ isEmailProcessed (db (snd out)) (pr_gmail_id row) = true
               /\ awaitsReview (db (snd out)) (pr_gmail_id row) = false
        else mr_error result <> None
             /\ mr_taskId result = None
             /\ processed_emails (db (snd out)) = processed_emails (db w)).
Proof.
  cbv zeta. exists (manualResult svc pendingReviewId taskData (db w)).
  rewrite processManualTask_exec. cbn [fst snd db].
  split; [reflexivity |].
  unfold manualResult, manualDb.
  destruct (getPendingReviewById (db w) pendingReviewId) as [row |] eqn:Hfind;
    [| cbn; repeat split; discriminate].
  destruct (todoistApi svc (manualInputOf row taskData)) as [e | taskId] eqn:Hapi;
    [cbn; repeat split; discriminate |].
  destruct (addProcessedEmail _ (manualDataOf row taskData taskId))
    as [d2 |] eqn:Hadd; cbn [mr_success mr_error mr_taskId];
    [| repeat split; discriminate].
  destruct (@inserted_is_processed _ _ _ Hadd) as (Hp & Hq).
  exists row, taskId. repeat split.
  - exact Hapi.
  - unfold getPendingReviewById. rewrite Hq.
    now apply update_reads_back.
  - exact Hp.
  - unfold awaitsReview. rewrite Hq.
    now apply completed_not_awaiting.
Qed.

Lemma X22_manual_completion_outcome_witness :
  exists result,
    fst (exec (processManualTask Scenario.healthy 1 Scenario.reviewed)
              (mkWorld Scenario.queued []))
    = Returned result
    /\ mr_success result = true.
Proof.
  assert (Hids : NoDup (map pr_id (pending_reviews Scenario.queued)))
    by (repeat constructor; intros []).
  assert (Hkeys : NoDup (map pr_gmail_id (pending_reviews Scenario.queued)))
    by (repeat constructor; intros []).
  destruct (@X22_manual_completion_outcome Scenario.healthy 1 Scenario.reviewed
              (mkWorld Scenario.queued []) Hids Hkeys) as (result & Hr & _).
  exists result. split; [exact Hr |].
  assert (E : Returned result
              = Returned (mkManualResult true
                            (Some "task:Renew passport at the consulate") None)).
  { rewrite <- Hr. reflexivity. }
  injection E as ->. reflexivity.
Defined.

(** X23.  [processManualTask] does not look at the status of the review nor
    at the ledger before it creates the task: submitted for a review whose
    email is processed already, it creates one more task in Todoist, sets
    the review to ['completed'], then fails on the UNIQUE constraint, logs
    one [MANUAL_PROCESSING_ERROR] and reports failure with that message. *)
Theorem X23_manual_resubmission_duplicates_task
        (svc : Services) (pendingReviewId : nat) (taskData : TaskExtraction)
        (w : World) (row : PendingReview) (taskId : string)
        (Hrow : getPendingReviewById (db w) pendingReviewId = Some row)
        (Hdone : isEmailProcessed (db w) (pr_gmail_id row) = true)
        (Hapi : todoistApi svc (manualInputOf row taskData) = inr taskId) :
  let out := exec (processManualTask svc pendingReviewId taskData) w in
  fst out = Returned (mkManualResult false None (Some UNIQUE_PROCESSED))
  /\ (exists later,
         calls (snd out)
         = (later ++ CallCreateTask (manualInputOf row taskData) :: calls w)%list)
  /\ db (snd out)
     = addErrorLog (updatePendingReviewStatus (db w) pendingReviewId completed)
                   (Some "MANUAL_PROCESSING_ERROR") UNIQUE_PROCESSED
                   (Some (pr_gmail_id row))
  /\ processed_emails (db (snd out)) = processed_emails (db w).
Proof.
  cbv zeta.
  assert (Hadd : addProcessedEmail
                   (updatePendingReviewStatus (db w) pendingReviewId completed)
                   (manualDataOf row taskData taskId) = None).
  { unfold addProcessedEmail. cbn [ped_gmail_id manualDataOf].
    change (isEmailProcessed
              (updatePendingReviewStatus (db w) pendingReviewId completed)
              (pr_gmail_id row))
      with (isEmailProcessed (db w) (pr_gmail_id row)).
    now rewrite Hdone. }
  split; [| split; [apply processManualTask_calls; exact Hrow |]].
  - rewrite processManualTask_exec. cbn [fst].
    unfold manualResult. now rewrite Hrow, Hapi, Hadd.
  - rewrite processManualTask_exec. cbn [snd db].
    unfold manualDb. rewrite Hrow, Hapi, Hadd. split; reflexivity.
Qed.

Lemma X23_manual_resubmission_duplicates_task_witness :
  let once := exec (processManualTask Scenario.healthy 1 Scenario.reviewed)
                   (mkWorld Scenario.queued []) in
  let twice := exec (processManualTask Scenario.healthy 1 Scenario.reviewed)
                    (snd once) in
  mr_success (manualResult Scenario.healthy 1 Scenario.reviewed (db (snd once)))
  = false
  /\ length (filter (fun c => match c with CallCreateTask _ => true | _ => false end)
                    (calls (snd twice))) = 2
  /\ length (processed_emails (db (snd twice))) = 1.
Proof.
  cbv zeta.
  destruct (@X23_manual_resubmission_duplicates_task Scenario.healthy 1
              Scenario.reviewed
              (snd (exec (processManualTask Scenario.healthy 1 Scenario.reviewed)
                         (mkWorld Scenario.queued [])))
              _ "task:Renew passport at the consulate"
              eq_refl eq_refl eq_refl) as (_ & _ & _ & H).
  split; [reflexivity |]. split; [reflexivity |]. rewrite H. reflexivity.
Defined.

Lemma update_unknown d id status :
  getPendingReviewById d id = None ->
  updatePendingReviewStatus d id status = d.
Proof.
  intro H. unfold updatePendingReviewStatus.
  rewrite map_update_outside; [now destruct d |].
  intros r Hr. unfold getPendingReviewById in H.
  destruct (Nat.eqb (pr_id r) id) eqn:E; [| reflexivity].
  exfalso. pose proof (find_none _ _ H r Hr) as Hn. cbn in Hn. congruence.
Qed.

(** X26.  The [POST] handler of the reviews route never throws and answers
    bad requests before it touches anything: a body that does not parse, a
    missing id or the id 0, and an action that is neither ['skip'] nor
    ['submit'] with task data leave the database and the collaborators
    untouched and get the status 500, 400 and 400. *)
Theorem X26_route_rejects_bad_requests
        (svc : Services) (w : World) (body : option PendingPostBody) :
  (exists response w', exec (pendingPOST svc body) w = (Returned response, w'))
  /\ exec (pendingPOST svc None) w
     = (Returned (mkResponse 500 false "Internal server error" None), w)
  /\ (forall action taskData,
         exec (pendingPOST svc (Some (mkPostBody None action taskData))) w
         = (Returned (mkResponse 400 false "Missing review ID" None), w)
         /\ exec (pendingPOST svc (Some (mkPostBody (Some 0) action taskData))) w
            = (Returned (mkResponse 400 false "Missing review ID" None), w))
  /\ (forall id action taskData,
         constructorError svc = None ->
         action <> "skip" ->
         action <> "submit" \/ taskData = None ->
         exec (pendingPOST svc
                 (Some (mkPostBody (Some (S id)) (Some action) taskData))) w
         = (Returned (mkResponse 400 false "Invalid action" None), w)).
Proof.
  split; [| split; [reflexivity | split; [intros; split; reflexivity |]]].
  - unfold pendingPOST. destruct body as [b |]; [| now eexists; eexists].
    destruct (pb_id b) as [[| id] |]; try (now eexists; eexists).
    destruct (constructorError svc); [now eexists; eexists |].
    destruct (pb_action b) as [action |]; [| now eexists; eexists].
    destruct (String.eqb action "skip").
    { eexists. eexists. rewrite exec_bind, skipPendingReview_exec.
      reflexivity. }
    destruct (String.eqb action "submit"); [| now eexists; eexists].
    destruct (pb_taskData b) as [data |]; [| now eexists; eexists].
    rewrite exec_bind, processManualTask_exec.
    destruct (negb (mr_success _)); eexists; eexists; reflexivity.
  - intros id action taskData Hctor Hskip Hsubmit. unfold pendingPOST.
    cbn [pb_id pb_action pb_taskData]. rewrite Hctor.
    destruct (String.eqb action "skip") eqn:E;
      [apply String.eqb_eq in E; contradiction |].
    destruct (String.eqb action "submit") eqn:E'; [| reflexivity].
    apply String.eqb_eq in E'.
    destruct Hsubmit as [Hs | ->]; [contradiction | reflexivity].
Qed.

Lemma X26_route_rejects_bad_requests_witness :
  exec (pendingPOST Scenario.healthy
          (Some (mkPostBody (Some 1) (Some "submit") None))) Scenario.fresh
  = (Returned (mkResponse 400 false "Invalid action" None), Scenario.fresh).
Proof.
  destruct (@X26_route_rejects_bad_requests Scenario.healthy Scenario.fresh None)
    as (_ & _ & _ & H).
  apply H; [reflexivity | discriminate | now right].
Defined.

(** X27.  Through the route, skipping an id that no review has is answered
    with success and ['Review skipped'] although nothing is changed, and a
    submit for such an id is answered with ['Pending review not found'];
    every submit is answered with the status 200, with success exactly when
    [processManualTask] reports success, and with the task id then. *)
Theorem X27_route_skip_and_submit
        (svc : Services) (w : World) (id : nat) (data : TaskExtraction)
        (Hctor : constructorError svc = None)
        (Hunknown : getPendingReviewById (db w) (S id) = None) :
  exec (pendingPOST svc (Some (mkPostBody (Some (S id)) (Some "skip") None))) w
  = (Returned (mkResponse 200 true "Review skipped" None), w)
  /\ exec (pendingPOST svc
             (Some (mkPostBody (Some (S id)) (Some "submit") (Some data)))) w
     = (Returned (mkResponse 200 false "Pending review not found" None), w)
  /\ forall w0 id0,
       let submit := exec (pendingPOST svc
                             (Some (mkPostBody (Some (S id0))
                                      (Some "submit") (Some data)))) w0 in
       exists response,
         fst submit = Returned response
         /\ http_status response = 200
         /\ rs_success response
            = mr_success (manualResult svc (S id0) data (db w0))
         /\ rs_taskId response
            = (if mr_success (manualResult svc (S id0) data (db w0))
               then mr_taskId (manualResult svc (S id0) data (db w0))
               else None).
Proof.
  split; [| split].
  - unfold pendingPOST. cbn [pb_id pb_action pb_taskData]. rewrite Hctor.
    change (String.eqb "skip" "skip") with true. cbv iota.
    rewrite exec_bind, skipPendingReview_exec.
    rewrite (@update_unknown (db w) (S id) skipped Hunknown). now destruct w.
  - unfold pendingPOST. cbn [pb_id pb_action pb_taskData]. rewrite Hctor.
    change (String.eqb "submit" "skip") with false.
    change (String.eqb "submit" "submit") with true. cbv iota.
    rewrite exec_bind, processManualTask_exec.
    unfold manualResult, manualDb, manualCalls. rewrite Hunknown.
    now destruct w.
  - intros w0 id0. cbv zeta. unfold pendingPOST.
    cbn [pb_id pb_action pb_taskData]. rewrite Hctor.
    change (String.eqb "submit" "skip") with false.
    change (String.eqb "submit" "submit") with true. cbv iota.
    rewrite exec_bind, processManualTask_exec.
    destruct (mr_success (manualResult svc (S id0) data (db w0))) eqn:E;
      cbn [negb]; eexists; (split; [reflexivity |]); repeat split.
Qed.

Lemma X27_route_skip_and_submit_witness :
  exec (pendingPOST Scenario.healthy
          (Some (mkPostBody (Some 7) (Some "skip") None)))
       (mkWorld Scenario.queued [])
  = (Returned (mkResponse 200 true "Review skipped" None),
     mkWorld Scenario.queued []).
Proof.
  destruct (@X27_route_skip_and_submit Scenario.healthy
              (mkWorld Scenario.queued []) 6 Scenario.reviewed eq_refl eq_refl)
    as (H & _).
  exact H.
Defined.

(* ===================================================================== *)
(** * Operations that run at the same time *)
(* ===================================================================== *)

Lemma settles_refl d : settles d d.
Proof.
  split; [reflexivity |]. split; [auto |]. split; [| auto].
  intros g H1 H2. congruence.
Qed.

(** A statement that leaves both ledger tables alone settles. *)
Lemma settles_rows d d' :
  processed_emails d' = processed_emails d ->
  pending_reviews d' = pending_reviews d ->
  settles d d'.
Proof.
  intros Hp Hq. unfold settles, uniqueKeys, awaitsReview, isEmailProcessed.
  rewrite Hp, Hq. split; [reflexivity |]. split; [auto |]. split; [| auto].
  intros g H1 H2. congruence.
Qed.

Lemma keys_update d id status :
  map reviewKey (pending_reviews (updatePendingReviewStatus d id status))
  = map reviewKey (pending_reviews d).
Proof.
  unfold updatePendingReviewStatus. cbn [pending_reviews].
  rewrite map_map. apply map_ext. intro row.
  destruct (Nat.eqb (pr_id row) id); reflexivity.
Qed.

(** Setting a status other than ['pending'] settles. *)
Lemma settles_update d id status :
  status <> pending -> settles d (updatePendingReviewStatus d id status).
Proof.
  intro Hs. split; [apply keys_update |]. split; [| split].
  - intros g. now apply update_awaits.
  - intros g H1 H2. unfold isEmailProcessed, updatePendingReviewStatus in *.
    cbn [processed_emails] in H2. congruence.
  - intros [U1 U2]. split; [exact U1 |]. now rewrite update_keeps_keys.
Qed.

Lemma stable_true : stable (fun _ => True).
Proof. intros d d' _ _. exact I. Qed.

Lemma stable_keys ks :
  stable (fun d => map reviewKey (pending_reviews d) = ks).
Proof. intros d d' (H & _) Hd. now rewrite H. Qed.

Lemma stable_not_awaiting gmailId :
  stable (fun d => awaitsReview d gmailId = false).
Proof.
  intros d d' (_ & H & _) Hd.
  destruct (awaitsReview d' gmailId) eqn:E; [| reflexivity].
  apply H in E. congruence.
Qed.

(* --------------------------------------------------------------------- *)
(** ** Programs made of statements that settle *)

Lemma quiet_bind {A B} (m : Prog A) (k : A -> Prog B) :
  quiet m -> (forall a, quiet (k a)) -> quiet (bind m k).
Proof.
  intros Hm Hk. induction m as [a | e | X statement k' IH | c k' IH];
    cbn [bind quiet] in *; auto.
  destruct Hm as [H1 H2]. split; auto.
Qed.

Lemma quiet_tryCatch {A} (m : Prog A) (handler : Exn -> Prog A) :
  quiet m -> (forall e, quiet (handler e)) -> quiet (tryCatch m handler).
Proof.
  intros Hm Hh. induction m as [a | e | X statement k' IH | c k' IH];
    cbn [tryCatch quiet] in *; auto.
  destruct Hm as [H1 H2]. split; auto.
Qed.

Lemma quiet_safe {A} (p : Prog A) :
  quiet p -> forall P, stable P -> safe p P.
Proof.
  induction p as [a | e | X statement k IH | c k IH];
    cbn [quiet safe]; auto.
  intros [H1 H2] P HP d _ Hd. split; [apply H1 |].
  exists P. split; [exact HP |]. split; [| now apply IH].
  exact (HP _ _ (H1 d) Hd).
Qed.

Lemma safe_bind {A B} (m : Prog A) (k : A -> Prog B) :
  (forall a, quiet (k a)) ->
  forall P, stable P -> safe m P -> safe (bind m k) P.
Proof.
  intro Hk. induction m as [a | e | X statement k' IH | c k' IH];
    intros P HP Hm; cbn [bind safe] in *; auto.
  - now apply quiet_safe.
  - intros d U Hd. destruct (Hm d U Hd) as (H1 & P' & HP' & Hd' & Hs).
    split; [exact H1 |]. exists P'. repeat split; auto.
Qed.

Lemma safe_tryCatch {A} (m : Prog A) (handler : Exn -> Prog A) :
  (forall e, quiet (handler e)) ->
  forall P, stable P -> safe m P -> safe (tryCatch m handler) P.
Proof.
  intro Hh. induction m as [a | e | X statement k' IH | c k' IH];
    intros P HP Hm; cbn [tryCatch safe] in *; auto.
  - now apply quiet_safe.
  - intros d U Hd. destruct (Hm d U Hd) as (H1 & P' & HP' & Hd' & Hs).
    split; [exact H1 |]. exists P'. repeat split; auto.
Qed.

Lemma quiet_then_safe {A B} (m : Prog A) (k : A -> Prog B) :
  quiet m ->
  forall P, stable P -> (forall a, safe (k a) P) -> safe (bind m k) P.
Proof.
  intros Hm P HP Hk. induction m as [a | e | X statement k' IH | c k' IH];
    cbn [bind safe quiet] in *; auto.
  destruct Hm as [H1 H2]. intros d _ Hd. split; [apply H1 |].
  exists P. split; [exact HP |]. split; [| now apply IH].
  exact (HP _ _ (H1 d) Hd).
Qed.

Lemma quiet_readDb {A} (f : Database -> A) : quiet (readDb f).
Proof. cbn. split; [intro d; apply settles_refl | auto]. Qed.

Lemma quiet_writeDb (f : Database -> Database) :
  (forall d, settles d (f d)) -> quiet (writeDb f).
Proof. intro H. cbn. split; [exact H | auto]. Qed.

Lemma settles_state d key value : settles d (setAutomationState d key value).
Proof. now apply settles_rows. Qed.

Lemma settles_delete d key : settles d (deleteAutomationState d key).
Proof. now apply settles_rows. Qed.

Lemma settles_log d t m e : settles d (addErrorLog d t m e).
Proof. now apply settles_rows. Qed.

Lemma quiet_getStarredEmails svc : quiet (getStarredEmails svc).
Proof. unfold getStarredEmails. cbn. now destruct (starred svc). Qed.

Lemma quiet_labelEmail svc id name : quiet (labelEmail svc id name).
Proof. unfold labelEmail. cbn. now destruct (labelFails svc id name). Qed.

Lemma quiet_unstarEmail svc id : quiet (unstarEmail svc id).
Proof. unfold unstarEmail. cbn. now destruct (unstarFails svc id). Qed.

Lemma quiet_createTask svc input : quiet (createTask svc input).
Proof. unfold createTask. cbn. now destruct (todoistApi svc input). Qed.

Lemma quiet_markHandledQuietly svc gmailId :
  quiet (markHandledQuietly svc gmailId).
Proof.
  unfold markHandledQuietly, when.
  destruct (negb (String.eqb gmailId "")); [| exact I].
  apply quiet_tryCatch; [| intro e; exact I].
  apply quiet_bind; [apply quiet_labelEmail | intros _; apply quiet_unstarEmail].
Qed.

(* --------------------------------------------------------------------- *)
(** ** The cycles *)

(** An iteration of the loop reads [processed_emails] and either skips the
    email or ends with the error of [isPendingReview]. *)
Lemma quiet_processOne svc email result : quiet (processOne svc email result).
Proof.
  unfold processOne, isPendingReview. cbn.
  split; [intro d; apply settles_refl |]. now intros [].
Qed.

Lemma quiet_processAll svc emails : forall result,
  quiet (processAll svc emails result).
Proof.
  induction emails as [| email rest IH]; intro result; [exact I |].
  cbn [processAll]. apply quiet_bind; [apply quiet_processOne | auto].
Qed.

Lemma quiet_processStarredEmails svc : quiet (processStarredEmails svc).
Proof.
  unfold processStarredEmails.
  apply quiet_bind;
    [apply quiet_writeDb; intro d; apply settles_state | intros _].
  apply quiet_bind.
  { apply quiet_tryCatch.
    - unfold validateEnvironment. now destruct (apiKeyAtStart svc).
    - intro e. apply quiet_bind; [| intros _; exact I].
      apply quiet_writeDb. intro d. apply settles_log. }
  intros _. apply quiet_bind.
  { apply quiet_tryCatch.
    - apply quiet_bind; [apply quiet_getStarredEmails | intro; exact I].
    - now intros [m | url]. }
  intros [early | emails]; [exact I | apply quiet_processAll].
Qed.

Lemma quiet_workerOne svc email : quiet (workerOne svc email).
Proof.
  unfold workerOne, isPendingReview. cbn.
  split; [intro d; apply settles_refl |]. now intros [].
Qed.

Lemma quiet_workerAll svc emails : quiet (workerAll svc emails).
Proof.
  induction emails as [| email rest IH]; [exact I |].
  cbn [workerAll]. apply quiet_bind; [apply quiet_workerOne | auto].
Qed.

Lemma quiet_workerProcessStarredEmails svc :
  quiet (workerProcessStarredEmails svc).
Proof.
  unfold workerProcessStarredEmails.
  apply quiet_bind;
    [apply quiet_writeDb; intro d; apply settles_state | intros _].
  apply quiet_tryCatch.
  - apply quiet_bind; [apply quiet_readDb | intro running].
    destruct (negb _); [exact I |].
    destruct (constructorError svc); [exact I |].
    apply quiet_bind.
    + apply quiet_tryCatch.
      * apply quiet_bind; [apply quiet_getStarredEmails | intro; exact I].
      * now intros [m | url].
    + intros [emails |]; [apply quiet_workerAll | exact I].
  - intro e. apply quiet_writeDb. intro d. apply settles_log.
Qed.

Lemma quiet_triggerPoll svc : quiet (triggerPoll svc).
Proof.
  unfold triggerPoll, checkForTrigger.
  apply quiet_bind.
  - apply quiet_bind; [apply quiet_readDb | intro trigger].
    destruct (truthy trigger); [| exact I].
    apply quiet_bind; [| intros _; exact I].
    apply quiet_writeDb. intro d. apply settles_delete.
  - intros []; [apply quiet_workerProcessStarredEmails | exact I].
Qed.

Lemma quiet_skipPendingReview id : quiet (skipPendingReview id).
Proof.
  apply quiet_writeDb. intro d. apply settles_update. discriminate.
Qed.

(* --------------------------------------------------------------------- *)
(** ** Manual completion *)

Lemma addProcessedEmail_rows d data d' :
  addProcessedEmail d data = Some d' ->
  isEmailProcessed d (ped_gmail_id data) = false
  /\ pending_reviews d' = pending_reviews d
  /\ exists row, processed_emails d' = (processed_emails d ++ [row])%list
                 /\ pe_gmail_id row = ped_gmail_id data.
Proof.
  unfold addProcessedEmail.
  destruct (isEmailProcessed d (ped_gmail_id data)) eqn:E; [discriminate |].
  intro H. injection H as <-. repeat split.
  eexists. split; reflexivity.
Qed.

(** The insert of a ProcessedRecord settles when the email is not awaiting
    review. *)
Lemma settles_insert d data :
  awaitsReview d (ped_gmail_id data) = false ->
  settles d (snd (match addProcessedEmail d data with
                  | Some d' => (true, d')
                  | None => (false, d)
                  end)).
Proof.
  intro Hq. destruct (addProcessedEmail d data) as [d' |] eqn:E;
    [| apply settles_refl].
  destruct (addProcessedEmail_rows _ _ E) as (Hnew & Hrows & row & Hp & Hk).
  cbn [snd]. split; [now rewrite Hrows |]. split; [| split].
  - intro g. unfold awaitsReview. now rewrite Hrows.
  - intros g H1 H2. unfold isEmailProcessed in H1, H2. rewrite Hp in H2.
    rewrite existsb_snoc, H1 in H2. cbn [orb] in H2.
    apply String.eqb_eq in H2. rewrite Hk in H2. now subst g.
  - intros [U1 U2]. split; [| now rewrite Hrows].
    rewrite Hp. apply NoDup_map_snoc; [exact U1 |].
    rewrite Hk. intro Hin.
    assert (isEmailProcessed d (ped_gmail_id data) = true); [| congruence].
    apply in_map_iff in Hin. destruct Hin as [r [Hr Hin]].
    unfold isEmailProcessed. apply existsb_exists. exists r.
    split; [exact Hin |]. rewrite Hr. apply String.eqb_refl.
Qed.

(** The status update of a completion makes the email of the review that
    was read stop awaiting review, also when other statements have run
    since the read: they left the reviews the same reviews. *)
Lemma update_settles_the_review d0 d id row :
  uniqueKeys d0 ->
  getPendingReviewById d0 id = Some row ->
  map reviewKey (pending_reviews d) = map reviewKey (pending_reviews d0) ->
  awaitsReview (updatePendingReviewStatus d id completed) (pr_gmail_id row)
  = false.
Proof.
  intros [_ U] Hfind Hkeys.
  apply getPendingReviewById_In in Hfind. destruct Hfind as [Hin Hid].
  destruct (awaitsReview _ _) eqn:E; [| reflexivity]. exfalso.
  unfold awaitsReview, updatePendingReviewStatus in E.
  cbn [pending_reviews] in E. apply existsb_exists in E.
  destruct E as [row' [Hin' Hrow']]. apply in_map_iff in Hin'.
  destruct Hin' as [r [<- Hr]].
  apply andb_true_iff in Hrow'. destruct Hrow' as [Hk Hst].
  assert (Hkey : pr_gmail_id r = pr_gmail_id row).
  { destruct (Nat.eqb (pr_id r) id); apply String.eqb_eq in Hk; exact Hk. }
  assert (Hr0 : In (reviewKey r) (map reviewKey (pending_reviews d0))).
  { rewrite <- Hkeys. now apply in_map. }
  apply in_map_iff in Hr0. destruct Hr0 as [r0 [Hk0 Hin0]].
  unfold reviewKey in Hk0. injection Hk0 as Hid0 Hg0.
  assert (r0 = row).
  { apply (unique_key_row pr_gmail_id (pending_reviews d0)); auto.
    congruence. }
  subst r0. rewrite <- Hid0, Hid, Nat.eqb_refl in Hst. discriminate.
Qed.

Lemma safe_processManualTask svc id taskData :
  safe (processManualTask svc id taskData) (fun _ => True).
Proof.
  unfold processManualTask, readDb. cbn [bind safe fst snd].
  intros d0 U0 _. split; [apply settles_refl |].
  exists (fun d => map reviewKey (pending_reviews d)
                   = map reviewKey (pending_reviews d0)).
  split; [apply stable_keys |]. split; [reflexivity |].
  destruct (getPendingReviewById d0 id) as [row |] eqn:Hfind; [| exact I].
  apply safe_tryCatch; [| apply stable_keys |].
  { intro e. apply quiet_bind; [| intros _; exact I].
    apply quiet_writeDb. intro d. apply settles_log. }
  cbv zeta.
  apply quiet_then_safe; [apply quiet_createTask | apply stable_keys |].
  intro taskId.
  apply quiet_then_safe; [apply quiet_markHandledQuietly | apply stable_keys |].
  intros _. unfold writeDb, writeDbOrThrow. cbn [bind safe fst snd].
  intros d1 U1 Hkeys. split; [apply settles_update; discriminate |].
  exists (fun d => awaitsReview d (pr_gmail_id row) = false).
  split; [apply stable_not_awaiting |].
  split; [now apply (@update_settles_the_review d0 d1 id row) |].
  intros d2 U2 Hq. split; [now apply settles_insert |].
  exists (fun _ => True). split; [apply stable_true |]. split; [exact I |].
  destruct (addProcessedEmail d2 _); exact I.
Qed.

Lemma safe_pendingPOST svc body :
  safe (pendingPOST svc body) (fun _ => True).
Proof.
  unfold pendingPOST.
  destruct body as [b |]; [| exact I].
  destruct (pb_id b) as [[| id] |]; try exact I.
  destruct (constructorError svc); [exact I |].
  destruct (pb_action b) as [action |]; [| exact I].
  destruct (String.eqb action "skip").
  { apply quiet_safe; [| apply stable_true].
    apply quiet_bind; [apply quiet_skipPendingReview | intros _; exact I]. }
  destruct (String.eqb action "submit"); [| exact I].
  destruct (pb_taskData b) as [data |]; [| exact I].
  apply safe_bind; [| apply stable_true | apply safe_processManualTask].
  intro result. now destruct (negb (mr_success result)).
Qed.

(** Every operation is safe from its start. *)
Lemma operation_safe p : Operation p -> safe p (fun _ => True).
Proof.
  intros [svc | svc | svc | svc id data | id | svc body | key value];
    unfold inFlight.
  - apply quiet_safe; [| apply stable_true].
    apply quiet_bind; [apply quiet_processStarredEmails | intro; exact I].
  - apply quiet_safe; [apply quiet_workerProcessStarredEmails | apply stable_true].
  - apply quiet_safe; [apply quiet_triggerPoll | apply stable_true].
  - apply safe_bind; [intro; exact I | apply stable_true |].
    apply safe_processManualTask.
  - apply quiet_safe; [apply quiet_skipPendingReview | apply stable_true].
  - apply safe_bind; [intro; exact I | apply stable_true |].
    apply safe_pendingPOST.
  - apply quiet_safe; [| apply stable_true].
    apply quiet_writeDb. intro d. apply settles_state.
Qed.

(* --------------------------------------------------------------------- *)
(** ** The invariant of the running system *)

Lemma settles_exclusive d d' : settles d d' -> exclusive d -> exclusive d'.
Proof.
  intros (_ & Hq & Hp & _) Hx g Hproc Hawait.
  pose proof (Hq g Hawait) as Hbefore.
  destruct (isEmailProcessed d g) eqn:E; [now apply (Hx g) |].
  rewrite (Hp g E Hproc) in Hbefore. discriminate.
Qed.

Lemma poolSafe_settles d d' pool :
  settles d d' -> poolSafe d pool -> poolSafe d' pool.
Proof.
  intros Hs H. unfold poolSafe in *. eapply Forall_impl; [| exact H].
  intros p (P & HP & Hd & Hsafe). exists P. repeat split; auto.
  exact (HP _ _ Hs Hd).
Qed.

(** What a step does to the database, from a state of the invariant. *)
Lemma step_settles s s' :
  systemInvariant s -> step s s' ->
  settles (fst s) (fst s') /\ systemInvariant s'.
Proof.
  intros [[U X] Hpool] Hstep.
  destruct Hstep as [d pool p Hop | d before after Y statement k
                     | d before after c k]; cbn [fst snd] in *.
  - split; [apply settles_refl |]. split; [now split |].
    constructor; [| exact Hpool].
    exists (fun _ => True). split; [apply stable_true |].
    split; [exact I | now apply operation_safe].
  - unfold poolSafe in Hpool. apply Forall_app in Hpool.
    destruct Hpool as [Hb Hrest]. inversion Hrest as [| p l Hp Ha]. subst.
    destruct Hp as (P & HP & Hd & Hsafe). cbn [safe] in Hsafe.
    destruct (Hsafe d U Hd) as (Hs & P' & HP' & Hd' & Hk).
    split; [exact Hs |]. split.
    + split; [now apply Hs | now apply (settles_exclusive Hs)].
    + apply Forall_app. split; [now apply (poolSafe_settles Hs) |].
      constructor; [now exists P' | now apply (poolSafe_settles Hs)].
  - split; [apply settles_refl |]. split; [now split |].
    unfold poolSafe in *. apply Forall_app in Hpool.
    destruct Hpool as [Hb Hrest]. inversion Hrest as [| p l Hp Ha]. subst.
    apply Forall_app. split; [exact Hb |]. constructor; [| exact Ha].
    destruct Hp as (P & HP & Hd & Hsafe). now exists P.
Qed.

Lemma steps_invariant s s' :
  systemInvariant s -> steps s s' -> systemInvariant s'.
Proof.
  intros Hinv Hrun. induction Hrun as [s | s s' s'' Hrun IH Hstep];
    [exact Hinv |].
  exact (proj2 (step_settles (IH Hinv) Hstep)).
Qed.

Lemma steps_first s s' s'' : step s s' -> steps s' s'' -> steps s s''.
Proof.
  intros Hstep Hrun. induction Hrun as [s' | s' t t' Hrun IH Ht].
  - eapply steps_more; [apply steps_none | exact Hstep].
  - eapply steps_more; [now apply IH | exact Ht].
Qed.

(** An operation that is not interrupted runs as [exec] says. *)
Lemma exec_steps (p : Prog unit) : forall d history before after,
  steps (d, (before ++ p :: after)%list)
        (db (snd (exec p (mkWorld d history))),
         (before ++ finished (fst (exec p (mkWorld d history))) :: after)%list).
Proof.
  induction p as [a | e | X statement k IH | c k IH];
    intros d history before after; cbn [exec fst snd db calls finished].
  - apply steps_none.
  - apply steps_none.
  - eapply steps_first; [apply step_sql | apply IH].
  - eapply steps_first; [apply step_await | apply IH].
Qed.

(** C6.  The operations of the core run at the same time, their statements
    interleaved in any order, from a database in which the [UNIQUE]
    constraints hold and no item is both processed and pending.  In every
    state they reach, no item has both a ProcessedRecord and a PendingReview
    with the status ['pending']; and whenever a step creates the
    ProcessedRecord of an item, the item was not awaiting review before the
    step and is not after it: the completion has set the status first. *)
Theorem C6_processed_and_pending_exclusive
        (d0 d : Database) (pool : list (Prog unit))
        (Hinit : ledgerInvariant d0)
        (Hrun : steps (d0, []) (d, pool)) :
  exclusive d
  /\ uniqueKeys d
  /\ (forall d' pool' gmailId,
         step (d, pool) (d', pool') ->
         isEmailProcessed d gmailId = false ->
         isEmailProcessed d' gmailId = true ->
         awaitsReview d gmailId = false /\ awaitsReview d' gmailId = false)
  /\ (forall p history,
         Operation p ->
         ledgerInvariant (db (snd (exec p (mkWorld d history))))).
Proof.
  assert (Hinv : systemInvariant (d, pool)).
  { apply (@steps_invariant (d0, []) (d, pool)); [| exact Hrun].
    split; [exact Hinit | constructor]. }
  destruct Hinv as [[U X] Hpool]. split; [exact X |]. split; [exact U |]. split.
  - intros d' pool' g Hstep Hno Hyes.
    destruct (@step_settles (d, pool) (d', pool')
                (conj (conj U X) Hpool) Hstep) as ((_ & Hq & Hp & _) & _).
    cbn [fst] in *. pose proof (Hp g Hno Hyes) as Hbefore.
    split; [exact Hbefore |].
    destruct (awaitsReview d' g) eqn:E; [| reflexivity].
    apply Hq in E. congruence.
  - intros p history Hop.
    assert (Hend : systemInvariant
                     (db (snd (exec p (mkWorld d history))),
                      ([] ++ finished (fst (exec p (mkWorld d history)))
                          :: pool)%list)).
    { apply (@steps_invariant (d, pool)); [exact (conj (conj U X) Hpool) |].
      eapply steps_first; [apply (step_start d pool Hop) |].
      apply (exec_steps p d history [] pool). }
    exact (proj1 Hend).
Qed.

Lemma C6_processed_and_pending_exclusive_witness :
  let completion :=
    inFlight (processManualTask Scenario.healthy 1 Scenario.reviewed) in
  let after := db (snd (exec completion (mkWorld Scenario.queued []))) in
  exclusive after
  /\ map pe_gmail_id (processed_emails after) = ["a1"]
  /\ map (fun row => (pr_gmail_id row, pr_status row)) (pending_reviews after)
     = [("a1", completed)].
Proof.
  cbv zeta.
  assert (Hinit : ledgerInvariant Scenario.queued).
  { split; [split |].
    - constructor.
    - repeat constructor. intros [].
    - intros id H. discriminate H. }
  assert (Hrun : steps (Scenario.queued, [])
                   (db (snd (exec (inFlight (processManualTask Scenario.healthy 1
                                               Scenario.reviewed))
                                  (mkWorld Scenario.queued []))),
                    [finished (fst (exec (inFlight (processManualTask
                                                      Scenario.healthy 1
                                                      Scenario.reviewed))
                                         (mkWorld Scenario.queued [])))])).
  { eapply steps_first.
    - apply (step_start Scenario.queued []
               (op_manual Scenario.healthy 1 Scenario.reviewed)).
    - apply (exec_steps _ Scenario.queued [] [] []). }
  destruct (C6_processed_and_pending_exclusive Hinit Hrun) as (H & _).
  split; [exact H |]. split; reflexivity.
Defined.

(* ===================================================================== *)
(** * The Gmail service *)
(* ===================================================================== *)

Section EmailBodyFacts.

Variable decode : string -> string.

(** The inner loop of [visitPart] is [extractFromParts]. *)
Lemma visitPart_node (mime data : option string) (ps : list MessagePart) :
  visitPart decode (mkPart mime data (Some ps))
  = if (match mime with Some m => String.eqb m "text/plain" | None => false end)
       && nonEmpty data
    then Some (decode (JS.orEmpty data))
    else if String.eqb (extractFromParts decode ps) "" then None
         else Some (extractFromParts decode ps).
Proof. reflexivity. Qed.

Lemma extractFromParts_sound (ps : list MessagePart) :
  Forall (fun part => forall text, visitPart decode part = Some text ->
                                   In text (plainTexts decode part)) ps ->
  extractFromParts decode ps = ""
  \/ In (extractFromParts decode ps) (flat_map (plainTexts decode) ps).
Proof.
  induction ps as [| p rest IHr]; intros IH; [left; reflexivity |].
  inversion IH as [| ? ? Hp Hrest]; subst.
  cbn [extractFromParts flat_map].
  destruct (visitPart decode p) as [t |] eqn:V.
  - right. apply in_or_app. left. apply Hp. reflexivity.
  - destruct (IHr Hrest) as [-> | Hin]; [left; reflexivity |].
    right. apply in_or_app. right. exact Hin.
Qed.

Lemma visitPart_sound (part : MessagePart) :
  forall text, visitPart decode part = Some text ->
               In text (plainTexts decode part).
Proof.
  induction part as [mime data | mime data ps IH] using MessagePart_tree_ind;
    intros text H.
  - cbn in H |- *.
    destruct ((match mime with Some m => String.eqb m "text/plain" | None => false end)
              && nonEmpty data); [| discriminate].
    injection H as <-. left. reflexivity.
  - rewrite visitPart_node in H. cbn [plainTexts].
    destruct ((match mime with Some m => String.eqb m "text/plain" | None => false end)
              && nonEmpty data).
    + injection H as <-. left. reflexivity.
    + cbn [app].
      destruct (String.eqb (extractFromParts decode ps) "") eqn:E; [discriminate |].
      injection H as <-.
      destruct (@extractFromParts_sound ps IH) as [Hs | Hs]; [| exact Hs].
      rewrite Hs in E. discriminate.
Qed.

Lemma parts_sound (ps : list MessagePart) :
  extractFromParts decode ps = ""
  \/ In (extractFromParts decode ps) (flat_map (plainTexts decode) ps).
Proof.
  apply extractFromParts_sound. apply Forall_forall.
  intros part _. apply visitPart_sound.
Qed.

Lemma extractFromParts_first (ps : list MessagePart) :
  Forall (fun part => Forall (fun text => text <> "") (plainTexts decode part) ->
                      visitPart decode part = firstText (plainTexts decode part)) ps ->
  Forall (fun text => text <> "") (flat_map (plainTexts decode) ps) ->
  extractFromParts decode ps = hd "" (flat_map (plainTexts decode) ps).
Proof.
  induction ps as [| p rest IHr]; intros IH Hne; [reflexivity |].
  inversion IH as [| ? ? Hp Hrest]; subst.
  cbn [extractFromParts flat_map] in *.
  apply Forall_app in Hne. destruct Hne as [Hne1 Hne2].
  rewrite (Hp Hne1).
  destruct (plainTexts decode p) as [| t ts]; cbn [firstText app hd].
  - apply IHr; assumption.
  - reflexivity.
Qed.

Lemma visitPart_first (part : MessagePart) :
  Forall (fun text => text <> "") (plainTexts decode part) ->
  visitPart decode part = firstText (plainTexts decode part).
Proof.
  induction part as [mime data | mime data ps IH] using MessagePart_tree_ind;
    intros Hne.
  - cbn.
    destruct ((match mime with Some m => String.eqb m "text/plain" | None => false end)
              && nonEmpty data); reflexivity.
  - rewrite visitPart_node. cbn [plainTexts] in *.
    destruct ((match mime with Some m => String.eqb m "text/plain" | None => false end)
              && nonEmpty data); [reflexivity |].
    cbn [app] in *.
    rewrite (@extractFromParts_first ps IH Hne).
    destruct (flat_map (plainTexts decode) ps) as [| t ts]; [reflexivity |].
    cbn [hd firstText].
    inversion Hne as [| ? ? Ht _]; subst.
    destruct (String.eqb t "") eqn:E; [| reflexivity].
    apply String.eqb_eq in E. contradiction.
Qed.

Lemma parts_first (ps : list MessagePart) :
  Forall (fun text => text <> "") (flat_map (plainTexts decode) ps) ->
  extractFromParts decode ps = hd "" (flat_map (plainTexts decode) ps).
Proof.
  apply extractFromParts_first. apply Forall_forall.
  intros part _. apply visitPart_first.
Qed.

End EmailBodyFacts.

(** X28.  The body that [extractEmailBody] takes from a multipart message is
    empty or the decoded data of one of its [text/plain] parts, at any depth
    (a message with HTML parts only gives the empty body); when none of these
    texts is empty, it is the first of them in document order. *)
Theorem X28_body_is_first_plain_text
  (decode : string -> string) (payload : MessagePart) (ps : list MessagePart)
  (Hparts : part_parts payload = Some ps) :
  let body := extractEmailBody decode (Some payload) in
  let texts := flat_map (plainTexts decode) ps in
  (body = "" \/ In body texts)
  /\ (texts = [] -> body = "")
  /\ (Forall (fun text => text <> "") texts -> body = hd "" texts).
Proof.
  cbv zeta. unfold extractEmailBody. rewrite Hparts.
  split; [apply parts_sound |]. split.
  - intros Hnone. destruct (@parts_sound decode ps) as [H | H]; [exact H |].
    rewrite Hnone in H. destruct H.
  - apply parts_first.
Qed.

Lemma X28_body_is_first_plain_text_witness :
  let decode := fun data : string => "<" ++ data ++ ">" in
  let html := mkPart (Some "text/html") (Some "aHRtbA") None in
  let plain := mkPart (Some "text/plain") (Some "cGxhaW4") None in
  let alternative := mkPart (Some "multipart/alternative") None (Some [html; plain]) in
  let attachment := mkPart (Some "text/plain") (Some "bm90ZXM") None in
  let payload := mkPart (Some "multipart/mixed") None (Some [alternative; attachment]) in
  extractEmailBody decode (Some payload) = "<cGxhaW4>".
Proof.
  cbv zeta.
  pose (decode := fun data : string => "<" ++ data ++ ">").
  pose (html := mkPart (Some "text/html") (Some "aHRtbA") None).
  pose (plain := mkPart (Some "text/plain") (Some "cGxhaW4") None).
  pose (alternative := mkPart (Some "multipart/alternative") None (Some [html; plain])).
  pose (attachment := mkPart (Some "text/plain") (Some "bm90ZXM") None).
  destruct (@X28_body_is_first_plain_text decode
              (mkPart (Some "multipart/mixed") None (Some [alternative; attachment]))
              [alternative; attachment] eq_refl) as (_ & _ & H).
  apply H. repeat constructor; discriminate.
Defined.

(** ** The token table *)

Lemma token_find_app_hit (provider : string) (t : TokenTable) (row : string * OAuthToken) :
  find (fun r => String.eqb (fst r) provider) t = None ->
  fst row = provider ->
  getOAuthToken provider (t ++ [row])%list = Some (snd row).
Proof.
  intros Hnone Hkey. unfold getOAuthToken.
  induction t as [| r t IH]; cbn [app find] in *.
  - rewrite Hkey, String.eqb_refl. reflexivity.
  - destruct (String.eqb (fst r) provider); [discriminate |]. apply IH, Hnone.
Qed.

Lemma token_find_deleted (provider : string) (t : TokenTable) :
  find (fun r => String.eqb (fst r) provider) (deleteOAuthToken provider t) = None.
Proof.
  unfold deleteOAuthToken.
  induction t as [| r t IH]; [reflexivity |]. cbn [filter].
  destruct (String.eqb (fst r) provider) eqn:E; cbn [negb]; [exact IH |].
  cbn [find]. rewrite E. exact IH.
Qed.

Lemma get_after_delete (provider : string) (t : TokenTable) :
  getOAuthToken provider (deleteOAuthToken provider t) = None.
Proof. unfold getOAuthToken. rewrite token_find_deleted. reflexivity. Qed.

Lemma get_after_delete_other (provider other : string) (t : TokenTable) :
  other <> provider ->
  getOAuthToken other (deleteOAuthToken provider t) = getOAuthToken other t.
Proof.
  intros Hne. unfold getOAuthToken, deleteOAuthToken.
  induction t as [| r t IH]; [reflexivity |]. cbn [filter find].
  destruct (String.eqb (fst r) provider) eqn:E; cbn [negb].
  - apply String.eqb_eq in E.
    destruct (String.eqb (fst r) other) eqn:E2.
    + apply String.eqb_eq in E2. congruence.
    + exact IH.
  - cbn [find]. destruct (String.eqb (fst r) other); [reflexivity | exact IH].
Qed.

Lemma get_after_set (provider a r e : string) (t : TokenTable) :
  getOAuthToken provider (setOAuthToken provider a r e t)
  = Some (mkOAuthToken (Some a) (Some r) (Some e)).
Proof.
  unfold setOAuthToken.
  apply (@token_find_app_hit provider (deleteOAuthToken provider t)
           (provider, mkOAuthToken (Some a) (Some r) (Some e))).
  - apply token_find_deleted.
  - reflexivity.
Qed.

Lemma get_after_set_other (provider other a r e : string) (t : TokenTable) :
  other <> provider ->
  getOAuthToken other (setOAuthToken provider a r e t) = getOAuthToken other t.
Proof.
  intros Hne. rewrite <- (@get_after_delete_other provider other t Hne).
  unfold setOAuthToken, getOAuthToken.
  induction (deleteOAuthToken provider t) as [| x l IH]; cbn [app find].
  - cbn [fst]. destruct (String.eqb provider other) eqn:E; [| reflexivity].
    apply String.eqb_eq in E. congruence.
  - destruct (String.eqb (fst x) other); [reflexivity | exact IH].
Qed.

Lemma orElse_nonEmpty (v : option string) (fallback : string) :
  fallback <> "" -> orElse v fallback <> "".
Proof.
  intros Hf. unfold orElse.
  destruct v as [s |]; cbn [nonEmpty JS.orEmpty]; [| exact Hf].
  destruct (String.eqb s "") eqn:E; cbn [negb]; [exact Hf |].
  apply String.eqb_neq in E. exact E.
Qed.

Lemma nonEmpty_orEmpty (v : option string) :
  nonEmpty v = true -> JS.orEmpty v <> "".
Proof.
  destruct v as [s |]; cbn [nonEmpty JS.orEmpty]; [| discriminate].
  destruct (String.eqb s "") eqn:E; [discriminate |].
  intros _. apply String.eqb_neq in E. exact E.
Qed.

Lemma nonEmpty_Some (s : string) : s <> "" -> nonEmpty (Some s) = true.
Proof.
  intros H. cbn [nonEmpty]. apply String.eqb_neq in H. rewrite H. reflexivity.
Qed.

(** What [ensureAuthenticated] does, case by case. *)
Lemma ensureAuthenticated_cases (g : Google) (w : GmailWorld) :
  match getOAuthToken "gmail" (tokens w) with
  | None => ensureAuthenticated g w = (inl (GmailAuthError (generateAuthUrl g)), w)
  | Some stored =>
      if nonEmpty (refresh_token stored)
      then
        if needsRefresh g stored
        then match refreshAccessToken g with
             | inr credentials =>
                 ensureAuthenticated g w
                 = (inr tt,
                    mkGmailWorld
                      (setOAuthToken "gmail"
                         (orElse (cred_access_token credentials) "")
                         (orElse (cred_refresh_token credentials)
                                 (JS.orEmpty (refresh_token stored)))
                         (orElse (cred_expiry credentials) "") (tokens w))
                      (RefreshRequest :: requests w))
             | inl _ =>
                 ensureAuthenticated g w
                 = (inl (GmailAuthError (generateAuthUrl g)),
                    mkGmailWorld (deleteOAuthToken "gmail" (tokens w))
                                 (RefreshRequest :: requests w))
             end
        else ensureAuthenticated g w = (inr tt, w)
      else ensureAuthenticated g w = (inl (GmailAuthError (generateAuthUrl g)), w)
  end.
Proof.
  unfold ensureAuthenticated.
  destruct (getOAuthToken "gmail" (tokens w)) as [stored |]; [| reflexivity].
  destruct (nonEmpty (refresh_token stored)); cbn [negb]; [| reflexivity].
  destruct (needsRefresh g stored); [| reflexivity].
  unfold request, gbind, writeTokens, gthrow.
  destruct (refreshAccessToken g); reflexivity.
Qed.

(** X29.  A failure of [ensureAuthenticated] is always a [GmailAuthError]
    carrying the authorization URL, and it is final: whether the token was
    missing, had no refresh token, or was deleted after a failed refresh,
    every later call fails the same way without a request to Google, and
    [isAuthenticated] answers false.  The tokens of other providers are not
    touched. *)
Theorem X29_auth_failure_is_final
  (g : Google) (w w' : GmailWorld) (e : Exn)
  (Hfail : ensureAuthenticated g w = (inl e, w')) :
  e = GmailAuthError (generateAuthUrl g)
  /\ (forall provider, provider <> "gmail" ->
        getOAuthToken provider (tokens w') = getOAuthToken provider (tokens w))
  /\ (forall later : Google,
        ensureAuthenticated later w'
        = (inl (GmailAuthError (generateAuthUrl later)), w')
        /\ gmailIsAuthenticated later w' = (inr false, w')).
Proof.
  assert (Hlater : forall later : Google,
             ensureAuthenticated later w'
             = (inl (GmailAuthError (generateAuthUrl later)), w') ->
             ensureAuthenticated later w'
             = (inl (GmailAuthError (generateAuthUrl later)), w')
             /\ gmailIsAuthenticated later w' = (inr false, w')).
  { intros later H. split; [exact H |].
    unfold gmailIsAuthenticated. rewrite H. reflexivity. }
  pose proof (ensureAuthenticated_cases g w) as Hc.
  destruct (getOAuthToken "gmail" (tokens w)) as [stored |] eqn:Hget.
  - destruct (nonEmpty (refresh_token stored)) eqn:Hr.
    + destruct (needsRefresh g stored).
      * destruct (refreshAccessToken g) as [err | credentials];
          rewrite Hc in Hfail; [| discriminate].
        injection Hfail as <- <-. split; [reflexivity |]. split.
        -- intros provider Hne. cbn [tokens].
           apply get_after_delete_other. exact Hne.
        -- intros later. apply Hlater.
           pose proof (ensureAuthenticated_cases later
                         (mkGmailWorld (deleteOAuthToken "gmail" (tokens w))
                                       (RefreshRequest :: requests w))) as Hl.
           cbn [tokens] in Hl. rewrite get_after_delete in Hl. exact Hl.
      * rewrite Hc in Hfail. discriminate.
    + rewrite Hc in Hfail. injection Hfail as <- <-.
      split; [reflexivity |]. split; [reflexivity |].
      intros later. apply Hlater.
      pose proof (ensureAuthenticated_cases later w) as Hl.
      rewrite Hget, Hr in Hl. exact Hl.
  - rewrite Hc in Hfail. injection Hfail as <- <-.
    split; [reflexivity |]. split; [reflexivity |].
    intros later. apply Hlater.
    pose proof (ensureAuthenticated_cases later w) as Hl.
    rewrite Hget in Hl. exact Hl.
Qed.

Lemma X29_auth_failure_is_final_witness :
  let g := mkGoogle "https://accounts.example/auth" (fun _ => Some 1000%Z) 2000%Z
             (inl (JsError "invalid_grant")) (fun _ => inl (JsError "unused"))
             (inr None) (fun _ => inl (JsError "unused"))
             (fun s => s) (fun s => s) in
  let stored := mkOAuthToken (Some "access") (Some "refresh") (Some "1000") in
  let w := mkGmailWorld [("gmail", stored)] [] in
  ensureAuthenticated g w
  = (inl (GmailAuthError "https://accounts.example/auth"),
     mkGmailWorld [] [RefreshRequest])
  /\ gmailIsAuthenticated g (mkGmailWorld [] [RefreshRequest])
     = (inr false, mkGmailWorld [] [RefreshRequest]).
Proof.
  cbv zeta. split; [reflexivity |].
  pose (g := mkGoogle "https://accounts.example/auth" (fun _ => Some 1000%Z) 2000%Z
               (inl (JsError "invalid_grant")) (fun _ => inl (JsError "unused"))
               (inr None) (fun _ => inl (JsError "unused"))
               (fun s : string => s) (fun s : string => s)).
  pose (w := mkGmailWorld
               [("gmail", mkOAuthToken (Some "access") (Some "refresh") (Some "1000"))]
               []).
  destruct (@X29_auth_failure_is_final g w (mkGmailWorld [] [RefreshRequest])
              (GmailAuthError "https://accounts.example/auth") eq_refl)
    as (_ & _ & H).
  exact (proj2 (H g)).
Defined.

(** X30.  After a sign-in that returns normally, through [exchangeCode] or
    through [ensureAuthenticated] with or without a refresh, the stored
    Gmail token has a non-empty refresh token: a refresh that brings no new
    refresh token keeps the stored one.  [ensureAuthenticated] sends at most
    one request, the refresh, and the tokens of other providers are not
    touched. *)
Theorem X30_sign_in_keeps_a_refresh_token (g : Google) (w w' : GmailWorld) :
  (ensureAuthenticated g w = (inr tt, w') ->
   hasRefreshToken (tokens w) = true
   /\ hasRefreshToken (tokens w') = true
   /\ (forall provider, provider <> "gmail" ->
         getOAuthToken provider (tokens w') = getOAuthToken provider (tokens w))
   /\ (w' = w \/ requests w' = RefreshRequest :: requests w))
  /\ (forall code,
        exchangeCode g code w = (inr tt, w') ->
        hasRefreshToken (tokens w') = true
        /\ (forall provider, provider <> "gmail" ->
              getOAuthToken provider (tokens w') = getOAuthToken provider (tokens w))
        /\ requests w' = TokenRequest code :: requests w).
Proof.
  split.
  - intros Hok. pose proof (ensureAuthenticated_cases g w) as Hc.
    unfold hasRefreshToken.
    destruct (getOAuthToken "gmail" (tokens w)) as [stored |] eqn:Hget;
      [| rewrite Hc in Hok; discriminate].
    destruct (nonEmpty (refresh_token stored)) eqn:Hr;
      [| rewrite Hc in Hok; discriminate].
    split; [reflexivity |].
    destruct (needsRefresh g stored).
    + destruct (refreshAccessToken g) as [err | credentials];
        rewrite Hc in Hok; [discriminate |].
      injection Hok as <-. cbn [tokens requests]. split; [| split].
      * rewrite get_after_set. cbn [refresh_token].
        apply nonEmpty_Some, orElse_nonEmpty, nonEmpty_orEmpty, Hr.
      * intros provider Hne. apply get_after_set_other. exact Hne.
      * right. reflexivity.
    + rewrite Hc in Hok. injection Hok as <-. split; [| split].
      * rewrite Hget. exact Hr.
      * reflexivity.
      * left. reflexivity.
  - intros code Hok. unfold exchangeCode, gbind, request in Hok.
    destruct (getToken g code) as [err | issued]; [discriminate |].
    destruct (nonEmpty (cred_access_token issued)) eqn:Ha; cbn [negb orb] in Hok;
      [| discriminate].
    destruct (nonEmpty (cred_refresh_token issued)) eqn:Hr; cbn [negb] in Hok;
      [| discriminate].
    unfold writeTokens in Hok. cbn [tokens requests] in Hok.
    injection Hok as <-. cbn [tokens requests]. split; [| split].
    + unfold hasRefreshToken. rewrite get_after_set. cbn [refresh_token].
      apply nonEmpty_Some, nonEmpty_orEmpty, Hr.
    + intros provider Hne. apply get_after_set_other. exact Hne.
    + reflexivity.
Qed.

Lemma X30_sign_in_keeps_a_refresh_token_witness :
  let g := mkGoogle "https://accounts.example/auth" (fun _ => Some 1000%Z) 2000%Z
             (inr (mkCredentials (Some "fresh") None (Some "5000")))
             (fun _ => inl (JsError "unused"))
             (inr None) (fun _ => inl (JsError "unused"))
             (fun s => s) (fun s => s) in
  let w := mkGmailWorld
             [("gmail", mkOAuthToken (Some "access") (Some "refresh") (Some "1000"))]
             [] in
  getOAuthToken "gmail" (tokens (snd (ensureAuthenticated g w)))
  = Some (mkOAuthToken (Some "fresh") (Some "refresh") (Some "5000"))
  /\ hasRefreshToken (tokens (snd (ensureAuthenticated g w))) = true.
Proof.
  cbv zeta. split; [reflexivity |].
  pose (g := mkGoogle "https://accounts.example/auth" (fun _ => Some 1000%Z) 2000%Z
               (inr (mkCredentials (Some "fresh") None (Some "5000")))
               (fun _ => inl (JsError "unused"))
               (inr None) (fun _ => inl (JsError "unused"))
               (fun s : string => s) (fun s : string => s)).
  pose (w := mkGmailWorld
               [("gmail", mkOAuthToken (Some "access") (Some "refresh") (Some "1000"))]
               []).
  destruct (@X30_sign_in_keeps_a_refresh_token g w (snd (ensureAuthenticated g w)))
    as [H _].
  exact (proj1 (proj2 (H eq_refl))).
Defined.

(** ** Fetching the starred emails *)

Lemma headerOr_nonEmpty (g : Google) (headers : list Header) (name fallback : string) :
  fallback <> "" -> headerOr g headers name fallback <> "".
Proof.
  intros Hf. unfold headerOr.
  destruct (find _ headers); [apply orElse_nonEmpty |]; exact Hf.
Qed.

Lemma fetchMessages_spec (g : Google) (messages : list (option string)) :
  forall (emails : list GmailEmail) (w : GmailWorld),
    match fetchMessages g messages emails w with
    | (inr result, w') =>
        exists added,
          result = (emails ++ added)%list
          /\ map email_id added = map JS.orEmpty (filter nonEmpty messages)
          /\ Forall (fetchedFrom g) added
          /\ requests w'
             = (rev (map GetRequest (map email_id added)) ++ requests w)%list
          /\ tokens w' = tokens w
    | (inl e, w') =>
        exists id, In (Some id) messages /\ getMessage g id = inl e
    end.
Proof.
  induction messages as [| message rest IH]; intros emails w.
  - cbn. exists []. rewrite app_nil_r. repeat split. constructor.
  - cbn [fetchMessages filter].
    destruct (nonEmpty message) eqn:Hm; cbn [negb].
    + unfold gbind, request.
      destruct (getMessage g (JS.orEmpty message)) as [err | m] eqn:Hget.
      * exists (JS.orEmpty message). split; [| exact Hget].
        left. destruct message; [reflexivity | discriminate].
      * specialize (IH (emails ++ [emailOf g (JS.orEmpty message) m])%list
                       (mkGmailWorld (tokens w)
                          (GetRequest (JS.orEmpty message) :: requests w))).
        destruct (fetchMessages g rest _ _) as [[e | result] w'].
        -- destruct IH as (id & Hin & Hid). exists id. split; [right |]; assumption.
        -- destruct IH as (added & -> & Hids & Hall & Hreq & Htok).
           exists (emailOf g (JS.orEmpty message) m :: added).
           rewrite <- app_assoc. cbn [app map rev]. repeat split.
           ++ cbn [emailOf email_id]. rewrite Hids. reflexivity.
           ++ constructor; [| exact Hall]. exists m. split; [exact Hget | reflexivity].
           ++ rewrite Hreq. cbn [requests emailOf email_id].
              rewrite <- app_assoc. reflexivity.
           ++ exact Htok.
    + specialize (IH emails w).
      destruct (fetchMessages g rest emails w) as [[e | result] w'].
      * destruct IH as (id & Hin & Hid). exists id. split; [right |]; assumption.
      * exact IH.
Qed.

(** X7.   When [getStarredEmails] returns, it returns one email for each
    listed message that has an id, in the listed order, each built from the
    answer of one successful [messages.get] request, sent after the list
    request; no email has an empty id, sender or subject (a missing or empty
    From or Subject header reads 'Unknown' or 'No Subject'). *)
Theorem X7_starred_emails_are_complete
  (g : Google) (w w' : GmailWorld) (emails : list GmailEmail)
  (Hok : gmailGetStarredEmails g w = (inr emails, w')) :
  map email_id emails = map JS.orEmpty (filter nonEmpty (listedIds g))
  /\ Forall (fetchedFrom g) emails
  /\ Forall (fun e => email_id e <> "" /\ email_sender e <> ""
                      /\ email_subject e <> "") emails
  /\ exists before,
       ensureAuthenticated g w = (inr tt, before)
       /\ requests w'
          = (rev (map GetRequest (map email_id emails))
             ++ ListRequest :: requests before)%list.
Proof.
  unfold gmailGetStarredEmails, gbind in Hok.
  destruct (ensureAuthenticated g w) as [[e | []] before] eqn:Hauth; [discriminate |].
  unfold request in Hok.
  assert (Hlist : exists messages,
             listMessages g = inr messages
             /\ listedIds g = match messages with Some ms => ms | None => [] end).
  { unfold listedIds. destruct (listMessages g) as [e | messages]; [discriminate |].
    exists messages. split; [reflexivity |]. destruct messages; reflexivity. }
  destruct Hlist as (messages & Hl & Hids). rewrite Hl in Hok. rewrite Hids.
  pose proof (@fetchMessages_spec g
                (match messages with Some ms => ms | None => [] end) []
                (mkGmailWorld (tokens before) (ListRequest :: requests before)))
    as Hspec.
  rewrite Hok in Hspec. destruct Hspec as (added & Hres & Hmap & Hall & Hreq & _).
  cbn [app] in Hres. subst added.
  split; [exact Hmap |]. split; [exact Hall |]. split.
  - apply Forall_forall. intros e Hin.
    assert (Hid : email_id e <> "").
    { assert (Hin' : In (email_id e) (map email_id emails)) by (apply in_map, Hin).
      rewrite Hmap in Hin'. apply in_map_iff in Hin'.
      destruct Hin' as (message & Heq & Hf). apply filter_In in Hf.
      rewrite <- Heq. apply nonEmpty_orEmpty. exact (proj2 Hf). }
    split; [exact Hid |].
    rewrite Forall_forall in Hall. destruct (Hall e Hin) as (m & _ & He).
    rewrite He. cbn [emailOf email_sender email_subject].
    split; apply headerOr_nonEmpty; discriminate.
  - exists before. split; [reflexivity |]. exact Hreq.
Qed.

Lemma X7_starred_emails_are_complete_witness :
  let message :=
    mkMessage (Some "t1") None
      (Some (mkPayload
               (Some [mkHeader (Some "From") (Some ""); mkHeader (Some "Subject") None])
               (mkPart (Some "text/html") (Some "aHRtbA") None))) in
  let g := mkGoogle "https://accounts.example/auth" (fun _ => None) 2000%Z
             (inl (JsError "unused")) (fun _ => inl (JsError "unused"))
             (inr (Some [None; Some "m1"])) (fun _ => inr message)
             (fun s => if String.eqb s "From" then "from"
                       else if String.eqb s "Subject" then "subject" else s)
             (fun s => s) in
  let w := mkGmailWorld
             [("gmail", mkOAuthToken (Some "access") (Some "refresh") (Some "never"))]
             [] in
  fst (gmailGetStarredEmails g w)
  = inr [mkEmail "m1" "t1" "Unknown" "No Subject" "aHRtbA" []]
  /\ map email_id [mkEmail "m1" "t1" "Unknown" "No Subject" "aHRtbA" []] = ["m1"].
Proof.
  cbv zeta. split; [reflexivity |].
  pose (message :=
    mkMessage (Some "t1") None
      (Some (mkPayload
               (Some [mkHeader (Some "From") (Some ""); mkHeader (Some "Subject") None])
               (mkPart (Some "text/html") (Some "aHRtbA") None)))).
  pose (g := mkGoogle "https://accounts.example/auth" (fun _ => None) 2000%Z
               (inl (JsError "unused")) (fun _ => inl (JsError "unused"))
               (inr (Some [None; Some "m1"])) (fun _ => inr message)
               (fun s : string => if String.eqb s "From" then "from"
                         else if String.eqb s "Subject" then "subject" else s)
               (fun s : string => s)).
  pose (w := mkGmailWorld
               [("gmail", mkOAuthToken (Some "access") (Some "refresh") (Some "never"))]
               []).
  exact (proj1 (@X7_starred_emails_are_complete g w
                  (snd (gmailGetStarredEmails g w))
                  [mkEmail "m1" "t1" "Unknown" "No Subject" "aHRtbA" []] eq_refl)).
Defined.
